(** * web-bingo: the room engine of [server.js], embedded in Rocq

    The development follows [src/server.js]: the [BingoGame] class (card
    generation, number calling, win detection) and the Socket.IO event
    handlers that drive it.  JavaScript objects that the server mutates are
    threaded explicitly: a method of [BingoGame] takes the game (and, when it
    draws random numbers or touches timers, the [Runtime]) and returns the
    updated one. *)

From stdpp Require Import base decidable option list numbers strings pretty
  gmap sets.

Local Open Scope Z_scope.

(** ** JavaScript containers *)

(** A JavaScript [Map] keeps its entries in insertion order, and the server
    iterates over it with [forEach]; it is modelled as an association list in
    which [set] overwrites an existing key where it stands and appends a new
    one. *)
Module JsMap.
Section Defs.
Context {K V : Type} `{EqDecision K}.

Fixpoint get (k : K) (m : list (K * V)) : option V :=
  match m with
  | [] => None
  | (k', v) :: m' => if decide (k = k') then Some v else get k m'
  end.

Definition has (k : K) (m : list (K * V)) : bool :=
  match get k m with Some _ => true | None => false end.

Fixpoint set (k : K) (v : V) (m : list (K * V)) : list (K * V) :=
  match m with
  | [] => [(k, v)]
  | (k', v') :: m' =>
      if decide (k = k') then (k, v) :: m' else (k', v') :: set k v m'
  end.

Fixpoint delete (k : K) (m : list (K * V)) : list (K * V) :=
  match m with
  | [] => []
  | (k', v') :: m' =>
      if decide (k = k') then m' else (k', v') :: delete k m'
  end.

Definition size (m : list (K * V)) : nat := length m.

Definition keys (m : list (K * V)) : list K := m.*1.
End Defs.
End JsMap.

(** A JavaScript [Set] of numbers, also in insertion order ([Array.from]
    lists the elements in that order). *)
Module JsSet.
Definition has (x : Z) (s : list Z) : bool := bool_decide (x ∈ s).

Definition add (x : Z) (s : list Z) : list Z :=
  if has x s then s else s ++ [x].
End JsSet.

(** Array read [a[i]] at a number: [undefined] ([None]) outside the array. *)
Definition at_index {A : Type} (a : list A) (i : Z) : option A :=
  if decide (0 ≤ i) then a !! Z.to_nat i else None.

(** ** Data model *)

(** What a card cell can hold: a number, the string ['FREE'], or
    [undefined] (what [splice(..)[0]] yields on an empty array, and what a
    read outside a column yields). *)
Inductive CellValue : Type :=
  | Num (n : Z)
  | FREE
  | Undefined.

Global Instance CellValue_eq_dec : EqDecision CellValue.
Proof. solve_decision. Defined.

(** [card[col][row]]: a list of columns. *)
Definition Card : Type := list (list CellValue).

Record Player : Type := mkPlayer {
  id : string;
  name : string;
  card : Card;
  markedCells : list Z;
}.

Inductive GameState : Type := waiting | playing | finished.

Global Instance GameState_eq_dec : EqDecision GameState.
Proof. solve_decision. Defined.

Record BingoGame : Type := mkGame {
  roomId : string;
  players : list (string * Player);
  calledNumbers : list Z;
  currentNumber : option Z;
  gameState : GameState;
  winner : option string;
  callInterval : option nat;
}.

Definition with_markedCells (p : Player) (m : list Z) : Player :=
  {| id := id p; name := name p; card := card p; markedCells := m |}.

Definition with_players (g : BingoGame) (ps : list (string * Player)) : BingoGame :=
  {| roomId := roomId g; players := ps; calledNumbers := calledNumbers g;
     currentNumber := currentNumber g; gameState := gameState g;
     winner := winner g; callInterval := callInterval g |}.

(** [new BingoGame(roomId)] *)
Definition newBingoGame (roomId : string) : BingoGame :=
  {| roomId := roomId; players := []; calledNumbers := [];
     currentNumber := None; gameState := waiting; winner := None;
     callInterval := None |}.

(** ** Win detection: [BingoGame.checkWin] *)

Definition freeIndex : Z := 2 * 5 + 2.

(** One counting loop of [checkWin]: [count] the marked cells among
    [index 0 .. index 4] and compare with 5. *)
Definition lineComplete (index : Z → Z) (markedCells : list Z) : bool :=
  let count :=
    foldl (λ (count : nat) i,
             if JsSet.has (index i) markedCells then S count else count)
          0%nat (seqZ 0 5) in
  bool_decide (count = 5%nat).

(** Lines 126-162 of [checkWin]: rows, then columns, then the two
    diagonals, returning at the first complete line. *)
Definition hasLine (markedCells : list Z) : bool :=
  if existsb (λ row, lineComplete (λ col, row * 5 + col) markedCells) (seqZ 0 5)
  then true
  else if existsb (λ col, lineComplete (λ row, row * 5 + col) markedCells) (seqZ 0 5)
  then true
  else if lineComplete (λ i, i * 5 + i) markedCells then true
  else if lineComplete (λ i, i * 5 + (4 - i)) markedCells then true
  else false.

(** [checkWin(socketId)].  [markedCells.add(freeIndex)] mutates the set
    held by the player object stored in [players]; the updated game is
    returned next to the boolean. *)
Definition checkWin (socketId : string) (g : BingoGame) : bool * BingoGame :=
  match JsMap.get socketId (players g) with
  | None => (false, g)
  | Some player =>
      let markedCells := JsSet.add freeIndex (markedCells player) in
      (hasLine markedCells,
       with_players g
         (JsMap.set socketId (with_markedCells player markedCells) (players g)))
  end.

(** ** The JavaScript runtime: [Math.random] and interval timers *)

(** [Math.random()] yields a double in [[0, 1)], a multiple of [2^-53]; the
    [k]-th call of a run returns [mathRandom k mod 2^53] over [2^53], for an
    arbitrary sequence [mathRandom].  [setInterval] hands out fresh handles
    and [activeTimers] holds those that [clearInterval] has not cancelled. *)
Record Runtime : Type := mkRuntime {
  mathRandom : nat → N;
  randomCalls : nat;
  nextTimer : nat;
  activeTimers : gset nat;
}.

Definition randomDenominator : N := 2 ^ 53.

(** [Math.floor(Math.random() * n)] *)
Definition randomBelow (n : nat) (rt : Runtime) : nat * Runtime :=
  let r := (mathRandom rt (randomCalls rt) `mod` randomDenominator)%N in
  (N.to_nat ((r * N.of_nat n) `div` randomDenominator)%N,
   {| mathRandom := mathRandom rt; randomCalls := S (randomCalls rt);
      nextTimer := nextTimer rt; activeTimers := activeTimers rt |}).

(** [setInterval(callback, ms)] *)
Definition setInterval (rt : Runtime) : nat * Runtime :=
  (nextTimer rt,
   {| mathRandom := mathRandom rt; randomCalls := randomCalls rt;
      nextTimer := S (nextTimer rt);
      activeTimers := {[nextTimer rt]} ∪ activeTimers rt |}).

(** [clearInterval(handle)] *)
Definition clearInterval (handle : nat) (rt : Runtime) : Runtime :=
  {| mathRandom := mathRandom rt; randomCalls := randomCalls rt;
     nextTimer := nextTimer rt;
     activeTimers := activeTimers rt ∖ {[handle]} |}.

(** ** Card generation: [BingoGame.generateBingoCard] *)

Definition ranges : list (Z * Z) :=
  [(1, 15); (16, 30); (31, 45); (46, 60); (61, 75)].

(** [available.splice(randomIndex, 1)[0]], with the array that is left. *)
Definition splice1 (randomIndex : nat) (available : list Z) : CellValue * list Z :=
  (match available !! randomIndex with Some n => Num n | None => Undefined end,
   delete randomIndex available).

(** The inner loop over [row], for the rows still to be filled. *)
Fixpoint fillColumn (col : nat) (rows : list nat) (numbers : list CellValue)
    (available : list Z) (rt : Runtime) : list CellValue * Runtime :=
  match rows with
  | [] => (numbers, rt)
  | row :: rows =>
      if bool_decide (col = 2%nat) && bool_decide (row = 2%nat) then
        fillColumn col rows (numbers ++ [FREE]) available rt
      else
        let '(randomIndex, rt) := randomBelow (length available) rt in
        let '(picked, available) := splice1 randomIndex available in
        fillColumn col rows (numbers ++ [picked]) available rt
  end.

(** The outer loop over [col].  [ranges[col]] is read for [col < 5] only,
    so the default of the lookup is never used. *)
Fixpoint fillCard (cols : list nat) (card : Card) (rt : Runtime) : Card * Runtime :=
  match cols with
  | [] => (card, rt)
  | col :: cols =>
      let '(min, max) := default (0, 0) (ranges !! col) in
      let available := seqZ min (max - min + 1) in
      let '(numbers, rt) := fillColumn col (seq 0 5) [] available rt in
      fillCard cols (card ++ [numbers]) rt
  end.

Definition generateBingoCard (rt : Runtime) : Card * Runtime :=
  fillCard (seq 0 5) [] rt.

Global Arguments generateBingoCard : simpl never.

(** ** The remaining methods of [BingoGame] *)

Definition addPlayer (socketId playerName : string) (g : BingoGame)
    (rt : Runtime) : BingoGame * Runtime :=
  let '(card, rt) := generateBingoCard rt in
  (with_players g
     (JsMap.set socketId
        {| id := socketId; name := playerName; card := card; markedCells := [] |}
        (players g)),
   rt).

(** [stopGame()].  The handle that Node's [setInterval] returns is an
    object, hence truthy whenever it is there. *)
Definition stopGame (g : BingoGame) (rt : Runtime) : BingoGame * Runtime :=
  match callInterval g with
  | Some handle =>
      ({| roomId := roomId g; players := players g;
          calledNumbers := calledNumbers g; currentNumber := currentNumber g;
          gameState := gameState g; winner := winner g; callInterval := None |},
       clearInterval handle rt)
  | None => (g, rt)
  end.

Definition removePlayer (socketId : string) (g : BingoGame) (rt : Runtime)
    : BingoGame * Runtime :=
  let g := with_players g (JsMap.delete socketId (players g)) in
  if bool_decide (JsMap.size (players g) = 0%nat) then stopGame g rt else (g, rt).

(** [callNumber()]; the result is [None] for [null].  In the second branch
    [availableNumbers] is not empty and [randomIndex] is below its length
    (lemma [randomBelow_lt]), so the default of the read is never used. *)
Definition callNumber (g : BingoGame) (rt : Runtime)
    : option Z * BingoGame * Runtime :=
  let availableNumbers := filter (λ num, num ∉ calledNumbers g) (seqZ 1 75) in
  if bool_decide (length availableNumbers = 0%nat) then
    let '(g, rt) := stopGame g rt in (None, g, rt)
  else
    let '(randomIndex, rt) := randomBelow (length availableNumbers) rt in
    let number := default 0 (availableNumbers !! randomIndex) in
    (Some number,
     {| roomId := roomId g; players := players g;
        calledNumbers := calledNumbers g ++ [number];
        currentNumber := Some number;
        gameState := gameState g; winner := winner g;
        callInterval := callInterval g |},
     rt).

Definition startGame (g : BingoGame) (rt : Runtime) : BingoGame * Runtime :=
  if bool_decide (gameState g ≠ waiting) then (g, rt)
  else
    let '(handle, rt) := setInterval rt in
    let g :=
      {| roomId := roomId g; players := players g; calledNumbers := [];
         currentNumber := currentNumber g; gameState := playing;
         winner := None; callInterval := Some handle |} in
    let '(_, g, rt) := callNumber g rt in
    (g, rt).

(** The object returned by [getState()]. *)
Record StateView : Type := mkStateView {
  view_roomId : string;
  view_playerCount : nat;
  view_calledNumbers : list Z;
  view_currentNumber : option Z;
  view_gameState : GameState;
  view_winner : option string;
}.

Definition getState (g : BingoGame) : StateView :=
  {| view_roomId := roomId g;
     view_playerCount := JsMap.size (players g);
     view_calledNumbers := calledNumbers g;
     view_currentNumber := currentNumber g;
     view_gameState := gameState g;
     view_winner := winner g |}.

(** ** The server: the registry [games], the sockets and the handlers *)

(** What the handlers send.  [socket.emit] reaches one connection; [io.to(x)]
    reaches the Socket.IO room named [x] ([newGame] addresses each player
    through the room named by the player's socket id). *)
Inductive Message : Type :=
  | gameJoined (card : Card) (playerName : string) (state : StateView)
  | playerJoined (playerName : string) (playerCount : nat)
  | gameStarted (state : StateView)
  | cellMarked (row col : Z)
  | gameWon (winner : string) (winningCard : Card) (markedCells : list Z)
  | invalidBingo (message : string)
  | gameReset (card : Card) (state : StateView)
  | playerLeft (playerName : string) (playerCount : nat)
  | numberCalled (number : Z) (calledNumbers : list Z).

Inductive Effect : Type :=
  | SocketEmit (socketId : string) (m : Message)
  | RoomEmit (room : string) (m : Message)
  | SocketJoin (socketId : string) (room : string).

(** [games] is the module-level [Map]; [socketRoom] holds the [roomId]
    property of each socket object (absent while it is [undefined]).
    Console output is not modelled. *)
Record World : Type := mkWorld {
  games : list (string * BingoGame);
  socketRoom : gmap string string;
  runtime : Runtime;
}.

Inductive JsError : Type := TypeError.

(** A handler either returns, leaving a world and the messages it sent, or
    dies on an exception that nothing catches. *)
Inductive Outcome : Type :=
  | Done (w : World) (out : list Effect)
  | Uncaught (e : JsError).

Definition with_games (w : World) (gs : list (string * BingoGame)) (rt : Runtime) : World :=
  {| games := gs; socketRoom := socketRoom w; runtime := rt |}.

(** The opening lines shared by every handler but [joinGame]:
    [const roomId = socket.roomId; if (!roomId) return;
     const game = games.get(roomId); if (!game) return;]
    The empty string is falsy, like [undefined]. *)
Definition socketGame (socketId : string) (w : World) : option (string * BingoGame) :=
  match socketRoom w !! socketId with
  | None => None
  | Some roomId =>
      if bool_decide (roomId = "") then None
      else match JsMap.get roomId (games w) with
           | None => None
           | Some game => Some (roomId, game)
           end
  end.

(** [socket.on('joinGame', ({ roomId, playerName }) => ...)].  A room that
    does not exist is created and stored first; the game object is then
    mutated where it stands in [games].  An empty [playerName] is falsy. *)
Definition on_joinGame (socketId roomId playerName : string) (w : World) : Outcome :=
  let games0 :=
    if JsMap.has roomId (games w) then games w
    else JsMap.set roomId (newBingoGame roomId) (games w) in
  match JsMap.get roomId games0 with
  | None => Uncaught TypeError
  | Some game =>
      let playerName :=
        if bool_decide (playerName = "") then
          "Player " +:+ pretty (JsMap.size (players game) + 1)%nat
        else playerName in
      let '(game, rt) := addPlayer socketId playerName game (runtime w) in
      match JsMap.get socketId (players game) with
      | None => Uncaught TypeError
      | Some player =>
          Done {| games := JsMap.set roomId game games0;
                  socketRoom := <[socketId := roomId]> (socketRoom w);
                  runtime := rt |}
               [ SocketJoin socketId roomId;
                 SocketEmit socketId
                   (gameJoined (card player) (name player) (getState game));
                 RoomEmit roomId
                   (playerJoined (name player) (JsMap.size (players game))) ]
      end
  end.

(** [socket.on('startGame', ...)] *)
Definition on_startGame (socketId : string) (w : World) : Outcome :=
  match socketGame socketId w with
  | None => Done w []
  | Some (room, game) =>
      let '(game, rt) := startGame game (runtime w) in
      Done (with_games w (JsMap.set room game (games w)) rt)
           [ RoomEmit room (gameStarted (getState game)) ]
  end.

(** [calledNumbers.includes(cellValue)]: the array holds numbers only. *)
Definition includes (cellValue : CellValue) (calledNumbers : list Z) : bool :=
  match cellValue with
  | Num n => bool_decide (n ∈ calledNumbers)
  | _ => false
  end.

(** [socket.on('markCell', ({ row, col }) => ...)], for numbers [row] and
    [col].  [player.card[col]] is [undefined] when [col] is not the index
    of a column, and reading [[row]] of [undefined] throws. *)
Definition on_markCell (socketId : string) (row col : Z) (w : World) : Outcome :=
  match socketGame socketId w with
  | None => Done w []
  | Some (room, game) =>
      match JsMap.get socketId (players game) with
      | None => Done w []
      | Some player =>
          let index := row * 5 + col in
          match at_index (card player) col with
          | None => Uncaught TypeError
          | Some column =>
              let cellValue := default Undefined (at_index column row) in
              if bool_decide (cellValue = FREE) || includes cellValue (calledNumbers game)
              then
                let player :=
                  with_markedCells player (JsSet.add index (markedCells player)) in
                let game :=
                  with_players game (JsMap.set socketId player (players game)) in
                Done (with_games w (JsMap.set room game (games w)) (runtime w))
                     [ SocketEmit socketId (cellMarked row col) ]
              else Done w []
          end
      end
  end.

(** [socket.on('claimBingo', ...)].  The variable [player] and the entry of
    [game.players] are one object: after [checkWin] has added the free index
    to its set, [player.markedCells] is the enlarged set, so [player] is read
    again from the game that [checkWin] returns. *)
Definition on_claimBingo (socketId : string) (w : World) : Outcome :=
  match socketGame socketId w with
  | None => Done w []
  | Some (room, game) =>
      if bool_decide (gameState game ≠ playing) then Done w []
      else
        match JsMap.get socketId (players game) with
        | None => Done w []
        | Some _ =>
            let '(isWinner, game) := checkWin socketId game in
            match JsMap.get socketId (players game) with
            | None => Uncaught TypeError
            | Some player =>
                if isWinner then
                  let game :=
                    {| roomId := roomId game; players := players game;
                       calledNumbers := calledNumbers game;
                       currentNumber := currentNumber game;
                       gameState := finished; winner := Some (name player);
                       callInterval := callInterval game |} in
                  let '(game, rt) := stopGame game (runtime w) in
                  Done (with_games w (JsMap.set room game (games w)) rt)
                       [ RoomEmit room
                           (gameWon (name player) (card player) (markedCells player)) ]
                else
                  Done (with_games w (JsMap.set room game (games w)) (runtime w))
                       [ SocketEmit socketId (invalidBingo "Not a valid Bingo!") ]
            end
        end
  end.

(** The first [forEach] of [newGame]: a new card and an empty set for each
    player, in the order of the [Map]. *)
Fixpoint regenerate (ps : list (string * Player)) (rt : Runtime)
    : list (string * Player) * Runtime :=
  match ps with
  | [] => ([], rt)
  | (socketId, player) :: ps =>
      let '(card, rt) := generateBingoCard rt in
      let player :=
        {| id := id player; name := name player; card := card; markedCells := [] |} in
      let '(ps, rt) := regenerate ps rt in
      ((socketId, player) :: ps, rt)
  end.

(** [socket.on('newGame', ...)] *)
Definition on_newGame (socketId : string) (w : World) : Outcome :=
  match socketGame socketId w with
  | None => Done w []
  | Some (room, game) =>
      let '(game, rt) := stopGame game (runtime w) in
      let '(ps, rt) := regenerate (players game) rt in
      let game :=
        {| roomId := roomId game; players := ps; calledNumbers := [];
           currentNumber := None; gameState := waiting; winner := None;
           callInterval := callInterval game |} in
      Done (with_games w (JsMap.set room game (games w)) rt)
           (map (λ '(socketId, player),
                   RoomEmit socketId (gameReset (card player) (getState game)))
                (players game))
  end.

(** [socket.on('disconnect', ...)] *)
Definition on_disconnect (socketId : string) (w : World) : Outcome :=
  match socketGame socketId w with
  | None => Done w []
  | Some (room, game) =>
      let playerName :=
        match JsMap.get socketId (players game) with
        | Some player => name player
        | None => "Unknown"
        end in
      let '(game, rt) := removePlayer socketId game (runtime w) in
      if bool_decide (JsMap.size (players game) = 0%nat) then
        Done (with_games w (JsMap.delete room (games w)) rt) []
      else
        Done (with_games w (JsMap.set room game (games w)) rt)
             [ RoomEmit room (playerLeft playerName (JsMap.size (players game))) ]
  end.

(** The callback of the interval that [startGame] created for the game of
    room [roomId]: it runs [callNumber] as long as the handle kept in
    [callInterval] has not been cleared. *)
Definition on_drawTick (roomId : string) (w : World) : Outcome :=
  match JsMap.get roomId (games w) with
  | None => Done w []
  | Some game =>
      match callInterval game with
      | None => Done w []
      | Some handle =>
          if bool_decide (handle ∈ activeTimers (runtime w)) then
            let '(_, game, rt) := callNumber game (runtime w) in
            Done (with_games w (JsMap.set roomId game (games w)) rt) []
          else Done w []
      end
  end.

(** The 100 ms loop at the end of the file. *)
Definition on_broadcast (w : World) : Outcome :=
  Done w
    (omap (λ '(_, game),
             match currentNumber game with
             | Some number =>
                 if bool_decide (gameState game = playing) && bool_decide (number ≠ 0)
                 then Some (RoomEmit (roomId game)
                              (numberCalled number (calledNumbers game)))
                 else None
             | None => None
             end)
          (games w)).

Inductive Event : Type :=
  | JoinGame (socketId roomId playerName : string)
  | StartGame (socketId : string)
  | MarkCell (socketId : string) (row col : Z)
  | ClaimBingo (socketId : string)
  | NewGame (socketId : string)
  | Disconnect (socketId : string)
  | DrawTick (roomId : string)
  | Broadcast.

Definition handle (ev : Event) (w : World) : Outcome :=
  match ev with
  | JoinGame socketId roomId playerName => on_joinGame socketId roomId playerName w
  | StartGame socketId => on_startGame socketId w
  | MarkCell socketId row col => on_markCell socketId row col w
  | ClaimBingo socketId => on_claimBingo socketId w
  | NewGame socketId => on_newGame socketId w
  | Disconnect socketId => on_disconnect socketId w
  | DrawTick roomId => on_drawTick roomId w
  | Broadcast => on_broadcast w
  end.

(** The server right after start-up. *)
Definition initialWorld (random : nat → N) : World :=
  {| games := []; socketRoom := ∅;
     runtime := {| mathRandom := random; randomCalls := 0; nextTimer := 0;
                   activeTimers := ∅ |} |}.

(** The worlds the server can be in: those reached from start-up through
    events whose handler returns. *)
Inductive reachable (random : nat → N) : World → Prop :=
  | reachable_init : reachable random (initialWorld random)
  | reachable_step w ev w' out :
      reachable random w → handle ev w = Done w' out → reachable random w'.

(** Running a list of events, stopping at the first uncaught exception. *)
Fixpoint run (evs : list Event) (w : World) : Outcome :=
  match evs with
  | [] => Done w []
  | ev :: evs =>
      match handle ev w with
      | Done w' out =>
          match run evs w' with
          | Done w'' out' => Done w'' (out ++ out')
          | Uncaught e => Uncaught e
          end
      | Uncaught e => Uncaught e
      end
  end.

(** ** Vocabulary of the properties *)

(** The cell indices ([row * 5 + col]) of the twelve lines of a card. *)
Definition row_cells (row : Z) : list Z := (λ col, row * 5 + col) <$> seqZ 0 5.
Definition col_cells (col : Z) : list Z := (λ row, row * 5 + col) <$> seqZ 0 5.
Definition diag_cells : list Z := (λ i, i * 5 + i) <$> seqZ 0 5.
Definition antidiag_cells : list Z := (λ i, i * 5 + (4 - i)) <$> seqZ 0 5.

Definition all_lines : list (list Z) :=
  (row_cells <$> seqZ 0 5) ++ (col_cells <$> seqZ 0 5) ++ [diag_cells; antidiag_cells].

(** The marked set [m] consists of the cells of line [L] except [missing]. *)
Definition all_but (m L : list Z) (missing : Z) : Prop :=
  missing ∈ L ∧ ∀ c, c ∈ m ↔ c ∈ L ∧ c ≠ missing.

(** A game with one player, for the examples. *)
Definition sampleCard : Card :=
  [ [Num 1; Num 2; Num 3; Num 4; Num 5];
    [Num 16; Num 17; Num 18; Num 19; Num 20];
    [Num 31; Num 32; FREE; Num 33; Num 34];
    [Num 46; Num 47; Num 48; Num 49; Num 50];
    [Num 61; Num 62; Num 63; Num 64; Num 65] ].

Definition samplePlayer (m : list Z) : Player :=
  {| id := "s1"; name := "Ann"; card := sampleCard; markedCells := m |}.

Definition sampleGame (m : list Z) (called : list Z) : BingoGame :=
  {| roomId := "r"; players := [("s1", samplePlayer m)];
     calledNumbers := called; currentNumber := last called;
     gameState := playing; winner := None; callInterval := Some 0%nat |}.

(** [card[col][row]] for numbers [col] and [row]. *)
Definition cell_at (card : Card) (col row : Z) : option CellValue :=
  match at_index card col with
  | Some column => at_index column row
  | None => None
  end.

(** Five columns of five cells. *)
Definition card_shape (card : Card) : Prop :=
  length card = 5%nat ∧ Forall (λ column, length column = 5%nat) card.

(** The validity of a card: its shape; the free cell at column 2, row 2 and
    nowhere else; every other cell a number of its column's range (column
    [col] holds [15 * col + 1 .. 15 * col + 15], that is 1-15, 16-30, 31-45,
    46-60 and 61-75); no number at two places. *)
Definition valid_card (card : Card) : Prop :=
  card_shape card ∧
  cell_at card 2 2 = Some FREE ∧
  (∀ col row v, cell_at card col row = Some v →
     (v = FREE ∧ col = 2 ∧ row = 2) ∨
     (∃ n, v = Num n ∧ 15 * col + 1 ≤ n ≤ 15 * col + 15)) ∧
  (∀ col row col' row' n,
     cell_at card col row = Some (Num n) →
     cell_at card col' row' = Some (Num n) →
     col = col' ∧ row = row').

(** The number in a cell, if it holds one. *)
Definition cell_num (v : CellValue) : option Z :=
  match v with Num n => Some n | _ => None end.

(** What the generator puts at row [row] of column [col]. *)
Definition cell_ok (col row : nat) (v : CellValue) : Prop :=
  if decide (col = 2 ∧ row = 2)%nat then v = FREE else is_Some (cell_num v).

(** A generated column: the right kind of cell in each row, and its numbers
    taken without repetition from the column's range. *)
Definition column_ok (col : nat) (column : list CellValue) : Prop :=
  Forall2 (cell_ok col) (seq 0 5) column ∧
  ∃ rest, omap cell_num column ++ rest ≡ₚ seqZ (15 * Z.of_nat col + 1) 15.

(** [n] calls of [callNumber] in a row, with what each returned. *)
Fixpoint draws (n : nat) (g : BingoGame) (rt : Runtime)
    : list (option Z) * BingoGame * Runtime :=
  match n with
  | O => ([], g, rt)
  | S n =>
      let '(number, g, rt) := callNumber g rt in
      let '(numbers, g, rt) := draws n g rt in
      (number :: numbers, g, rt)
  end.

(** A draw history: numbers of 1..75, none twice. *)
Definition history_ok (calledNumbers : list Z) : Prop :=
  NoDup calledNumbers ∧ ∀ n, n ∈ calledNumbers → 1 ≤ n ≤ 75.

(** Every number of 1..75 has been called. *)
Definition exhausted (calledNumbers : list Z) : Prop :=
  ∀ n, 1 ≤ n ≤ 75 → n ∈ calledNumbers.

(** A cell may be marked: it is the free one, or its number was called. *)
Definition eligible (cellValue : CellValue) (calledNumbers : list Z) : Prop :=
  cellValue = FREE ∨ ∃ n, cellValue = Num n ∧ n ∈ calledNumbers.

(** A server with the sample game as its only room, joined by ["s1"]. *)
Definition sampleWorld (m : list Z) (called : list Z) : World :=
  {| games := [("r", sampleGame m called)];
     socketRoom := {["s1" := "r"]};
     runtime := {| mathRandom := λ _, 0%N; randomCalls := 0; nextTimer := 1;
                   activeTimers := {[0%nat]} |} |}.

(** The world a handler leaves, if it returns. *)
Definition outcome_world (o : Outcome) : option World :=
  match o with Done w _ => Some w | Uncaught _ => None end.

(** The name [joinGame] gives a player: the one asked for or, when that is
    empty, ["Player N"] with [N] one more than the room's player count. *)
Definition joinedName (playerName : string) (game : BingoGame) : string :=
  if bool_decide (playerName = "") then
    "Player " +:+ pretty (JsMap.size (players game) + 1)%nat
  else playerName.

(** The relation between the timer handle and the state that the server
    maintains: a handle is kept only while playing, and a playing room
    without a handle has called every number. *)
Definition timer_inv (g : BingoGame) : Prop :=
  (is_Some (callInterval g) → gameState g = playing) ∧
  (gameState g = playing → callInterval g = None → exhausted (calledNumbers g)).

Definition players_inv (ps : list (string * Player)) : Prop :=
  ∀ socketId player, (socketId, player) ∈ ps → valid_card (card player).

Definition game_inv (g : BingoGame) : Prop :=
  timer_inv g ∧ history_ok (calledNumbers g) ∧ players_inv (players g).

Definition world_inv (w : World) : Prop :=
  ∀ room game, (room, game) ∈ games w → game_inv game.

(** A player joins, the game starts, and the timer fires 75 times. *)
Definition exhaustingRun : list Event :=
  [JoinGame "s1" "r" "Ann"; StartGame "s1"] ++ replicate 75 (DrawTick "r").

(** The room [room] is over: finished, with its winner [winnerName], and
    [claimant] is still one of its players. *)
Definition room_won (room claimant winnerName : string) (w : World) : Prop :=
  ∃ game,
    JsMap.get room (games w) = Some game ∧
    gameState game = finished ∧
    winner game = Some winnerName ∧
    is_Some (JsMap.get claimant (players game)).

(** Events that end a finished game or may remove its room: a reset, and
    the departure of [claimant]. *)
Definition keeps_result (claimant : string) (ev : Event) : Prop :=
  match ev with
  | NewGame _ => False
  | Disconnect socketId => socketId ≠ claimant
  | _ => True
  end.

(** ** The transitions of a room, and what the server keeps true *)

(** The assignments of [claimBingo] on a win, before [stopGame]. *)
Definition finishGame (g : BingoGame) (winnerName : string) : BingoGame :=
  {| roomId := roomId g; players := players g;
     calledNumbers := calledNumbers g; currentNumber := currentNumber g;
     gameState := finished; winner := Some winnerName;
     callInterval := callInterval g |}.

(** The body of [newGame] on the game it found. *)
Definition resetGame (g : BingoGame) (rt : Runtime) : BingoGame * Runtime :=
  let '(g, rt) := stopGame g rt in
  let '(ps, rt) := regenerate (players g) rt in
  ({| roomId := roomId g; players := ps; calledNumbers := [];
      currentNumber := None; gameState := waiting; winner := None;
      callInterval := callInterval g |}, rt).

(** The ways a handler replaces the game stored for [room]: [old] is the
    entry of [games] before (absent when a join creates the room), and the
    step yields the game stored afterwards and the runtime. *)
Inductive game_step (room : string) (rt : Runtime) (old : option BingoGame)
    : BingoGame → Runtime → Prop :=
  | step_join socketId playerName :
      game_step room rt old
        (addPlayer socketId playerName (default (newBingoGame room) old) rt).1
        (addPlayer socketId playerName (default (newBingoGame room) old) rt).2
  | step_start game :
      old = Some game →
      game_step room rt old (startGame game rt).1 (startGame game rt).2
  | step_mark game socketId player row col column :
      old = Some game →
      JsMap.get socketId (players game) = Some player →
      at_index (card player) col = Some column →
      eligible (default Undefined (at_index column row)) (calledNumbers game) →
      game_step room rt old
        (with_players game
           (JsMap.set socketId
              (with_markedCells player
                 (JsSet.add (row * 5 + col) (markedCells player)))
              (players game)))
        rt
  | step_rejected game socketId player :
      old = Some game →
      gameState game = playing →
      JsMap.get socketId (players game) = Some player →
      (checkWin socketId game).1 = false →
      game_step room rt old (checkWin socketId game).2 rt
  | step_won game socketId player :
      old = Some game →
      gameState game = playing →
      JsMap.get socketId (players game) = Some player →
      (checkWin socketId game).1 = true →
      game_step room rt old
        (stopGame (finishGame (checkWin socketId game).2 (name player)) rt).1
        (stopGame (finishGame (checkWin socketId game).2 (name player)) rt).2
  | step_reset game :
      old = Some game →
      game_step room rt old (resetGame game rt).1 (resetGame game rt).2
  | step_leave game socketId :
      old = Some game →
      JsMap.delete socketId (players game) ≠ [] →
      game_step room rt old
        (with_players game (JsMap.delete socketId (players game))) rt
  | step_tick game handle :
      old = Some game →
      callInterval game = Some handle →
      handle ∈ activeTimers rt →
      game_step room rt old (callNumber game rt).1.2 (callNumber game rt).2.

(** What a handler that returns does to the server: nothing, a step of one
    room, or the removal of a room whose last player left. *)
Inductive world_step (w : World) : World → Prop :=
  | world_same : world_step w w
  | world_room room game' rt' sockets' :
      game_step room (runtime w) (JsMap.get room (games w)) game' rt' →
      world_step w
        {| games := JsMap.set room game' (games w);
           socketRoom := sockets'; runtime := rt' |}
  | world_teardown room game socketId :
      JsMap.get room (games w) = Some game →
      JsMap.delete socketId (players game) = [] →
      world_step w
        (with_games w (JsMap.delete room (games w))
           (stopGame game (runtime w)).2).

(** The registry: a room is stored under its own id, has at least one
    player, and holds each player once, under the player's id. *)
Definition room_ok (room : string) (g : BingoGame) : Prop :=
  roomId g = room ∧
  players g ≠ [] ∧
  NoDup (JsMap.keys (players g)) ∧
  ∀ socketId player, (socketId, player) ∈ players g → id player = socketId.

Definition registry_inv (w : World) : Prop :=
  NoDup (JsMap.keys (games w)) ∧
  ∀ room g, JsMap.get room (games w) = Some g → room_ok room g.

(** A marked index is the index of a cell of the card, and that cell is
    the free one or holds a called number. *)
Definition mark_ok (card : Card) (calledNumbers : list Z) (i : Z) : Prop :=
  0 ≤ i < 25 ∧
  ∃ v, cell_at card (i `mod` 5) (i `div` 5) = Some v ∧ eligible v calledNumbers.

(** History and marks of a room: nothing is called while waiting, the
    current number is the last one called, a game that has started has
    called a number, and every mark is justified. *)
Definition play_inv (g : BingoGame) : Prop :=
  (gameState g = waiting → calledNumbers g = []) ∧
  currentNumber g = last (calledNumbers g) ∧
  (gameState g ≠ waiting → calledNumbers g ≠ []) ∧
  ∀ socketId player, (socketId, player) ∈ players g →
    ∀ i, i ∈ markedCells player → mark_ok (card player) (calledNumbers g) i.

(** Timers: the handle a room keeps is a live timer, every live timer is
    the handle of a room of the registry, no two rooms share one, and
    handles are older than the next one to be handed out. *)
Definition timers_inv (w : World) : Prop :=
  (∀ room g handle,
     JsMap.get room (games w) = Some g → callInterval g = Some handle →
     handle ∈ activeTimers (runtime w)) ∧
  (∀ handle,
     handle ∈ activeTimers (runtime w) →
     ∃ room g, JsMap.get room (games w) = Some g ∧ callInterval g = Some handle) ∧
  (∀ room1 room2 g1 g2 handle,
     JsMap.get room1 (games w) = Some g1 → JsMap.get room2 (games w) = Some g2 →
     callInterval g1 = Some handle → callInterval g2 = Some handle →
     room1 = room2) ∧
  (∀ handle, handle ∈ activeTimers (runtime w) → (handle < nextTimer (runtime w))%nat).

Definition server_inv (w : World) : Prop :=
  world_inv w ∧ registry_inv w ∧
  (∀ room g, JsMap.get room (games w) = Some g → play_inv g) ∧
  timers_inv w.

(** How a step of a room changes the timers: not at all, by one new timer
    that the room now holds, or by clearing the one it held. *)
Inductive timer_change (rt : Runtime) (old : option nat)
    : option nat → Runtime → Prop :=
  | timers_kept rt' :
      activeTimers rt' = activeTimers rt → nextTimer rt' = nextTimer rt →
      timer_change rt old old rt'
  | timer_set rt' :
      old = None →
      activeTimers rt' = {[nextTimer rt]} ∪ activeTimers rt →
      nextTimer rt' = S (nextTimer rt) →
      timer_change rt old (Some (nextTimer rt)) rt'
  | timer_cleared handle rt' :
      old = Some handle →
      activeTimers rt' = activeTimers rt ∖ {[handle]} →
      nextTimer rt' = nextTimer rt →
      timer_change rt old None rt'.

(** Events sent by socket [socketId], other than a join. *)
Definition sent_by (socketId : string) (ev : Event) : Prop :=
  match ev with
  | StartGame s | MarkCell s _ _ | ClaimBingo s | NewGame s | Disconnect s =>
      s = socketId
  | _ => False
  end.

(** The server after the events [evs] since start-up (the server at
    start-up if a handler threw). *)
Definition worldAfter (evs : list Event) (random : nat → N) : World :=
  default (initialWorld random)
    (outcome_world (run evs (initialWorld random))).

(** The game stored under [room], and the player stored under [socketId],
    for the examples. *)
Definition roomOf (w : World) (room : string) : BingoGame :=
  default (newBingoGame room) (JsMap.get room (games w)).

Definition playerOf (g : BingoGame) (socketId : string) : Player :=
  default (samplePlayer []) (JsMap.get socketId (players g)).

(** Ann joins and starts; five numbers are called and she marks her first
    column. *)
Definition columnRun : list Event :=
  [JoinGame "s1" "r" "Ann"; StartGame "s1"] ++ replicate 4 (DrawTick "r") ++
  [MarkCell "s1" 0 0; MarkCell "s1" 1 0; MarkCell "s1" 2 0;
   MarkCell "s1" 3 0; MarkCell "s1" 4 0].

(** Ann and Bob in a room that Ann started. *)
Definition pairRun : list Event :=
  [JoinGame "s1" "r" "Ann"; JoinGame "s2" "r" ""; StartGame "s1"].

(** The runtime after [k] more calls of [Math.random]. *)
Definition advance (k : nat) (rt : Runtime) : Runtime :=
  {| mathRandom := mathRandom rt; randomCalls := k + randomCalls rt;
     nextTimer := nextTimer rt; activeTimers := activeTimers rt |}.

(** The number of cells of column [col] that are drawn at random. *)
Definition drawn_cells (col : nat) : nat :=
  if bool_decide (col = 2%nat) then 4 else 5.

(** The timer handle that the room stored under [room] keeps, if any. *)
Definition handle_of (w : World) (room : string) : option nat :=
  match JsMap.get room (games w) with
  | Some g => callInterval g
  | None => None
  end.

(** ** Rooms over time *)

(** The event [ev] is addressed to [room]: a join or a tick names the room,
    the other events go to the room of their socket, which the handlers
    take for missing when it is the empty string. *)
Definition addressed (room : string) (w : World) (ev : Event) : Prop :=
  match ev with
  | JoinGame _ r _ | DrawTick r => r = room
  | StartGame s | MarkCell s _ _ | ClaimBingo s | NewGame s | Disconnect s =>
      socketRoom w !! s = Some room ∧ room ≠ ""
  | Broadcast => False
  end.

(** [ev] is a [newGame] sent by a socket of [room]. *)
Definition resets (room : string) (w : World) (ev : Event) : bool :=
  match ev with
  | NewGame socketId => bool_decide (socketRoom w !! socketId = Some room)
  | _ => false
  end.

(** No event of the run [evs] from [w] is a reset of [room]. *)
Fixpoint no_reset (room : string) (evs : list Event) (w : World) : bool :=
  match evs with
  | [] => true
  | ev :: evs =>
      negb (resets room w ev) &&
      match handle ev w with
      | Done w' _ => no_reset room evs w'
      | Uncaught _ => true
      end
  end.

(** The game of [room] is over and [winnerName] has won it. *)
Definition room_over (room winnerName : string) (w : World) : Prop :=
  ∃ game,
    JsMap.get room (games w) = Some game ∧
    gameState game = finished ∧
    winner game = Some winnerName.

(** The disconnect of [socketId] in [w] takes the last player out of
    [room], so that the room is deleted. *)
Definition last_leaves (room socketId : string) (w : World) : Prop :=
  ∃ game,
    socketGame socketId w = Some (room, game) ∧
    JsMap.delete socketId (players game) = [].

(** The room [room] was deleted at some point of the run [evs] from [w]. *)
Definition torn_down (room : string) (evs : list Event) (w : World) : Prop :=
  ∃ evs1 socketId evs2 w1 out1,
    evs = evs1 ++ Disconnect socketId :: evs2 ∧
    run evs1 w = Done w1 out1 ∧
    last_leaves room socketId w1.

(** The server after a claim that [checkWin] turned down: the free index
    is in the claimant's set, everything else is as before. *)
Definition afterFalseClaim (socketId room : string) (game : BingoGame)
    (player : Player) (w : World) : World :=
  with_games w
    (JsMap.set room
       (with_players game
          (JsMap.set socketId
             (with_markedCells player
                (JsSet.add freeIndex (markedCells player)))
             (players game)))
       (games w))
    (runtime w).

(** Ann marks her first column, then Bob joins the running game. *)
Definition winRun : list Event :=
  columnRun ++ [JoinGame "s2" "r" "Bob"].

(** Ann joins and starts; the timer fires 74 times, so that every number
    is out and the timer still runs. *)
Definition lastDrawRun : list Event :=
  [JoinGame "s1" "r" "Ann"; StartGame "s1"] ++ replicate 74 (DrawTick "r").

(** * Properties *)

(** ** The containers *)

Section JsMapFacts.
Context {K V : Type} `{EqDecision K}.
Implicit Types (k : K) (v : V) (m : list (K * V)).

Lemma get_set_eq k v m : JsMap.get k (JsMap.set k v m) = Some v.
Proof.
  induction m as [|[k' v'] m IH]; simpl.
  - by rewrite decide_True.
  - destruct (decide (k = k')) as [->|Hne]; simpl.
    + by rewrite decide_True.
    + by rewrite decide_False.
Qed.

Lemma get_set_ne k k' v m :
  k ≠ k' → JsMap.get k' (JsMap.set k v m) = JsMap.get k' m.
Proof.
  intros Hne. induction m as [|[k0 v0] m IH]; simpl.
  - by rewrite decide_False.
  - destruct (decide (k = k0)) as [->|Hk]; simpl.
    + by rewrite !(decide_False (P := k' = k0)).
    + by rewrite IH.
Qed.

Lemma set_get_id k v m : JsMap.get k m = Some v → JsMap.set k v m = m.
Proof.
  induction m as [|[k' v'] m IH]; simpl; [done|].
  destruct (decide (k = k')) as [->|Hne]; [by intros [= ->]|].
  intros Hget. by rewrite IH.
Qed.

Lemma keys_set_present k v m :
  is_Some (JsMap.get k m) → JsMap.keys (JsMap.set k v m) = JsMap.keys m.
Proof.
  unfold JsMap.keys.
  induction m as [|[k' v'] m IH]; cbn [JsMap.get JsMap.set]; [by intros [? [=]]|].
  destruct (decide (k = k')) as [->|Hne]; [done|].
  intros Hget. rewrite !fmap_cons. f_equal. by apply IH.
Qed.

Lemma size_set_present k v m :
  is_Some (JsMap.get k m) → JsMap.size (JsMap.set k v m) = JsMap.size m.
Proof.
  unfold JsMap.size.
  induction m as [|[k' v'] m IH]; simpl; [done|].
  destruct (decide (k = k')) as [->|Hne]; [done|].
  intros Hget. simpl. by rewrite IH.
Qed.

Lemma size_set_absent k v m :
  JsMap.get k m = None → JsMap.size (JsMap.set k v m) = S (JsMap.size m).
Proof.
  unfold JsMap.size.
  induction m as [|[k' v'] m IH]; simpl; [done|].
  destruct (decide (k = k')) as [->|Hne]; [done|].
  intros Hget. simpl. by rewrite IH.
Qed.

Lemma get_delete_ne k k' m :
  k ≠ k' → JsMap.get k' (JsMap.delete k m) = JsMap.get k' m.
Proof.
  intros Hne. induction m as [|[k0 v0] m IH]; simpl; [done|].
  destruct (decide (k = k0)) as [->|Hk]; simpl.
  - by rewrite decide_False.
  - by rewrite IH.
Qed.

Lemma get_Some_elem k v m : JsMap.get k m = Some v → (k, v) ∈ m.
Proof.
  induction m as [|[k' v'] m IH]; simpl; [done|].
  destruct (decide (k = k')) as [->|Hne].
  - intros [= ->]. left.
  - intros Hget. right. by apply IH.
Qed.
End JsMapFacts.

Lemma JsSet_has_true x s : JsSet.has x s = true ↔ x ∈ s.
Proof. unfold JsSet.has. apply bool_decide_eq_true. Qed.

Lemma JsSet_elem_of_add x y s : x ∈ JsSet.add y s ↔ x = y ∨ x ∈ s.
Proof.
  unfold JsSet.add. destruct (JsSet.has y s) eqn:Hy.
  - apply JsSet_has_true in Hy. split; [by right|]. by intros [->|].
  - rewrite elem_of_app, list_elem_of_singleton. tauto.
Qed.

Lemma JsSet_add_present x s : x ∈ s → JsSet.add x s = s.
Proof.
  intros Hx. unfold JsSet.add.
  by rewrite (proj2 (JsSet_has_true x s) Hx).
Qed.

Lemma JsSet_add_idem x s : JsSet.add x (JsSet.add x s) = JsSet.add x s.
Proof. apply JsSet_add_present, JsSet_elem_of_add. by left. Qed.

(** ** Win detection *)

Lemma lineComplete_forallb index m :
  lineComplete index m = forallb (λ i, JsSet.has (index i) m) (seqZ 0 5).
Proof.
  unfold lineComplete. change (seqZ 0 5) with [0; 1; 2; 3; 4]. simpl.
  by destruct (JsSet.has (index 0) m), (JsSet.has (index 1) m),
    (JsSet.has (index 2) m), (JsSet.has (index 3) m), (JsSet.has (index 4) m).
Qed.

Lemma lineComplete_true index m :
  lineComplete index m = true ↔ ∀ c, c ∈ index <$> seqZ 0 5 → c ∈ m.
Proof.
  rewrite lineComplete_forallb, forallb_forall. split.
  - intros H c (i & -> & Hi)%list_elem_of_fmap.
    apply JsSet_has_true, H. by apply list_elem_of_In.
  - intros H i Hi. apply JsSet_has_true, H, list_elem_of_fmap.
    exists i. split; [done|]. by apply list_elem_of_In.
Qed.

Lemma existsb_lines (line : Z → list Z) (f : Z → bool) (m : list Z) :
  (∀ i, f i = true ↔ ∀ c, c ∈ line i → c ∈ m) →
  existsb f (seqZ 0 5) = true ↔
  ∃ L, L ∈ line <$> seqZ 0 5 ∧ ∀ c, c ∈ L → c ∈ m.
Proof.
  intros Hf. rewrite existsb_exists. split.
  - intros (i & Hi & Hfi). exists (line i). split.
    + apply list_elem_of_fmap. exists i. split; [done|]. by apply list_elem_of_In.
    + by apply Hf.
  - intros (L & (i & -> & Hi)%list_elem_of_fmap & HL).
    exists i. split; [by apply list_elem_of_In|]. by apply Hf.
Qed.

(** [hasLine] holds exactly when the set covers one of the twelve lines. *)
Lemma hasLine_true m :
  hasLine m = true ↔ ∃ L, L ∈ all_lines ∧ ∀ c, c ∈ L → c ∈ m.
Proof.
  unfold hasLine, all_lines.
  pose proof (existsb_lines row_cells
    (λ row, lineComplete (λ col, row * 5 + col) m) m
    (λ i, lineComplete_true _ m)) as Hrows.
  pose proof (existsb_lines col_cells
    (λ col, lineComplete (λ row, row * 5 + col) m) m
    (λ i, lineComplete_true _ m)) as Hcols.
  pose proof (lineComplete_true (λ i, i * 5 + i) m) as Hd.
  pose proof (lineComplete_true (λ i, i * 5 + (4 - i)) m) as Ha.
  fold diag_cells in Hd. fold antidiag_cells in Ha.
  split.
  - intros H.
    destruct (existsb _ _) eqn:E1.
    { destruct (proj1 Hrows eq_refl) as (L & HL & Hm). exists L. split; [|done].
      apply elem_of_app. by left. }
    destruct (existsb _ _) eqn:E2 in H.
    { destruct (proj1 Hcols E2) as (L & HL & Hm). exists L. split; [|done].
      apply elem_of_app. right. apply elem_of_app. by left. }
    destruct (lineComplete (λ i, i * 5 + i) m) eqn:E3.
    { exists diag_cells. split; [|by apply Hd].
      apply elem_of_app. right. apply elem_of_app. right. left. }
    destruct (lineComplete (λ i, i * 5 + (4 - i)) m) eqn:E4; [|done].
    exists antidiag_cells. split; [|by apply Ha].
    apply elem_of_app. right. apply elem_of_app. right. right. left.
  - intros (L & HL & Hm).
    apply elem_of_app in HL as [HL|HL].
    { rewrite (proj2 Hrows); [done|]. by exists L. }
    destruct (existsb _ _); [done|].
    apply elem_of_app in HL as [HL|HL].
    { rewrite (proj2 Hcols); [done|]. by exists L. }
    destruct (existsb _ _); [done|].
    apply elem_of_cons in HL as [->|HL].
    { by rewrite (proj2 Hd). }
    destruct (lineComplete (λ i, i * 5 + i) m); [done|].
    apply list_elem_of_singleton in HL as ->.
    by rewrite (proj2 Ha).
Qed.

Lemma checkWin_result socketId g player :
  JsMap.get socketId (players g) = Some player →
  (checkWin socketId g).1 = hasLine (JsSet.add freeIndex (markedCells player)).
Proof. intros Hp. unfold checkWin. by rewrite Hp. Qed.

Lemma checkWin_unknown socketId g :
  JsMap.get socketId (players g) = None → checkWin socketId g = (false, g).
Proof. intros Hp. unfold checkWin. by rewrite Hp. Qed.

(** A line that is complete once the free cell counts as marked wins. *)
Lemma checkWin_complete socketId g player L :
  JsMap.get socketId (players g) = Some player →
  L ∈ all_lines →
  (∀ c, c ∈ L → c = freeIndex ∨ c ∈ markedCells player) →
  (checkWin socketId g).1 = true.
Proof.
  intros Hp HL Hm. rewrite (checkWin_result _ _ _ Hp).
  apply hasLine_true. exists L. split; [done|].
  intros c Hc. apply JsSet_elem_of_add. by apply Hm.
Qed.

(** No line is complete when every line has a cell, other than the free
    one, that is not marked. *)
Lemma checkWin_incomplete socketId g player :
  JsMap.get socketId (players g) = Some player →
  (∀ L, L ∈ all_lines → ∃ c, c ∈ L ∧ c ≠ freeIndex ∧ c ∉ markedCells player) →
  (checkWin socketId g).1 = false.
Proof.
  intros Hp Hm. rewrite (checkWin_result _ _ _ Hp).
  apply not_true_is_false. intros (L & HL & Hcov)%hasLine_true.
  destruct (Hm L HL) as (c & Hc & Hfree & Hnot).
  apply Hcov, JsSet_elem_of_add in Hc as [?|?]; done.
Qed.

(** Two different lines share at most one cell: taking a cell that is not
    the free one out of a line leaves every line with a cell, not the free
    one, outside what remains. *)
Lemma partial_line_blocks :
  Forall (λ L,
    Forall (λ missing,
      missing = freeIndex ∨
      Forall (λ L', Exists (λ c, c ≠ freeIndex ∧ ¬ (c ∈ L ∧ c ≠ missing)) L')
        all_lines) L) all_lines.
Proof. apply (bool_decide_unpack _). by vm_compute. Qed.

(** C1 (as amended): a player wins with row 0, with column 0, with the main
    diagonal or with the anti-diagonal marked; a marked set made of a line
    less one cell does not win when the cell left out is not the free one,
    and wins when it is the free one. *)
Theorem checkWin_lines socketId g player :
  JsMap.get socketId (players g) = Some player →
  ([0; 1; 2; 3; 4] ⊆ markedCells player → (checkWin socketId g).1 = true) ∧
  ([0; 5; 10; 15; 20] ⊆ markedCells player → (checkWin socketId g).1 = true) ∧
  ([0; 6; 12; 18; 24] ⊆ markedCells player → (checkWin socketId g).1 = true) ∧
  ([4; 8; 12; 16; 20] ⊆ markedCells player → (checkWin socketId g).1 = true) ∧
  (∀ L missing,
     L ∈ all_lines → all_but (markedCells player) L missing →
     (checkWin socketId g).1 = bool_decide (missing = freeIndex)).
Proof.
  intros Hp.
  assert (Hfull : ∀ L, L ∈ all_lines → L ⊆ markedCells player →
                       (checkWin socketId g).1 = true).
  { intros L HL Hsub. apply (checkWin_complete _ _ _ L Hp HL).
    intros c Hc. right. by apply Hsub. }
  split_and!.
  - apply (Hfull (row_cells 0)). by apply (bool_decide_unpack _).
  - apply (Hfull (col_cells 0)). by apply (bool_decide_unpack _).
  - apply (Hfull diag_cells). by apply (bool_decide_unpack _).
  - apply (Hfull antidiag_cells). by apply (bool_decide_unpack _).
  - intros L missing HL [Hmiss Hm]. case_bool_decide as Hfree.
    + subst missing. apply (checkWin_complete _ _ _ L Hp HL).
      intros c Hc. destruct (decide (c = freeIndex)); [by left|].
      right. by apply Hm.
    + apply (checkWin_incomplete _ _ _ Hp). intros L' HL'.
      pose proof partial_line_blocks as Hblocks.
      rewrite Forall_forall in Hblocks. specialize (Hblocks L HL).
      rewrite Forall_forall in Hblocks.
      destruct (Hblocks missing Hmiss) as [?|Hall]; [done|].
      rewrite Forall_forall in Hall. specialize (Hall L' HL').
      apply Exists_exists in Hall as (c & Hc & Hcfree & Hout).
      exists c. split_and!; [done..|].
      intros Hin. by apply Hout, Hm.
Qed.

Lemma checkWin_lines_witness :
  JsMap.get "s1" (players (sampleGame [0; 1; 2; 3; 4] [])) =
    Some (samplePlayer [0; 1; 2; 3; 4]) ∧
  (checkWin "s1" (sampleGame [0; 1; 2; 3; 4] [])).1 = true.
Proof.
  split; [reflexivity|].
  exact (proj1 (checkWin_lines "s1" (sampleGame [0; 1; 2; 3; 4] [])
                  (samplePlayer [0; 1; 2; 3; 4]) eq_refl) (λ c Hc, Hc)).
Defined.

(** C1 as stated fails: row 2 less its free cell is four of the five cells
    of a line, and it wins. *)
Lemma checkWin_partial_line_counterexample :
  ¬ (∀ socketId g player L missing,
       JsMap.get socketId (players g) = Some player →
       L ∈ all_lines → all_but (markedCells player) L missing →
       (checkWin socketId g).1 = false).
Proof.
  intros H.
  specialize (H "s1" (sampleGame [10; 11; 13; 14] [])
                (samplePlayer [10; 11; 13; 14]) (row_cells 2) 12 eq_refl).
  assert (Hfalse : (checkWin "s1" (sampleGame [10; 11; 13; 14] [])).1 = false);
    [|by vm_compute in Hfalse].
  apply H.
  - by apply (bool_decide_unpack _).
  - split; [by apply (bool_decide_unpack _)|].
    intros c. change (row_cells 2) with [10; 11; 12; 13; 14]. simpl.
    rewrite !elem_of_cons, !elem_of_nil. lia.
Qed.

(** C6 (as amended): [checkWin] has one side effect, on the claimant's
    marked set, to which it adds the free index; the claimant's id, name and
    card, the other players, their order and every other field of the game
    are as before.  The step is idempotent: when the free index is already
    in the set the game is unchanged, and a second check changes nothing
    more and returns the same answer. *)
Theorem checkWin_frame socketId g player :
  JsMap.get socketId (players g) = Some player →
  ∃ player',
    JsMap.get socketId (players (checkWin socketId g).2) = Some player' ∧
    id player' = id player ∧ name player' = name player ∧
    card player' = card player ∧
    (∀ c, c ∈ markedCells player' ↔ c = freeIndex ∨ c ∈ markedCells player) ∧
    (∀ other, other ≠ socketId →
       JsMap.get other (players (checkWin socketId g).2) =
       JsMap.get other (players g)) ∧
    JsMap.keys (players (checkWin socketId g).2) = JsMap.keys (players g) ∧
    roomId (checkWin socketId g).2 = roomId g ∧
    calledNumbers (checkWin socketId g).2 = calledNumbers g ∧
    currentNumber (checkWin socketId g).2 = currentNumber g ∧
    gameState (checkWin socketId g).2 = gameState g ∧
    winner (checkWin socketId g).2 = winner g ∧
    callInterval (checkWin socketId g).2 = callInterval g ∧
    (freeIndex ∈ markedCells player → (checkWin socketId g).2 = g) ∧
    checkWin socketId (checkWin socketId g).2 = checkWin socketId g.
Proof.
  intros Hp. unfold checkWin at 1 2 3 4 5 6 7 8 9 10 11. rewrite Hp. simpl.
  eexists. split; [apply get_set_eq|]. simpl. split_and!; try done.
  - intros c. apply JsSet_elem_of_add.
  - intros other Hne. by apply get_set_ne.
  - apply keys_set_present. by rewrite Hp.
  - intros Hfree. rewrite (JsSet_add_present _ _ Hfree).
    destruct g, player; unfold with_players, with_markedCells; simpl in *.
    f_equal. by apply set_get_id.
  - unfold checkWin. rewrite Hp. simpl. rewrite get_set_eq. simpl.
    rewrite JsSet_add_idem. f_equal. unfold with_players; simpl. f_equal.
    rewrite (set_get_id socketId _ (JsMap.set _ _ _)); [done|].
    by rewrite get_set_eq.
Qed.

Lemma checkWin_frame_witness :
  JsMap.get "s1" (players (sampleGame [] [])) = Some (samplePlayer []) ∧
  ∃ player',
    JsMap.get "s1" (players (checkWin "s1" (sampleGame [] [])).2) = Some player' ∧
    (∀ c, c ∈ markedCells player' ↔ c = freeIndex ∨ c ∈ []).
Proof.
  split; [reflexivity|].
  destruct (checkWin_frame "s1" (sampleGame [] []) (samplePlayer []) eq_refl)
    as (player' & Hget & _ & _ & _ & Hmarked & _).
  exists player'. split; [exact Hget | exact Hmarked].
Defined.

(** C6 as stated fails: the check leaves the free index in the marked set
    of a player who had not marked it. *)
Lemma checkWin_pure_counterexample :
  ¬ (∀ socketId g player,
       JsMap.get socketId (players g) = Some player →
       markedCells <$> JsMap.get socketId (players (checkWin socketId g).2) =
       Some (markedCells player)).
Proof.
  intros H.
  specialize (H "s1" (sampleGame [] []) (samplePlayer []) eq_refl).
  by vm_compute in H.
Qed.

(** ** Random indices and card generation *)

Lemma randomBelow_lt n rt : (0 < n)%nat → ((randomBelow n rt).1 < n)%nat.
Proof.
  intros Hn. unfold randomBelow. simpl.
  set (r := (mathRandom rt (randomCalls rt) `mod` randomDenominator)%N).
  assert (Hr : (r < randomDenominator)%N) by (by apply N.mod_lt).
  assert (Hq : ((r * N.of_nat n) `div` randomDenominator < N.of_nat n)%N).
  { apply N.Div0.div_lt_upper_bound.
    rewrite (N.mul_comm r), (N.mul_comm randomDenominator).
    apply N.mul_lt_mono_pos_l; [lia|done]. }
  lia.
Qed.

Lemma randomBelow_runtime n rt :
  mathRandom (randomBelow n rt).2 = mathRandom rt ∧
  nextTimer (randomBelow n rt).2 = nextTimer rt ∧
  activeTimers (randomBelow n rt).2 = activeTimers rt.
Proof. done. Qed.

Lemma fillColumn_spec col rows :
  ∀ numbers available rt,
    (length rows ≤ length available)%nat →
    ∃ tail rest,
      (fillColumn col rows numbers available rt).1 = numbers ++ tail ∧
      Forall2 (cell_ok col) rows tail ∧
      omap cell_num tail ++ rest ≡ₚ available.
Proof.
  induction rows as [|row rows IH]; intros numbers available rt Hlen.
  - exists [], available. simpl. by rewrite app_nil_r.
  - simpl in Hlen. cbn [fillColumn].
    destruct (bool_decide (col = 2%nat) && bool_decide (row = 2%nat)) eqn:Hfree.
    + apply andb_true_iff in Hfree as [Hc%bool_decide_eq_true Hr%bool_decide_eq_true].
      destruct (IH (numbers ++ [FREE]) available rt) as (tail & rest & Heq & Hcells & Hperm);
        [lia|].
      exists (FREE :: tail), rest. split_and!.
      * by rewrite Heq, <-app_assoc.
      * constructor; [|done]. unfold cell_ok. by rewrite decide_True.
      * done.
    + assert (Hnot : ¬ (col = 2 ∧ row = 2)%nat).
      { intros [-> ->]. by rewrite !bool_decide_eq_true_2 in Hfree. }
      pose proof (randomBelow_lt (length available) rt ltac:(lia)) as Hidx.
      destruct (randomBelow (length available) rt) as [randomIndex rt'].
      simpl in Hidx. unfold splice1.
      destruct (lookup_lt_is_Some_2 available randomIndex Hidx) as [n Hn].
      rewrite Hn.
      destruct (IH (numbers ++ [Num n]) (delete randomIndex available) rt')
        as (tail & rest & Heq & Hcells & Hperm).
      { rewrite length_delete by eauto. lia. }
      exists (Num n :: tail), rest. split_and!.
      * by rewrite Heq, <-app_assoc.
      * constructor; [|done]. unfold cell_ok. rewrite decide_False by done.
        by eexists.
      * simpl. rewrite Hperm. symmetry. by apply delete_Permutation.
Qed.

Lemma ranges_lookup col :
  (col < 5)%nat →
  default (0, 0) (ranges !! col) =
    (15 * Z.of_nat col + 1, 15 * Z.of_nat col + 15).
Proof.
  intros Hcol. do 5 (destruct col as [|col]; [done|]). lia.
Qed.

Lemma fillCard_spec cols :
  ∀ card rt,
    Forall (λ col, col < 5)%nat cols →
    ∃ columns,
      (fillCard cols card rt).1 = card ++ columns ∧
      Forall2 column_ok cols columns.
Proof.
  induction cols as [|col cols IH]; intros card rt Hcols.
  - exists []. simpl. by rewrite app_nil_r.
  - apply Forall_cons in Hcols as [Hcol Hcols]. cbn [fillCard].
    rewrite (ranges_lookup col Hcol).
    replace (15 * Z.of_nat col + 15 - (15 * Z.of_nat col + 1) + 1) with 15 by lia.
    destruct (fillColumn_spec col (seq 0 5) [] (seqZ (15 * Z.of_nat col + 1) 15) rt)
      as (tail & rest & Heq & Hcells & Hperm).
    { rewrite length_seqZ, length_seq. lia. }
    destruct (fillColumn col (seq 0 5) [] _ rt) as [numbers rt'].
    simpl in Heq. subst tail.
    destruct (IH (card ++ [numbers]) rt' Hcols) as (columns & Heq & Hok).
    exists (numbers :: columns). split.
    + by rewrite Heq, <-app_assoc.
    + constructor; [|done]. split; [done|]. by exists rest.
Qed.

Lemma generateBingoCard_columns rt :
  Forall2 column_ok (seq 0 5) (generateBingoCard rt).1.
Proof.
  destruct (fillCard_spec (seq 0 5) [] rt) as (columns & Heq & Hok).
  { by apply (bool_decide_unpack _). }
  unfold generateBingoCard. by rewrite Heq.
Qed.

Lemma at_index_Some {A} (a : list A) i x :
  at_index a i = Some x ↔ 0 ≤ i ∧ a !! Z.to_nat i = Some x.
Proof.
  unfold at_index. destruct (decide (0 ≤ i)) as [Hi|Hi].
  - split; [done|]. by intros [_ ?].
  - split; [done|]. by intros [? _].
Qed.

Lemma at_index_None {A} (a : list A) i :
  at_index a i = None ↔ i < 0 ∨ Z.of_nat (length a) ≤ i.
Proof.
  unfold at_index. destruct (decide (0 ≤ i)) as [Hi|Hi].
  - rewrite lookup_ge_None. lia.
  - split; [lia|done].
Qed.

Lemma omap_NoDup_lookup {A B} (f : A → option B) (l : list A) i j x y z :
  NoDup (omap f l) → l !! i = Some x → l !! j = Some y →
  f x = Some z → f y = Some z → i = j.
Proof.
  revert i j. induction l as [|a l IH]; intros i j Hnd Hi Hj Hx Hy; [done|].
  assert (Hin : ∀ k w, l !! k = Some w → f w = Some z → z ∈ omap f l).
  { intros k w Hk Hw. apply list_elem_of_omap. exists w. split; [|done].
    by eapply list_elem_of_lookup_2. }
  assert (Htail : NoDup (omap f l)).
  { simpl in Hnd. destruct (f a); [by apply NoDup_cons in Hnd as [_ ?]|done]. }
  destruct i as [|i], j as [|j]; simpl in *; simplify_eq.
  - done.
  - rewrite Hx in Hnd. apply NoDup_cons in Hnd as [Hnot _].
    destruct Hnot. by eapply Hin.
  - rewrite Hy in Hnd. apply NoDup_cons in Hnd as [Hnot _].
    destruct Hnot. by eapply Hin.
  - f_equal. by eapply IH.
Qed.

(** A cell of a generated card lies in a generated column, at a row and a
    column below 5. *)
Lemma columns_cell (card : Card) col row v :
  Forall2 column_ok (seq 0 5) card →
  cell_at card col row = Some v →
  ∃ column,
    0 ≤ col < 5 ∧ 0 ≤ row < 5 ∧
    card !! Z.to_nat col = Some column ∧ column !! Z.to_nat row = Some v ∧
    column_ok (Z.to_nat col) column ∧ cell_ok (Z.to_nat col) (Z.to_nat row) v.
Proof.
  intros Hcard Hcell. unfold cell_at in Hcell.
  destruct (at_index card col) as [column|] eqn:Hcol; [|done].
  apply at_index_Some in Hcol as [Hcol0 Hcol].
  apply at_index_Some in Hcell as [Hrow0 Hrow].
  destruct (Forall2_lookup_r _ _ _ _ _ Hcard Hcol) as (c & Hc & Hok).
  apply lookup_seq in Hc as [-> Hc5]. simpl in Hok.
  destruct (Forall2_lookup_r _ _ _ _ _ (proj1 Hok) Hrow) as (r & Hr & Hcellok).
  apply lookup_seq in Hr as [-> Hr5]. simpl in Hcellok.
  exists column. split_and!; try done; lia.
Qed.

Lemma column_numbers col (column : list CellValue) row n :
  column_ok col column → column !! row = Some (Num n) →
  NoDup (omap cell_num column) ∧
  15 * Z.of_nat col + 1 ≤ n ≤ 15 * Z.of_nat col + 15.
Proof.
  intros [_ (rest & Hperm)] Hrow.
  assert (Hnd : NoDup (omap cell_num column ++ rest)).
  { rewrite Hperm. apply NoDup_seqZ. }
  split; [by apply NoDup_app in Hnd as [? _]|].
  assert (Hin : n ∈ seqZ (15 * Z.of_nat col + 1) 15).
  { rewrite <-Hperm. apply elem_of_app. left.
    apply list_elem_of_omap. exists (Num n). split; [|done].
    by eapply list_elem_of_lookup_2. }
  apply elem_of_seqZ in Hin. lia.
Qed.

Lemma columns_valid (card : Card) :
  Forall2 column_ok (seq 0 5) card → valid_card card.
Proof.
  intros Hcard.
  assert (Hrange : ∀ col row n, cell_at card col row = Some (Num n) →
            15 * col + 1 ≤ n ≤ 15 * col + 15).
  { intros col row n Hcell.
    destruct (columns_cell _ _ _ _ Hcard Hcell)
      as (column & Hcol & Hrow & _ & Hv & Hok & _).
    destruct (column_numbers _ _ _ _ Hok Hv) as [_ Hn]. lia. }
  split_and!.
  - split; [by rewrite <-(Forall2_length _ _ _ Hcard)|].
    apply Forall_forall. intros column Hin.
    destruct (proj1 (list_elem_of_lookup _ _) Hin) as [i Hi].
    destruct (Forall2_lookup_r _ _ _ _ _ Hcard Hi) as (c & _ & [Hcells _]).
    by rewrite <-(Forall2_length _ _ _ Hcells).
  - destruct (Forall2_lookup_l _ _ _ 2%nat 2%nat Hcard eq_refl)
      as (column & Hcol & [Hcells _]).
    destruct (Forall2_lookup_l _ _ _ 2%nat 2%nat Hcells eq_refl)
      as (v & Hrow & Hv).
    unfold cell_ok in Hv. rewrite decide_True in Hv by done. subst v.
    unfold cell_at.
    assert (Hat : at_index card 2 = Some column).
    { apply at_index_Some. split; [lia|done]. }
    rewrite Hat. apply at_index_Some. split; [lia|done].
  - intros col row v Hcell. pose proof Hcell as Hcell'.
    destruct (columns_cell _ _ _ _ Hcard Hcell)
      as (column & Hcol & Hrow & _ & Hv & Hok & Hcellok).
    unfold cell_ok in Hcellok. case_decide as Hfree.
    + left. split; [done|]. lia.
    + right. destruct Hcellok as [n Hn]. destruct v; simplify_eq/=.
      exists n. split; [done|]. by eapply Hrange.
  - intros col row col' row' n Hcell Hcell'.
    pose proof (Hrange _ _ _ Hcell) as Hn.
    pose proof (Hrange _ _ _ Hcell') as Hn'.
    assert (col = col') as <- by lia. split; [done|].
    destruct (columns_cell _ _ _ _ Hcard Hcell)
      as (column & Hcol & Hrow & Hc & Hv & Hok & _).
    destruct (columns_cell _ _ _ _ Hcard Hcell')
      as (column' & _ & Hrow' & Hc' & Hv' & _ & _).
    simplify_eq.
    destruct (column_numbers _ _ _ _ Hok Hv) as [Hnd _].
    assert (Z.to_nat row = Z.to_nat row'); [|lia].
    by eapply (omap_NoDup_lookup cell_num column _ _ (Num n) (Num n) n).
Qed.

(** Every generated card is valid; the form used by the later proofs. *)
Lemma card_generated_valid rt : valid_card (generateBingoCard rt).1.
Proof. apply columns_valid, generateBingoCard_columns. Qed.

(** C9: whatever [Math.random] returns, the generated card has five columns
    of five cells; each number lies in the range of its column (1-15, 16-30,
    31-45, 46-60, 61-75); no number occurs twice; and the cell at column 2,
    row 2 is the free one. *)
Theorem generateBingoCard_valid rt : valid_card (generateBingoCard rt).1.
Proof. apply columns_valid, generateBingoCard_columns. Qed.

(** ** Drawing numbers *)

Lemma stopGame_spec g rt :
  callInterval (stopGame g rt).1 = None ∧
  (∀ handle, callInterval g = Some handle →
     handle ∉ activeTimers (stopGame g rt).2) ∧
  roomId (stopGame g rt).1 = roomId g ∧
  players (stopGame g rt).1 = players g ∧
  calledNumbers (stopGame g rt).1 = calledNumbers g ∧
  currentNumber (stopGame g rt).1 = currentNumber g ∧
  gameState (stopGame g rt).1 = gameState g ∧
  winner (stopGame g rt).1 = winner g.
Proof.
  unfold stopGame. destruct (callInterval g) as [handle|] eqn:Hh; simpl.
  - split_and!; try done. intros h [= ->].
    apply not_elem_of_difference. right. by apply elem_of_singleton.
  - by rewrite Hh.
Qed.

Lemma stopGame_idle g rt : callInterval g = None → stopGame g rt = (g, rt).
Proof. intros Hh. unfold stopGame. by rewrite Hh. Qed.

(** The two outcomes of [callNumber], by what is left to draw. *)
Lemma callNumber_cases g rt :
  let availableNumbers := filter (λ num, num ∉ calledNumbers g) (seqZ 1 75) in
  (availableNumbers = [] ∧ callNumber g rt = (None, (stopGame g rt).1, (stopGame g rt).2)) ∨
  (∃ number,
     number ∈ availableNumbers ∧
     (callNumber g rt).1.1 = Some number ∧
     calledNumbers (callNumber g rt).1.2 = calledNumbers g ++ [number] ∧
     currentNumber (callNumber g rt).1.2 = Some number ∧
     roomId (callNumber g rt).1.2 = roomId g ∧
     players (callNumber g rt).1.2 = players g ∧
     gameState (callNumber g rt).1.2 = gameState g ∧
     winner (callNumber g rt).1.2 = winner g ∧
     callInterval (callNumber g rt).1.2 = callInterval g ∧
     (callNumber g rt).2 = (randomBelow (length availableNumbers) rt).2).
Proof.
  intros availableNumbers. unfold callNumber. fold availableNumbers.
  case_bool_decide as Hlen.
  - left. split; [by apply nil_length_inv|]. by destruct (stopGame g rt).
  - right.
    pose proof (randomBelow_lt (length availableNumbers) rt ltac:(lia)) as Hidx.
    destruct (randomBelow (length availableNumbers) rt) as [randomIndex rt'].
    simpl in Hidx.
    destruct (lookup_lt_is_Some_2 availableNumbers randomIndex Hidx) as [number Hn].
    exists number. rewrite Hn. simpl. split_and!; try done.
    by eapply list_elem_of_lookup_2.
Qed.

(** What is left to draw, counted. *)
Lemma available_length called :
  history_ok called →
  (length (filter (λ num, num ∉ called) (seqZ 1 75)) + length called = 75)%nat.
Proof.
  intros [Hnd Hrange].
  pose proof (filter_app_complement (λ num, num ∉ called) (seqZ 1 75)) as Hperm.
  apply Permutation_length in Hperm.
  rewrite length_app, length_seqZ in Hperm.
  assert (Hcalled : filter (λ num, ¬ (num ∉ called)) (seqZ 1 75) ≡ₚ called).
  { apply NoDup_Permutation; [apply NoDup_filter, NoDup_seqZ|done|].
    intros n. rewrite list_elem_of_filter, elem_of_seqZ. split.
    - intros [Hn _]. by apply dec_stable.
    - intros Hn. split; [by intros ?|]. specialize (Hrange n Hn). lia. }
  rewrite (Permutation_length Hcalled) in Hperm. lia.
Qed.

Lemma available_nil called :
  filter (λ num, num ∉ called) (seqZ 1 75) = [] ↔ exhausted called.
Proof.
  split.
  - intros Hnil n Hn. apply dec_stable. intros Hnot.
    eapply (filter_nil_not_elem_of _ _ n Hnil Hnot). apply elem_of_seqZ. lia.
  - intros Hall. apply elem_of_nil_inv. intros n Hin.
    apply list_elem_of_filter in Hin as [Hnot Hseq].
    apply Hnot, Hall. apply elem_of_seqZ in Hseq. lia.
Qed.

Lemma callNumber_fresh g rt number :
  (callNumber g rt).1.1 = Some number →
  (number ∉ calledNumbers g) ∧ (1 ≤ number ≤ 75) ∧
  calledNumbers (callNumber g rt).1.2 = calledNumbers g ++ [number].
Proof.
  intros Hres.
  destruct (callNumber_cases g rt) as [[_ Heq]|(n & Hin & Hn & Hcalled & _)].
  - by rewrite Heq in Hres.
  - rewrite Hn in Hres. injection Hres as ->.
    apply list_elem_of_filter in Hin as [Hnot Hseq].
    apply elem_of_seqZ in Hseq. split_and!; [done|lia..|done].
Qed.

Lemma history_ok_snoc called number :
  history_ok called → number ∉ called → 1 ≤ number ≤ 75 →
  history_ok (called ++ [number]).
Proof.
  intros [Hnd Hrange] Hnot Hn. split.
  - apply NoDup_app. split_and!; [done| |apply NoDup_singleton].
    intros x Hx ->%list_elem_of_singleton. done.
  - intros n [Hin|Hin]%elem_of_app; [by apply Hrange|].
    by apply list_elem_of_singleton in Hin as ->.
Qed.

(** As long as fewer than 75 numbers have been called, draws succeed and
    extend the history; the timer is left alone. *)
Lemma draws_spec k :
  ∀ g rt,
    history_ok (calledNumbers g) →
    (length (calledNumbers g) + k ≤ 75)%nat →
    ∃ numbers,
      (draws k g rt).1.1 = Some <$> numbers ∧ length numbers = k ∧
      calledNumbers (draws k g rt).1.2 = calledNumbers g ++ numbers ∧
      history_ok (calledNumbers g ++ numbers) ∧
      callInterval (draws k g rt).1.2 = callInterval g ∧
      gameState (draws k g rt).1.2 = gameState g ∧
      activeTimers (draws k g rt).2 = activeTimers rt.
Proof.
  induction k as [|k IH]; intros g rt Hok Hlen.
  - exists []. simpl. rewrite app_nil_r. by split_and!.
  - cbn [draws].
    pose proof (available_length _ Hok) as Havail.
    destruct (callNumber_cases g rt)
      as [[Hnil _]|(number & Hin & Hres & Hcalled & _ & _ & _ & Hstate & _ & Htimer & Hrt)].
    { rewrite Hnil in Havail. simpl in Havail. lia. }
    destruct (callNumber_fresh _ _ _ Hres) as (Hnot & Hrange & _).
    destruct (callNumber g rt) as [[res g1] rt1]. simpl in *. subst res.
    destruct (IH g1 rt1) as (numbers & Hnums & Hlenn & Hcalled' & Hok' & Htimer' & Hstate' & Hrt').
    { rewrite Hcalled. by apply history_ok_snoc. }
    { rewrite Hcalled, length_app. simpl. lia. }
    destruct (draws k g1 rt1) as [[results g2] rt2]. simpl in *.
    exists (number :: numbers). rewrite Hcalled, <-app_assoc in Hcalled', Hok'.
    split_and!; try done.
    + by rewrite Hnums.
    + simpl. by rewrite Hlenn.
    + congruence.
    + congruence.
    + by rewrite Hrt', Hrt.
Qed.

(** C8: a draw never returns a number of the history; from an empty
    history 75 draws in a row succeed, the history then holds every number
    of 1..75, and the next draw returns nothing and cancels the timer. *)
Theorem callNumber_draws g rt :
  calledNumbers g = [] →
  (∀ g0 rt0 number,
     (callNumber g0 rt0).1.1 = Some number →
     (number ∉ calledNumbers g0) ∧ (1 ≤ number ≤ 75) ∧
     calledNumbers (callNumber g0 rt0).1.2 = calledNumbers g0 ++ [number]) ∧
  ∃ numbers,
    (draws 75 g rt).1.1 = Some <$> numbers ∧
    length numbers = 75%nat ∧ NoDup numbers ∧
    calledNumbers (draws 75 g rt).1.2 = numbers ∧
    exhausted numbers ∧
    (callNumber (draws 75 g rt).1.2 (draws 75 g rt).2).1.1 = None ∧
    calledNumbers (callNumber (draws 75 g rt).1.2 (draws 75 g rt).2).1.2 = numbers ∧
    callInterval (callNumber (draws 75 g rt).1.2 (draws 75 g rt).2).1.2 = None ∧
    (∀ handle, callInterval g = Some handle →
       handle ∉ activeTimers (callNumber (draws 75 g rt).1.2 (draws 75 g rt).2).2).
Proof.
  intros Hempty. split; [apply callNumber_fresh|].
  destruct (draws_spec 75 g rt)
    as (numbers & Hres & Hlen & Hcalled & Hok & Htimer & _ & _).
  { rewrite Hempty. split; [apply NoDup_nil_2|]. by intros n ?%elem_of_nil. }
  { rewrite Hempty. cbn [length]. lia. }
  rewrite Hempty, app_nil_l in Hcalled, Hok.
  pose proof (available_length _ Hok) as Havail. rewrite Hlen in Havail.
  assert (Hnil : filter (λ num, num ∉ numbers) (seqZ 1 75) = []).
  { apply nil_length_inv. lia. }
  set (g75 := (draws 75 g rt).1.2) in *. set (rt75 := (draws 75 g rt).2) in *.
  exists numbers.
  destruct (callNumber_cases g75 rt75) as [[_ Heq]|(n & Hin & _)].
  - rewrite Heq. simpl.
    destruct (stopGame_spec g75 rt75) as (Hnone & Hcleared & _ & _ & Hsame & _).
    split_and!; try done.
    + by apply Hok.
    + by apply available_nil.
    + by rewrite Hsame.
    + intros handle Hh. apply Hcleared. by rewrite Htimer.
  - rewrite Hcalled, Hnil in Hin. by apply elem_of_nil in Hin.
Qed.

Lemma callNumber_draws_witness :
  calledNumbers (newBingoGame "r") = [] ∧
  ∃ numbers,
    (draws 75 (newBingoGame "r") (runtime (initialWorld (λ _, 0%N)))).1.1 =
      Some <$> numbers ∧
    length numbers = 75%nat.
Proof.
  split; [reflexivity|].
  destruct (callNumber_draws (newBingoGame "r")
              (runtime (initialWorld (λ _, 0%N))) eq_refl)
    as (_ & numbers & Hres & Hlen & _).
  exists numbers. split; [exact Hres | exact Hlen].
Defined.

(** ** The handlers *)

Lemma Done_inj w out w' out' : Done w out = Done w' out' → w = w' ∧ out = out'.
Proof. by intros [= -> ->]. Qed.

Lemma socketGame_Some socketId w room game :
  socketGame socketId w = Some (room, game) ↔
  socketRoom w !! socketId = Some room ∧ room ≠ "" ∧
  JsMap.get room (games w) = Some game.
Proof.
  unfold socketGame.
  destruct (socketRoom w !! socketId) as [r|];
    [|split; [done|by intros ([=] & _)]].
  case_bool_decide as Hr.
  - split; [done|]. intros ([= ->] & Hne & _). done.
  - destruct (JsMap.get r (games w)) as [g|] eqn:Hg.
    + split.
      * intros [= -> ->]. done.
      * intros ([= ->] & _ & Hg'). congruence.
    + split; [done|]. intros ([= ->] & _ & Hg'). congruence.
Qed.

Lemma eligible_includes cellValue called :
  bool_decide (cellValue = FREE) || includes cellValue called = true ↔
  eligible cellValue called.
Proof.
  unfold eligible, includes. rewrite orb_true_iff, bool_decide_eq_true.
  destruct cellValue as [n| |].
  - rewrite bool_decide_eq_true. split.
    + intros [?|Hn]; [done|]. right. by exists n.
    + intros [?|(m & [= ->] & Hm)]; [done|]. by right.
  - split; [by left|by left].
  - split; [by intros [?|?]|]. by intros [?|(m & ? & _)].
Qed.

Lemma card_shape_cell (card : Card) col row :
  card_shape card → 0 ≤ col < 5 → 0 ≤ row < 5 →
  ∃ column cellValue,
    at_index card col = Some column ∧ at_index column row = Some cellValue.
Proof.
  intros [Hlen Hcols] Hcol Hrow.
  destruct (lookup_lt_is_Some_2 card (Z.to_nat col)) as [column Hc]; [lia|].
  assert (Hlen' : length column = 5%nat).
  { rewrite Forall_forall in Hcols. apply Hcols.
    by eapply list_elem_of_lookup_2. }
  destruct (lookup_lt_is_Some_2 column (Z.to_nat row)) as [v Hv]; [lia|].
  exists column, v. split; apply at_index_Some; (split; [lia|done]).
Qed.

(** C4: for a player of the socket's room, a card of five by five cells
    and [row], [col] in 0..4, [markCell] returns; the index [row * 5 + col]
    joins the marked set exactly when the value at [card[col][row]] is the
    free one or has been called, and the requester is then acknowledged;
    otherwise nothing changes and nothing is sent. *)
Theorem markCell_marks socketId room game player row col w :
  socketGame socketId w = Some (room, game) →
  JsMap.get socketId (players game) = Some player →
  card_shape (card player) →
  0 ≤ row < 5 → 0 ≤ col < 5 →
  ∃ cellValue w' out game' player',
    cell_at (card player) col row = Some cellValue ∧
    on_markCell socketId row col w = Done w' out ∧
    JsMap.get room (games w') = Some game' ∧
    JsMap.get socketId (players game') = Some player' ∧
    (eligible cellValue (calledNumbers game) →
       markedCells player' = JsSet.add (row * 5 + col) (markedCells player) ∧
       out = [SocketEmit socketId (cellMarked row col)]) ∧
    (¬ eligible cellValue (calledNumbers game) →
       markedCells player' = markedCells player ∧ w' = w ∧ out = []) ∧
    (∀ c, c ∈ markedCells player' ↔
          c ∈ markedCells player ∨
          (c = row * 5 + col ∧ eligible cellValue (calledNumbers game))) ∧
    card player' = card player ∧ name player' = name player ∧
    calledNumbers game' = calledNumbers game ∧
    gameState game' = gameState game ∧ winner game' = winner game.
Proof.
  intros Hsock Hp Hshape Hrow Hcol.
  destruct (card_shape_cell _ col row Hshape Hcol Hrow)
    as (column & cellValue & Hcolumn & Hcell).
  pose proof (proj1 (socketGame_Some _ _ _ _) Hsock) as (_ & _ & Hgame).
  exists cellValue. unfold on_markCell, cell_at.
  rewrite Hsock, Hp, Hcolumn, Hcell. simpl.
  destruct (bool_decide (cellValue = FREE) || includes cellValue (calledNumbers game))
    eqn:Hcond.
  - apply eligible_includes in Hcond.
    set (player' := with_markedCells player
                      (JsSet.add (row * 5 + col) (markedCells player))).
    set (game' := with_players game (JsMap.set socketId player' (players game))).
    exists (with_games w (JsMap.set room game' (games w)) (runtime w)),
      [SocketEmit socketId (cellMarked row col)], game', player'.
    split_and!; try done.
    + simpl. apply get_set_eq.
    + simpl. apply get_set_eq.
    + intros c. simpl. rewrite JsSet_elem_of_add. tauto.
  - assert (Hnot : ¬ eligible cellValue (calledNumbers game)).
    { intros He%eligible_includes. congruence. }
    exists w, [], game, player. split_and!; try done.
    tauto.
Qed.

Lemma markCell_marks_witness :
  socketGame "s1" (sampleWorld [] [16]) = Some ("r", sampleGame [] [16]) ∧
  JsMap.get "s1" (players (sampleGame [] [16])) = Some (samplePlayer []) ∧
  card_shape (card (samplePlayer [])) ∧
  ∃ cellValue w' out,
    cell_at (card (samplePlayer [])) 1 0 = Some cellValue ∧
    on_markCell "s1" 0 1 (sampleWorld [] [16]) = Done w' out.
Proof.
  assert (Hshape : card_shape (card (samplePlayer []))).
  { split; [reflexivity|]. repeat constructor. }
  split; [reflexivity|]. split; [reflexivity|]. split; [exact Hshape|].
  destruct (markCell_marks "s1" "r" (sampleGame [] [16]) (samplePlayer []) 0 1
              (sampleWorld [] [16]) eq_refl eq_refl Hshape
              ltac:(lia) ltac:(lia))
    as (cellValue & w' & out & _ & _ & Hcell & Hrun & _).
  exists cellValue, w', out. split; [exact Hcell | exact Hrun].
Defined.

Lemma set_set {K V} `{EqDecision K} (k : K) (v v' : V) (m : list (K * V)) :
  JsMap.set k v (JsMap.set k v' m) = JsMap.set k v m.
Proof.
  induction m as [|[k0 v0] m IH]; simpl.
  - by rewrite decide_True.
  - destruct (decide (k = k0)) as [->|Hne]; simpl.
    + by rewrite decide_True.
    + rewrite decide_False by done. by rewrite IH.
Qed.

(** What [joinGame] does, in one equation: the room is the existing one or
    a new one, the player entry is written under the socket id, and three
    effects are produced. *)
Lemma on_joinGame_done socketId room playerName w :
  let game0 := default (newBingoGame room) (JsMap.get room (games w)) in
  let player :=
    {| id := socketId; name := joinedName playerName game0;
       card := (generateBingoCard (runtime w)).1; markedCells := [] |} in
  let game := with_players game0 (JsMap.set socketId player (players game0)) in
  on_joinGame socketId room playerName w =
    Done {| games := JsMap.set room game (games w);
            socketRoom := <[socketId := room]> (socketRoom w);
            runtime := (generateBingoCard (runtime w)).2 |}
         [ SocketJoin socketId room;
           SocketEmit socketId (gameJoined (card player) (name player) (getState game));
           RoomEmit room (playerJoined (name player) (JsMap.size (players game))) ].
Proof.
  intros game0 player game. subst game player game0.
  unfold on_joinGame, JsMap.has, addPlayer, joinedName.
  destruct (JsMap.get room (games w)) as [g|] eqn:Hg; cbn [default].
  - rewrite Hg.
    destruct (generateBingoCard (runtime w)) as [card0 rt']. cbn [fst snd].
    cbn [players with_players]. by rewrite get_set_eq.
  - rewrite get_set_eq.
    destruct (generateBingoCard (runtime w)) as [card0 rt']. cbn [fst snd].
    cbn [players with_players]. by rewrite get_set_eq, set_set.
Qed.

(** C10: joining again under a socket id that the room already holds
    overwrites that entry where it stands: same player count, same order of
    ids, the other players untouched, and for this id a newly generated
    (valid) card and an empty marked set. *)
Theorem joinGame_rejoin socketId room playerName w game player :
  JsMap.get room (games w) = Some game →
  JsMap.get socketId (players game) = Some player →
  ∃ w' out game' player',
    on_joinGame socketId room playerName w = Done w' out ∧
    JsMap.get room (games w') = Some game' ∧
    JsMap.get socketId (players game') = Some player' ∧
    JsMap.size (players game') = JsMap.size (players game) ∧
    JsMap.keys (players game') = JsMap.keys (players game) ∧
    (∀ other, other ≠ socketId →
       JsMap.get other (players game') = JsMap.get other (players game)) ∧
    id player' = socketId ∧
    name player' = joinedName playerName game ∧
    card player' = (generateBingoCard (runtime w)).1 ∧
    valid_card (card player') ∧
    markedCells player' = [] ∧
    JsMap.keys (games w') = JsMap.keys (games w) ∧
    out = [ SocketJoin socketId room;
            SocketEmit socketId
              (gameJoined (card player') (name player') (getState game'));
            RoomEmit room
              (playerJoined (name player') (JsMap.size (players game))) ].
Proof.
  intros Hg Hp. pose proof (on_joinGame_done socketId room playerName w) as Hjoin.
  rewrite Hg in Hjoin. cbv zeta in Hjoin.
  change (default (newBingoGame room) (Some game)) with game in Hjoin.
  assert (Hsize : JsMap.size (JsMap.set socketId
            {| id := socketId; name := joinedName playerName game;
               card := (generateBingoCard (runtime w)).1; markedCells := [] |}
            (players game)) = JsMap.size (players game)).
  { apply size_set_present. by rewrite Hp. }
  eexists _, _, _, _. split; [exact Hjoin|]. cbn [games].
  split; [apply get_set_eq|]. cbn [players with_players].
  split; [apply get_set_eq|]. cbn [id name card markedCells].
  split_and!; try done.
  - apply keys_set_present. by rewrite Hp.
  - intros other Hne. by apply get_set_ne.
  - apply card_generated_valid.
  - apply keys_set_present. by rewrite Hg.
  - by rewrite Hsize.
Qed.

Lemma joinGame_rejoin_witness :
  JsMap.get "r" (games (sampleWorld [0; 1] [1; 2])) = Some (sampleGame [0; 1] [1; 2]) ∧
  JsMap.get "s1" (players (sampleGame [0; 1] [1; 2])) = Some (samplePlayer [0; 1]) ∧
  ∃ w' out game' player',
    on_joinGame "s1" "r" "Bea" (sampleWorld [0; 1] [1; 2]) = Done w' out ∧
    JsMap.get "r" (games w') = Some game' ∧
    JsMap.get "s1" (players game') = Some player' ∧
    JsMap.size (players game') = 1%nat ∧
    markedCells player' = [].
Proof.
  split; [reflexivity|]. split; [reflexivity|].
  destruct (joinGame_rejoin "s1" "r" "Bea" (sampleWorld [0; 1] [1; 2])
              (sampleGame [0; 1] [1; 2]) (samplePlayer [0; 1]) eq_refl eq_refl)
    as (w' & out & game' & player' & Hrun & Hg & Hp & Hsize & _ & _ & _ & _ & _ & _ & Hm & _).
  exists w', out, game', player'.
  split; [exact Hrun|]. split; [exact Hg|]. split; [exact Hp|].
  split; [exact Hsize | exact Hm].
Defined.

(** The two ways [markCell] leaves the card: a [col] that is not the index
    of a column makes [player.card[col]] [undefined] and the read of [[row]]
    throws, whereas a [row] outside the column only yields [undefined]. *)
Lemma markCell_col_out_of_range socketId room game player row col w :
  socketGame socketId w = Some (room, game) →
  JsMap.get socketId (players game) = Some player →
  card_shape (card player) →
  ¬ (0 ≤ col < 5) →
  on_markCell socketId row col w = Uncaught TypeError.
Proof.
  intros Hsock Hp [Hlen _] Hcol. unfold on_markCell. rewrite Hsock, Hp.
  rewrite (proj2 (at_index_None (card player) col)); [done|]. lia.
Qed.

Lemma markCell_row_out_of_range socketId room game player row col w :
  socketGame socketId w = Some (room, game) →
  JsMap.get socketId (players game) = Some player →
  card_shape (card player) →
  0 ≤ col < 5 → ¬ (0 ≤ row < 5) →
  on_markCell socketId row col w = Done w [].
Proof.
  intros Hsock Hp Hshape Hcol Hrow. unfold on_markCell. rewrite Hsock, Hp.
  destruct (card_shape_cell _ col 0 Hshape Hcol ltac:(lia))
    as (column & v0 & Hcolumn & Hcell).
  rewrite Hcolumn.
  assert (Hlen : length column = 5%nat).
  { destruct Hshape as [_ Hcols]. rewrite Forall_forall in Hcols.
    apply Hcols. apply at_index_Some in Hcolumn as [_ Hc].
    by eapply list_elem_of_lookup_2. }
  rewrite (proj2 (at_index_None column row)); [done|]. lia.
Qed.

(** Any player who has just joined a room can make the handler throw. *)
Lemma join_then_markCell_throws socketId room playerName row col w :
  room ≠ "" → ¬ (0 ≤ col < 5) →
  ∃ w1 out,
    on_joinGame socketId room playerName w = Done w1 out ∧
    on_markCell socketId row col w1 = Uncaught TypeError.
Proof.
  intros Hroom Hcol.
  pose proof (on_joinGame_done socketId room playerName w) as Hjoin.
  cbv zeta in Hjoin. eexists _, _. split; [exact Hjoin|].
  eapply markCell_col_out_of_range.
  - apply socketGame_Some. cbn [socketRoom games].
    split_and!; [apply lookup_insert_eq|exact Hroom|apply get_set_eq].
  - cbn [players with_players]. apply get_set_eq.
  - cbn [card]. apply card_generated_valid.
  - exact Hcol.
Qed.

(** C7 (the defect): a player who has joined room ["r"] sends
    [markCell] with [row = 0], [col = 5]; whatever card was generated, the
    handler throws a [TypeError] that nothing catches. *)
Theorem markCell_uncaught random :
  run [JoinGame "s1" "r" "Ann"; MarkCell "s1" 0 5] (initialWorld random) =
    Uncaught TypeError.
Proof.
  destruct (join_then_markCell_throws "s1" "r" "Ann" 0 5 (initialWorld random))
    as (w1 & out & Hjoin & Hthrow); [done|lia|].
  cbn [run handle]. by rewrite Hjoin, Hthrow.
Qed.

(** [claimBingo] by a player of a room that is playing, in one equation. *)
Lemma on_claimBingo_done socketId room game player w :
  socketGame socketId w = Some (room, game) →
  gameState game = playing →
  JsMap.get socketId (players game) = Some player →
  on_claimBingo socketId w =
    let marked := JsSet.add freeIndex (markedCells player) in
    let game1 :=
      with_players game
        (JsMap.set socketId (with_markedCells player marked) (players game)) in
    if hasLine marked then
      let game2 :=
        {| roomId := roomId game1; players := players game1;
           calledNumbers := calledNumbers game1;
           currentNumber := currentNumber game1;
           gameState := finished; winner := Some (name player);
           callInterval := callInterval game1 |} in
      Done (with_games w
              (JsMap.set room (stopGame game2 (runtime w)).1 (games w))
              (stopGame game2 (runtime w)).2)
           [ RoomEmit room (gameWon (name player) (card player) marked) ]
    else
      Done (with_games w (JsMap.set room game1 (games w)) (runtime w))
           [ SocketEmit socketId (invalidBingo "Not a valid Bingo!") ].
Proof.
  intros Hsock Hstate Hp. unfold on_claimBingo, checkWin.
  rewrite Hsock, Hstate, Hp. cbn [bool_decide decide_rel].
  rewrite bool_decide_eq_false_2 by (intros H; by apply H).
  cbn [players with_players]. rewrite get_set_eq.
  cbn [name card markedCells with_markedCells].
  destruct (hasLine _); [|done].
  by destruct (stopGame _ _).
Qed.


Lemma with_games_id w : with_games w (games w) (runtime w) = w.
Proof. by destruct w. Qed.

(** [startGame] outside the waiting state: nothing changes; the handler
    still broadcasts the room's snapshot. *)
Lemma on_startGame_noop socketId room game w :
  socketGame socketId w = Some (room, game) →
  gameState game ≠ waiting →
  on_startGame socketId w = Done w [RoomEmit room (gameStarted (getState game))].
Proof.
  intros Hsock Hstate. unfold on_startGame, startGame. rewrite Hsock.
  rewrite bool_decide_eq_true_2 by done.
  apply socketGame_Some in Hsock as (_ & _ & Hg).
  by rewrite (set_get_id _ _ _ Hg), with_games_id.
Qed.

Lemma startGame_not_waiting g rt :
  gameState g ≠ waiting → startGame g rt = (g, rt).
Proof. intros Hstate. unfold startGame. by rewrite bool_decide_eq_true_2. Qed.

Lemma callNumber_gameState g rt :
  gameState (callNumber g rt).1.2 = gameState g.
Proof.
  destruct (callNumber_cases g rt) as [[_ ->]|(n & _ & _ & _ & _ & _ & _ & Hs & _)];
    [|done].
  apply stopGame_spec.
Qed.

Lemma startGame_waiting g rt :
  gameState g = waiting → gameState (startGame g rt).1 = playing.
Proof.
  intros Hstate. unfold startGame. rewrite Hstate.
  rewrite bool_decide_eq_false_2 by (intros H; by apply H).
  cbn [setInterval].
  match goal with
  | |- context [callNumber ?g1 ?rt1] =>
      pose proof (callNumber_gameState g1 rt1) as Hs;
      destruct (callNumber g1 rt1) as [[? ?] ?]
  end.
  exact Hs.
Qed.

Lemma size_nonzero {K V} `{EqDecision K} (k : K) (m : list (K * V)) :
  is_Some (JsMap.get k m) → JsMap.size m ≠ 0%nat.
Proof. destruct m; [by intros [? [=]]|done]. Qed.

Lemma room_won_set room claimant winnerName w room' game' rt :
  room_won room claimant winnerName w →
  (room' = room →
   gameState game' = finished ∧ winner game' = Some winnerName ∧
   is_Some (JsMap.get claimant (players game'))) →
  room_won room claimant winnerName
    (with_games w (JsMap.set room' game' (games w)) rt).
Proof.
  intros (game & Hg & Hstate & Hwin & Hp) Hsame.
  destruct (decide (room' = room)) as [->|Hne].
  - exists game'. cbn [games with_games]. rewrite get_set_eq.
    destruct (Hsame eq_refl) as (? & ? & ?). by split_and!.
  - exists game. cbn [games with_games]. rewrite get_set_ne by done.
    by split_and!.
Qed.

Lemma room_won_socketGame room claimant winnerName w socketId game :
  room_won room claimant winnerName w →
  socketGame socketId w = Some (room, game) →
  gameState game = finished ∧ winner game = Some winnerName ∧
  is_Some (JsMap.get claimant (players game)).
Proof.
  intros (game0 & Hg & Hstate & Hwin & Hp) (_ & _ & Hg')%socketGame_Some.
  rewrite Hg in Hg'. by apply (inj Some) in Hg' as <-.
Qed.

Lemma claimant_kept claimant socketId player (ps : list (string * Player)) :
  is_Some (JsMap.get claimant ps) →
  is_Some (JsMap.get claimant (JsMap.set socketId player ps)).
Proof.
  intros Hp. destruct (decide (socketId = claimant)) as [->|Hne].
  - by rewrite get_set_eq.
  - by rewrite get_set_ne.
Qed.

(** A finished game stays finished, with its winner, through every event
    but a reset of the room and the departure of the winner. *)
Lemma room_won_step room claimant winnerName ev w w' out :
  room_won room claimant winnerName w →
  keeps_result claimant ev →
  handle ev w = Done w' out →
  room_won room claimant winnerName w'.
Proof.
  intros Hwon Hev. destruct ev as [sid r nm|sid|sid row col|sid|sid|sid|r|];
    cbn [handle].
  - rewrite on_joinGame_done. cbv zeta. intros [<- _]%Done_inj.
    destruct Hwon as (game & Hg & Hstate & Hwin & Hp).
    destruct (decide (r = room)) as [->|Hne].
    + rewrite Hg. change (default (newBingoGame room) (Some game)) with game.
      eexists. cbn [games]. rewrite get_set_eq. split_and!; try done.
      by apply claimant_kept.
    + exists game. cbn [games]. rewrite get_set_ne by done. by split_and!.
  - unfold on_startGame.
    destruct (socketGame sid w) as [[r game]|] eqn:Hsock;
      [|by intros [<- _]%Done_inj].
    destruct (decide (r = room)) as [->|Hne].
    + destruct (room_won_socketGame _ _ _ _ _ _ Hwon Hsock) as (Hstate & Hwin & Hp).
      rewrite (startGame_not_waiting game (runtime w)) by (by rewrite Hstate).
      intros [<- _]%Done_inj. by apply room_won_set.
    + destruct (startGame game (runtime w)) as [game' rt'].
      intros [<- _]%Done_inj. by apply room_won_set.
  - unfold on_markCell.
    destruct (socketGame sid w) as [[r game]|] eqn:Hsock;
      [|by intros [<- _]%Done_inj].
    destruct (JsMap.get sid (players game)) as [player|];
      [|by intros [<- _]%Done_inj].
    destruct (at_index (card player) col) as [column|]; [|done].
    destruct (_ || _); [|by intros [<- _]%Done_inj].
    intros [<- _]%Done_inj. apply room_won_set; [done|]. intros ->.
    destruct (room_won_socketGame _ _ _ _ _ _ Hwon Hsock) as (? & ? & ?).
    split_and!; [done..|]. by apply claimant_kept.
  - unfold on_claimBingo.
    destruct (socketGame sid w) as [[r game]|] eqn:Hsock;
      [|by intros [<- _]%Done_inj].
    case_bool_decide as Hstate; [by intros [<- _]%Done_inj|].
    destruct (JsMap.get sid (players game)) as [player|];
      [|by intros [<- _]%Done_inj].
    destruct (checkWin sid game) as [isWinner game1].
    destruct (JsMap.get sid (players game1)) as [player1|]; [|done].
    assert (Hne : r ≠ room).
    { intros ->. destruct (room_won_socketGame _ _ _ _ _ _ Hwon Hsock) as (Hs & _).
      congruence. }
    destruct isWinner.
    + destruct (stopGame _ _) as [game2 rt2].
      intros [<- _]%Done_inj. by apply room_won_set.
    + intros [<- _]%Done_inj. by apply room_won_set.
  - done.
  - unfold on_disconnect, removePlayer. cbn [keeps_result] in Hev.
    destruct (socketGame sid w) as [[r game]|] eqn:Hsock;
      [|by intros [<- _]%Done_inj].
    set (game1 := with_players game (JsMap.delete sid (players game))).
    destruct (decide (r = room)) as [->|Hne].
    + destruct (room_won_socketGame _ _ _ _ _ _ Hwon Hsock) as (Hstate & Hwin & Hp).
      assert (Hp1 : is_Some (JsMap.get claimant (players game1))).
      { cbn [game1 players with_players]. by rewrite get_delete_ne. }
      rewrite (bool_decide_eq_false_2 (JsMap.size (players game1) = 0%nat))
        by (by eapply size_nonzero).
      rewrite (bool_decide_eq_false_2 (JsMap.size (players game1) = 0%nat))
        by (by eapply size_nonzero).
      intros [<- _]%Done_inj. by apply room_won_set.
    + destruct (if bool_decide _ then stopGame game1 (runtime w) else (game1, runtime w))
        as [game2 rt2].
      destruct (bool_decide _); intros [<- _]%Done_inj.
      * destruct Hwon as (game0 & Hg & Hrest). exists game0.
        cbn [games with_games]. by rewrite get_delete_ne.
      * by apply room_won_set.
  - unfold on_drawTick.
    destruct (JsMap.get r (games w)) as [game|] eqn:Hg;
      [|by intros [<- _]%Done_inj].
    destruct (callInterval game) as [handle|]; [|by intros [<- _]%Done_inj].
    destruct (bool_decide _); [|by intros [<- _]%Done_inj].
    pose proof (callNumber_gameState game (runtime w)) as Hstate.
    destruct (callNumber_cases game (runtime w))
      as [[_ Heq]|(n & _ & _ & _ & _ & _ & Hplayers & _ & Hwinner & _)].
    + rewrite Heq in *. cbn [fst snd] in *.
      destruct (stopGame_spec game (runtime w))
        as (_ & _ & _ & Hplayers & _ & _ & _ & Hwinner).
      intros [<- _]%Done_inj. apply room_won_set; [done|]. intros ->.
      destruct Hwon as (game0 & Hg0 & Hs & Hw & Hp).
      rewrite Hg in Hg0. apply (inj Some) in Hg0 as <-.
      rewrite Hstate, Hwinner, Hplayers. by split_and!.
    + destruct (callNumber game (runtime w)) as [[number game'] rt'].
      cbn [fst snd] in *.
      intros [<- _]%Done_inj. apply room_won_set; [done|]. intros ->.
      destruct Hwon as (game0 & Hg0 & Hs & Hw & Hp).
      rewrite Hg in Hg0. apply (inj Some) in Hg0 as <-.
      rewrite Hstate, Hwinner, Hplayers. by split_and!.
  - unfold on_broadcast. by intros [<- _]%Done_inj.
Qed.

Lemma room_won_run room claimant winnerName evs :
  ∀ w w',
    room_won room claimant winnerName w →
    Forall (keeps_result claimant) evs →
    outcome_world (run evs w) = Some w' →
    room_won room claimant winnerName w'.
Proof.
  induction evs as [|ev evs IH]; intros w w' Hwon Hevs; cbn [run].
  - by intros [= <-].
  - apply Forall_cons in Hevs as [Hev Hevs].
    destruct (handle ev w) as [w1 out1|] eqn:Hstep; [|done].
    intros Hrun. apply (IH w1); [by eapply room_won_step|done|].
    by destruct (run evs w1).
Qed.


(** ** The timer and the lifecycle state *)

Lemma elem_of_set {K V} `{EqDecision K} (k : K) (v : V) (m : list (K * V)) x :
  x ∈ JsMap.set k v m → x = (k, v) ∨ x ∈ m.
Proof.
  induction m as [|[k0 v0] m IH]; simpl.
  - intros ->%list_elem_of_singleton. by left.
  - destruct (decide (k = k0)) as [->|Hne]; rewrite !elem_of_cons; tauto.
Qed.

Lemma elem_of_delete {K V} `{EqDecision K} (k : K) (m : list (K * V)) x :
  x ∈ JsMap.delete k m → x ∈ m.
Proof.
  induction m as [|[k0 v0] m IH]; simpl; [done|].
  destruct (decide (k = k0)) as [->|Hne]; rewrite !elem_of_cons; tauto.
Qed.

Lemma game_inv_new room : game_inv (newBingoGame room).
Proof.
  split_and!.
  - split; [by intros [? [=]]|done].
  - split; [apply NoDup_nil_2|]. by intros n ?%elem_of_nil.
  - by intros socketId player ?%elem_of_nil.
Qed.

Lemma game_inv_with_players g ps :
  game_inv g → players_inv ps → game_inv (with_players g ps).
Proof. intros (Ht & Hh & _) Hps. by split_and!. Qed.

Lemma players_inv_set socketId player ps :
  players_inv ps → valid_card (card player) →
  players_inv (JsMap.set socketId player ps).
Proof.
  intros Hps Hcard sid p [[= -> ->]|Hin]%elem_of_set; [done|]. by eapply Hps.
Qed.

Lemma players_inv_delete socketId ps :
  players_inv ps → players_inv (JsMap.delete socketId ps).
Proof. intros Hps sid p Hin%elem_of_delete. by eapply Hps. Qed.

Lemma world_inv_set w room game rt :
  world_inv w → game_inv game →
  world_inv (with_games w (JsMap.set room game (games w)) rt).
Proof.
  intros Hw Hg r g [[= -> ->]|Hin]%elem_of_set; [done|]. by eapply Hw.
Qed.

Lemma world_inv_socketGame socketId w room game :
  world_inv w → socketGame socketId w = Some (room, game) → game_inv game.
Proof.
  intros Hw (_ & _ & Hg)%socketGame_Some. eapply Hw. by apply get_Some_elem.
Qed.

Lemma exhausted_app called numbers :
  exhausted called → exhausted (called ++ numbers).
Proof. intros Hall n Hn. apply elem_of_app. left. by apply Hall. Qed.

Lemma callNumber_inv g rt : game_inv g → game_inv (callNumber g rt).1.2.
Proof.
  intros ([Hsome Hnone] & Hhist & Hps).
  destruct (callNumber_cases g rt)
    as [[Hnil ->]|(n & Hin & Hres & Hcalled & _ & _ & Hplayers & Hstate & _ & Htimer & _)].
  - destruct (stopGame_spec g rt) as (Hcleared & _ & _ & Hplayers & Hcalled & _ & Hstate & _).
    cbn [fst snd]. split_and!.
    + split; [rewrite Hcleared; by intros [? [=]]|].
      intros _ _. rewrite Hcalled. by apply available_nil.
    + by rewrite Hcalled.
    + by rewrite Hplayers.
  - destruct (callNumber_fresh _ _ _ Hres) as (Hfresh & Hrange & _).
    split_and!.
    + split; [by rewrite Htimer, Hstate|].
      rewrite Htimer, Hstate, Hcalled. intros Hp Hn.
      by apply exhausted_app, Hnone.
    + rewrite Hcalled. by apply history_ok_snoc.
    + by rewrite Hplayers.
Qed.

Lemma startGame_inv g rt : game_inv g → game_inv (startGame g rt).1.
Proof.
  intros Hinv. unfold startGame. case_bool_decide as Hstate; [done|].
  cbn [setInterval].
  match goal with
  | |- context [callNumber ?g1 ?rt1] =>
      pose proof (callNumber_inv g1 rt1) as Hcall;
      destruct (callNumber g1 rt1) as [[? ?] ?]
  end.
  apply Hcall. destruct Hinv as (_ & _ & Hps). split_and!.
  - split; [done|]. by intros _ [=].
  - split; [apply NoDup_nil_2|]. by intros n ?%elem_of_nil.
  - done.
Qed.

Lemma stopGame_inv g rt :
  history_ok (calledNumbers g) → players_inv (players g) →
  gameState g ≠ playing → game_inv (stopGame g rt).1.
Proof.
  intros Hhist Hps Hstate.
  destruct (stopGame_spec g rt) as (Hcleared & _ & _ & Hplayers & Hcalled & _ & Hst & _).
  split_and!.
  - split; [rewrite Hcleared; by intros [? [=]]|]. by rewrite Hst.
  - by rewrite Hcalled.
  - by rewrite Hplayers.
Qed.

Lemma regenerate_spec ps :
  ∀ rt, players_inv (regenerate ps rt).1 ∧
        JsMap.keys (regenerate ps rt).1 = JsMap.keys ps ∧
        Forall (λ entry, markedCells entry.2 = []) (regenerate ps rt).1.
Proof.
  unfold JsMap.keys.
  induction ps as [|[socketId player] ps IH]; intros rt; cbn [regenerate].
  - split_and!; [by intros ? ? ?%elem_of_nil|done|done].
  - pose proof (card_generated_valid rt) as Hcard.
    destruct (generateBingoCard rt) as [card0 rt1]. cbn [fst] in Hcard.
    destruct (IH rt1) as (Hps & Hkeys & Hmarked).
    destruct (regenerate ps rt1) as [ps' rt2]. cbn [fst] in *.
    split_and!.
    + intros sid p [[= -> ->]|Hin]%elem_of_cons; [done|]. by eapply Hps.
    + rewrite !fmap_cons. by rewrite Hkeys.
    + by constructor.
Qed.

Lemma on_joinGame_inv socketId room playerName w w' out :
  world_inv w → on_joinGame socketId room playerName w = Done w' out →
  world_inv w'.
Proof.
  intros Hw. rewrite on_joinGame_done. cbv zeta. intros Heq.
  apply Done_inj in Heq as [<- _]. cbn [games].
  intros r g Hin. cbn [games] in Hin.
  apply elem_of_set in Hin as [Heq|Hin]; [|by eapply Hw].
  apply pair_equal_spec in Heq as [-> ->].
  assert (Hg0 : game_inv (default (newBingoGame room) (JsMap.get room (games w)))).
  { destruct (JsMap.get room (games w)) as [g0|] eqn:Hg; simpl.
    - eapply Hw. by apply get_Some_elem.
    - apply game_inv_new. }
  apply game_inv_with_players; [done|].
  apply players_inv_set; [apply Hg0|]. apply card_generated_valid.
Qed.

Lemma on_startGame_inv socketId w w' out :
  world_inv w → on_startGame socketId w = Done w' out → world_inv w'.
Proof.
  intros Hw. unfold on_startGame.
  destruct (socketGame socketId w) as [[room game]|] eqn:Hsock;
    [|by intros [<- _]%Done_inj].
  pose proof (startGame_inv game (runtime w)
                (world_inv_socketGame _ _ _ _ Hw Hsock)) as Hinv.
  destruct (startGame game (runtime w)) as [game' rt'].
  intros [<- _]%Done_inj. by apply world_inv_set.
Qed.

Lemma on_markCell_inv socketId row col w w' out :
  world_inv w → on_markCell socketId row col w = Done w' out → world_inv w'.
Proof.
  intros Hw. unfold on_markCell.
  destruct (socketGame socketId w) as [[room game]|] eqn:Hsock;
    [|by intros [<- _]%Done_inj].
  pose proof (world_inv_socketGame _ _ _ _ Hw Hsock) as Hinv.
  destruct (JsMap.get socketId (players game)) as [player|] eqn:Hp;
    [|by intros [<- _]%Done_inj].
  destruct (at_index (card player) col) as [column|]; [|done].
  destruct (_ || _); [|by intros [<- _]%Done_inj].
  intros [<- _]%Done_inj. apply world_inv_set; [done|].
  apply game_inv_with_players; [done|].
  apply players_inv_set; [apply Hinv|]. cbn [card with_markedCells].
  destruct Hinv as (_ & _ & Hps). apply (Hps socketId). by apply get_Some_elem.
Qed.

Lemma on_claimBingo_inv socketId w w' out :
  world_inv w → on_claimBingo socketId w = Done w' out → world_inv w'.
Proof.
  intros Hw.
  destruct (socketGame socketId w) as [[room game]|] eqn:Hsock;
    [|unfold on_claimBingo; rewrite Hsock; by intros [<- _]%Done_inj].
  pose proof (world_inv_socketGame _ _ _ _ Hw Hsock) as Hinv.
  destruct (decide (gameState game = playing)) as [Hstate|Hstate];
    [|unfold on_claimBingo; rewrite Hsock, bool_decide_eq_true_2 by done;
      by intros [<- _]%Done_inj].
  destruct (JsMap.get socketId (players game)) as [player|] eqn:Hp;
    [|unfold on_claimBingo; rewrite Hsock, bool_decide_eq_false_2, Hp
        by (intros H; by apply H); by intros [<- _]%Done_inj].
  rewrite (on_claimBingo_done _ _ _ _ _ Hsock Hstate Hp). cbn zeta.
  assert (Hps : players_inv
            (JsMap.set socketId
               (with_markedCells player (JsSet.add freeIndex (markedCells player)))
               (players game))).
  { apply players_inv_set; [apply Hinv|]. cbn [card with_markedCells].
    destruct Hinv as (_ & _ & Hps). apply (Hps socketId). by apply get_Some_elem. }
  destruct (hasLine _); intros [<- _]%Done_inj; apply world_inv_set; try done.
  - apply stopGame_inv; [apply Hinv|done|done].
  - by apply game_inv_with_players.
Qed.

Lemma on_newGame_inv socketId w w' out :
  world_inv w → on_newGame socketId w = Done w' out → world_inv w'.
Proof.
  intros Hw. unfold on_newGame.
  destruct (socketGame socketId w) as [[room game]|] eqn:Hsock;
    [|by intros [<- _]%Done_inj].
  destruct (stopGame_spec game (runtime w)) as (Hcleared & _).
  destruct (stopGame game (runtime w)) as [game1 rt1]. simpl in Hcleared.
  destruct (regenerate_spec (players game1) rt1) as (Hps & _).
  destruct (regenerate (players game1) rt1) as [ps rt2]. simpl in Hps.
  intros [<- _]%Done_inj. apply world_inv_set; [done|]. split_and!.
  - simpl. rewrite Hcleared. split; [by intros [? [=]]|done].
  - split; [apply NoDup_nil_2|]. by intros n ?%elem_of_nil.
  - done.
Qed.

Lemma on_disconnect_inv socketId w w' out :
  world_inv w → on_disconnect socketId w = Done w' out → world_inv w'.
Proof.
  intros Hw. unfold on_disconnect, removePlayer.
  destruct (socketGame socketId w) as [[room game]|] eqn:Hsock;
    [|by intros [<- _]%Done_inj].
  pose proof (world_inv_socketGame _ _ _ _ Hw Hsock) as Hinv.
  set (game1 := with_players game (JsMap.delete socketId (players game))).
  assert (Hinv1 : game_inv game1).
  { apply game_inv_with_players; [done|]. apply players_inv_delete, Hinv. }
  assert (Hdel : ∀ rt, world_inv (with_games w (JsMap.delete room (games w)) rt)).
  { intros rt r g Hin%elem_of_delete. by eapply Hw. }
  case_bool_decide as Hsize.
  - destruct (stopGame_spec game1 (runtime w)) as (_ & _ & _ & Hplayers & _).
    destruct (stopGame game1 (runtime w)) as [game2 rt2]. simpl in Hplayers.
    rewrite Hplayers, bool_decide_eq_true_2 by done.
    intros [<- _]%Done_inj. apply Hdel.
  - rewrite bool_decide_eq_false_2 by done.
    intros [<- _]%Done_inj. by apply world_inv_set.
Qed.

Lemma on_drawTick_inv room w w' out :
  world_inv w → on_drawTick room w = Done w' out → world_inv w'.
Proof.
  intros Hw. unfold on_drawTick.
  destruct (JsMap.get room (games w)) as [game|] eqn:Hg; [|by intros [<- _]%Done_inj].
  destruct (callInterval game) as [handle|]; [|by intros [<- _]%Done_inj].
  case_bool_decide; [|by intros [<- _]%Done_inj].
  pose proof (callNumber_inv game (runtime w)) as Hinv.
  destruct (callNumber game (runtime w)) as [[number game'] rt'].
  intros [<- _]%Done_inj. apply world_inv_set; [done|]. apply Hinv.
  eapply Hw. by apply get_Some_elem.
Qed.

Lemma handle_inv ev w w' out :
  world_inv w → handle ev w = Done w' out → world_inv w'.
Proof.
  destruct ev; simpl.
  - apply on_joinGame_inv.
  - apply on_startGame_inv.
  - apply on_markCell_inv.
  - apply on_claimBingo_inv.
  - apply on_newGame_inv.
  - apply on_disconnect_inv.
  - apply on_drawTick_inv.
  - unfold on_broadcast. by intros Hw [<- _]%Done_inj.
Qed.

Lemma reachable_inv random w : reachable random w → world_inv w.
Proof.
  induction 1 as [|w ev w' out _ IH Hstep].
  - by intros room game ?%elem_of_nil.
  - by eapply handle_inv.
Qed.

(** In a reachable state every player holds a valid card, so the shape
    that the lemmas on [markCell] ask for is there. *)
Lemma reachable_card_valid random w socketId room game player :
  reachable random w →
  socketGame socketId w = Some (room, game) →
  JsMap.get socketId (players game) = Some player →
  valid_card (card player).
Proof.
  intros Hreach Hsock Hp.
  destruct (world_inv_socketGame _ _ _ _ (reachable_inv _ _ Hreach) Hsock)
    as (_ & _ & Hps).
  apply (Hps socketId). by apply get_Some_elem.
Qed.

Lemma run_reachable random evs :
  ∀ w w', reachable random w → outcome_world (run evs w) = Some w' →
          reachable random w'.
Proof.
  induction evs as [|ev evs IH]; intros w w' Hw; simpl.
  - by intros [= <-].
  - destruct (handle ev w) as [w1 out1|] eqn:Hstep; [|done].
    intros Hrun. apply (IH w1).
    + by eapply reachable_step.
    + by destruct (run evs w1).
Qed.


Lemma exhaustingRun_state :
  (w ← outcome_world (run exhaustingRun (initialWorld (λ _, 0%N)));
   game ← JsMap.get "r" (games w);
   Some (gameState game, callInterval game)) = Some (playing, None).
Proof. vm_compute. reflexivity. Qed.

(** C5 as stated fails: once the 75 numbers are out, the next tick clears
    the timer and the room is still playing. *)
Lemma timer_handle_counterexample :
  ¬ (∀ random w room game,
       reachable random w →
       JsMap.get room (games w) = Some game →
       (is_Some (callInterval game) ↔ gameState game = playing)).
Proof.
  intros H.
  pose proof exhaustingRun_state as Hst.
  pose proof (λ w', run_reachable (λ _, 0%N) exhaustingRun _ w'
                      (reachable_init _)) as Hreach.
  revert Hst Hreach.
  generalize (outcome_world (run exhaustingRun (initialWorld (λ _, 0%N)))).
  intros [w|] Hst Hreach; [|done].
  specialize (Hreach w eq_refl). cbn [mbind option_bind] in Hst.
  destruct (JsMap.get "r" (games w)) as [game|] eqn:Hg; [|done].
  cbn [mbind option_bind] in Hst.
  apply (inj Some), pair_equal_spec in Hst as [Hstate Hnone].
  destruct (proj2 (H _ w "r" game Hreach Hg) Hstate) as [handle Hh].
  congruence.
Qed.

(** * Further properties of the server *)

(** ** More on the containers *)

Section JsMapMore.
Context {K V : Type} `{EqDecision K}.
Implicit Types (k : K) (v : V) (m : list (K * V)).

Lemma get_None_keys k m : JsMap.get k m = None ↔ k ∉ JsMap.keys m.
Proof.
  unfold JsMap.keys. induction m as [|[k' v'] m IH]; simpl.
  - split; [intros _; apply not_elem_of_nil|done].
  - rewrite not_elem_of_cons. destruct (decide (k = k')) as [->|Hne].
    + split; [done|]. by intros [? _].
    + rewrite IH. tauto.
Qed.

Lemma keys_set_absent k v m :
  JsMap.get k m = None → JsMap.keys (JsMap.set k v m) = JsMap.keys m ++ [k].
Proof.
  unfold JsMap.keys.
  induction m as [|[k' v'] m IH]; cbn [JsMap.get JsMap.set]; [done|].
  destruct (decide (k = k')) as [->|Hne]; [done|].
  intros Hget. rewrite !fmap_cons. cbn [app]. f_equal. by apply IH.
Qed.

Lemma NoDup_keys_set k v m :
  NoDup (JsMap.keys m) → NoDup (JsMap.keys (JsMap.set k v m)).
Proof.
  intros Hnd. destruct (JsMap.get k m) as [v0|] eqn:Hget.
  - rewrite keys_set_present; [done|by rewrite Hget].
  - rewrite keys_set_absent by done. apply NoDup_app. split_and!; [done| |apply NoDup_singleton].
    intros x Hx Hx'. apply list_elem_of_singleton in Hx' as ->.
    by apply get_None_keys in Hget.
Qed.

Lemma keys_delete_sub k m x : x ∈ JsMap.keys (JsMap.delete k m) → x ∈ JsMap.keys m.
Proof.
  unfold JsMap.keys. induction m as [|[k' v'] m IH]; cbn [JsMap.delete]; [done|].
  destruct (decide (k = k')) as [->|Hne]; rewrite !fmap_cons, ?elem_of_cons; tauto.
Qed.

Lemma NoDup_keys_delete k m :
  NoDup (JsMap.keys m) → NoDup (JsMap.keys (JsMap.delete k m)).
Proof.
  unfold JsMap.keys. induction m as [|[k' v'] m IH]; cbn [JsMap.delete]; [done|].
  rewrite fmap_cons. intros [Hnot Hnd]%NoDup_cons.
  destruct (decide (k = k')) as [->|Hne]; [done|].
  rewrite fmap_cons. apply NoDup_cons. split; [|by apply IH].
  intros Hin. apply Hnot. by eapply keys_delete_sub.
Qed.

Lemma get_delete_eq k m :
  NoDup (JsMap.keys m) → JsMap.get k (JsMap.delete k m) = None.
Proof.
  unfold JsMap.keys. induction m as [|[k' v'] m IH]; cbn [JsMap.delete JsMap.get]; [done|].
  rewrite fmap_cons. intros [Hnot Hnd]%NoDup_cons.
  destruct (decide (k = k')) as [->|Hne].
  - by apply get_None_keys.
  - cbn [JsMap.get]. rewrite decide_False by done. by apply IH.
Qed.

Lemma get_set k k' v m :
  JsMap.get k' (JsMap.set k v m) =
    if decide (k = k') then Some v else JsMap.get k' m.
Proof.
  destruct (decide (k = k')) as [->|Hne]; [apply get_set_eq|by apply get_set_ne].
Qed.

Lemma elem_get k v m : NoDup (JsMap.keys m) → (k, v) ∈ m → JsMap.get k m = Some v.
Proof.
  unfold JsMap.keys. induction m as [|[k' v'] m IH]; [by intros _ ?%elem_of_nil|].
  rewrite fmap_cons. intros [Hnot Hnd]%NoDup_cons Hin. cbn [JsMap.get].
  apply elem_of_cons in Hin as [Heq|Hin].
  - apply pair_equal_spec in Heq as [-> ->]. by rewrite decide_True.
  - destruct (decide (k = k')) as [->|Hne]; [|by apply IH].
    destruct Hnot. apply list_elem_of_fmap. by exists (k', v).
Qed.

Lemma set_nonempty k v m : JsMap.set k v m ≠ [].
Proof. destruct m as [|[k' v'] m]; simpl; [done|]. by destruct (decide (k = k')). Qed.

Lemma size_set k v m :
  JsMap.size (JsMap.set k v m) =
    match JsMap.get k m with
    | Some _ => JsMap.size m
    | None => S (JsMap.size m)
    end.
Proof.
  destruct (JsMap.get k m) eqn:Hget.
  - apply size_set_present. by rewrite Hget.
  - by apply size_set_absent.
Qed.

End JsMapMore.

(** ** Every handler as a step of one room *)

Lemma addPlayer_eq socketId playerName g rt :
  addPlayer socketId playerName g rt =
    (with_players g
       (JsMap.set socketId
          {| id := socketId; name := playerName;
             card := (generateBingoCard rt).1; markedCells := [] |}
          (players g)),
     (generateBingoCard rt).2).
Proof. unfold addPlayer. by destruct (generateBingoCard rt). Qed.

Lemma addPlayer_game socketId playerName g rt :
  (addPlayer socketId playerName g rt).1 =
    with_players g
      (JsMap.set socketId
         {| id := socketId; name := playerName;
            card := (generateBingoCard rt).1; markedCells := [] |}
         (players g)).
Proof. unfold addPlayer. by destruct (generateBingoCard rt). Qed.

Lemma addPlayer_runtime socketId playerName g rt :
  (addPlayer socketId playerName g rt).2 = (generateBingoCard rt).2.
Proof. unfold addPlayer. by destruct (generateBingoCard rt). Qed.

Lemma checkWin_game socketId g player :
  JsMap.get socketId (players g) = Some player →
  (checkWin socketId g).2 =
    with_players g
      (JsMap.set socketId
         (with_markedCells player (JsSet.add freeIndex (markedCells player)))
         (players g)).
Proof. intros Hp. unfold checkWin. by rewrite Hp. Qed.

Lemma checkWin_eq socketId g player :
  JsMap.get socketId (players g) = Some player →
  checkWin socketId g =
    (hasLine (JsSet.add freeIndex (markedCells player)),
     with_players g
       (JsMap.set socketId
          (with_markedCells player (JsSet.add freeIndex (markedCells player)))
          (players g))).
Proof. intros Hp. unfold checkWin. by rewrite Hp. Qed.

Lemma stopGame_with_players g ps rt :
  stopGame (with_players g ps) rt =
    (with_players (stopGame g rt).1 ps, (stopGame g rt).2).
Proof. unfold stopGame. cbn [callInterval with_players]. by destruct (callInterval g). Qed.

Lemma on_joinGame_shape sid r nm w w' out :
  on_joinGame sid r nm w = Done w' out → world_step w w'.
Proof.
  rewrite on_joinGame_done. cbv zeta. intros [<- _]%Done_inj.
  pose proof (world_room w r _ _ (<[sid:=r]> (socketRoom w))
    (step_join r (runtime w) (JsMap.get r (games w)) sid
       (joinedName nm (default (newBingoGame r) (JsMap.get r (games w))))))
    as Hstep.
  rewrite addPlayer_game, addPlayer_runtime in Hstep. exact Hstep.
Qed.

Lemma on_startGame_shape sid w w' out :
  on_startGame sid w = Done w' out → world_step w w'.
Proof.
  unfold on_startGame.
  destruct (socketGame sid w) as [[room game]|] eqn:Hsock;
    [|intros [<- _]%Done_inj; constructor].
  apply socketGame_Some in Hsock as (_ & _ & Hg).
  pose proof (world_room w room _ _ (socketRoom w)
    (step_start room (runtime w) _ game Hg)) as Hstep.
  destruct (startGame game (runtime w)) as [game' rt'].
  intros [<- _]%Done_inj. exact Hstep.
Qed.

Lemma on_markCell_shape sid row col w w' out :
  on_markCell sid row col w = Done w' out → world_step w w'.
Proof.
  unfold on_markCell.
  destruct (socketGame sid w) as [[room game]|] eqn:Hsock;
    [|intros [<- _]%Done_inj; constructor].
  apply socketGame_Some in Hsock as (_ & _ & Hg).
  destruct (JsMap.get sid (players game)) as [player|] eqn:Hp;
    [|intros [<- _]%Done_inj; constructor].
  destruct (at_index (card player) col) as [column|] eqn:Hcol; [|done].
  destruct (_ || _) eqn:Hcond; [|intros [<- _]%Done_inj; constructor].
  apply eligible_includes in Hcond. intros [<- _]%Done_inj.
  exact (world_room w room _ _ (socketRoom w)
    (step_mark room (runtime w) _ game sid player row col column Hg Hp Hcol Hcond)).
Qed.

Lemma on_claimBingo_shape sid w w' out :
  on_claimBingo sid w = Done w' out → world_step w w'.
Proof.
  destruct (socketGame sid w) as [[room game]|] eqn:Hsock;
    [|unfold on_claimBingo; rewrite Hsock; intros [<- _]%Done_inj; constructor].
  destruct (decide (gameState game = playing)) as [Hstate|Hstate];
    [|unfold on_claimBingo; rewrite Hsock, bool_decide_eq_true_2 by done;
      intros [<- _]%Done_inj; constructor].
  destruct (JsMap.get sid (players game)) as [player|] eqn:Hp;
    [|unfold on_claimBingo; rewrite Hsock, bool_decide_eq_false_2, Hp
        by (intros H; by apply H); intros [<- _]%Done_inj; constructor].
  rewrite (on_claimBingo_done _ _ _ _ _ Hsock Hstate Hp). cbv zeta.
  apply socketGame_Some in Hsock as (_ & _ & Hg).
  pose proof (checkWin_eq sid game player Hp) as Hcheck.
  destruct (hasLine _) eqn:Hline; intros [<- _]%Done_inj.
  + pose proof (world_room w room _ _ (socketRoom w)
      (step_won room (runtime w) _ game sid player Hg Hstate Hp
         ltac:(rewrite Hcheck; reflexivity))) as Hstep.
    rewrite (checkWin_game _ _ _ Hp) in Hstep. exact Hstep.
  + pose proof (world_room w room _ _ (socketRoom w)
      (step_rejected room (runtime w) _ game sid player Hg Hstate Hp
         ltac:(rewrite Hcheck; reflexivity))) as Hstep.
    rewrite (checkWin_game _ _ _ Hp) in Hstep. exact Hstep.
Qed.

Lemma on_newGame_shape sid w w' out :
  on_newGame sid w = Done w' out → world_step w w'.
Proof.
  unfold on_newGame.
  destruct (socketGame sid w) as [[room game]|] eqn:Hsock;
    [|intros [<- _]%Done_inj; constructor].
  apply socketGame_Some in Hsock as (_ & _ & Hg).
  pose proof (world_room w room _ _ (socketRoom w)
    (step_reset room (runtime w) _ game Hg)) as Hstep.
  unfold resetGame in Hstep.
  destruct (stopGame game (runtime w)) as [game1 rt1].
  destruct (regenerate (players game1) rt1) as [ps rt2].
  intros [<- _]%Done_inj. exact Hstep.
Qed.

Lemma on_disconnect_shape sid w w' out :
  on_disconnect sid w = Done w' out → world_step w w'.
Proof.
  unfold on_disconnect, removePlayer.
  destruct (socketGame sid w) as [[room game]|] eqn:Hsock;
    [|intros [<- _]%Done_inj; constructor].
  apply socketGame_Some in Hsock as (_ & _ & Hg).
  cbn [players with_players].
  destruct (decide (JsMap.delete sid (players game) = [])) as [Hnil|Hnil].
  + rewrite Hnil. cbn [JsMap.size length].
    rewrite bool_decide_eq_true_2 by done.
    rewrite stopGame_with_players. cbn [players with_players JsMap.size length].
    rewrite bool_decide_eq_true_2 by done.
    intros [<- _]%Done_inj.
    exact (world_teardown w room game sid Hg Hnil).
  + assert (Hsize : JsMap.size (JsMap.delete sid (players game)) ≠ 0%nat).
    { unfold JsMap.size. by destruct (JsMap.delete sid (players game)). }
    rewrite bool_decide_eq_false_2 by done. cbn [players with_players].
    rewrite bool_decide_eq_false_2 by done.
    intros [<- _]%Done_inj.
    exact (world_room w room _ _ (socketRoom w)
      (step_leave room (runtime w) _ game sid Hg Hnil)).
Qed.

Lemma on_drawTick_shape r w w' out :
  on_drawTick r w = Done w' out → world_step w w'.
Proof.
  unfold on_drawTick.
  destruct (JsMap.get r (games w)) as [game|] eqn:Hg;
    [|intros [<- _]%Done_inj; constructor].
  destruct (callInterval game) as [handle|] eqn:Hh;
    [|intros [<- _]%Done_inj; constructor].
  case_bool_decide as Hactive; [|intros [<- _]%Done_inj; constructor].
  pose proof (world_room w r _ _ (socketRoom w)
    (step_tick r (runtime w) _ game handle Hg Hh Hactive)) as Hstep.
  destruct (callNumber game (runtime w)) as [[number game'] rt'].
  intros [<- _]%Done_inj. exact Hstep.
Qed.

Lemma handle_shape ev w w' out : handle ev w = Done w' out → world_step w w'.
Proof.
  destruct ev; cbn [handle].
  - apply on_joinGame_shape.
  - apply on_startGame_shape.
  - apply on_markCell_shape.
  - apply on_claimBingo_shape.
  - apply on_newGame_shape.
  - apply on_disconnect_shape.
  - apply on_drawTick_shape.
  - unfold on_broadcast. intros [<- _]%Done_inj. constructor.
Qed.

(** ** What the methods leave alone *)

Lemma advance_0 rt : advance 0 rt = rt.
Proof. by destruct rt. Qed.

Lemma advance_advance a b rt : advance a (advance b rt) = advance (a + b) rt.
Proof. unfold advance. cbn. f_equal. lia. Qed.

Lemma randomBelow_advance n rt : (randomBelow n rt).2 = advance 1 rt.
Proof. reflexivity. Qed.

Lemma fillColumn_runtime col rows :
  ∀ numbers available rt,
    (fillColumn col rows numbers available rt).2 =
      advance (length (filter (λ row, ¬ (col = 2 ∧ row = 2)%nat) rows)) rt.
Proof.
  induction rows as [|row rows IH]; intros numbers available rt.
  - cbn [fillColumn snd]. by rewrite filter_nil, advance_0.
  - cbn [fillColumn].
    destruct (bool_decide (col = 2%nat) && bool_decide (row = 2%nat)) eqn:Hfree.
    + apply andb_true_iff in Hfree as [Hc%bool_decide_eq_true Hr%bool_decide_eq_true].
      rewrite IH, filter_cons_False; [done|]. intros Hnot. by apply Hnot.
    + assert (Hnot : ¬ (col = 2 ∧ row = 2)%nat).
      { intros [-> ->]. by rewrite !bool_decide_eq_true_2 in Hfree. }
      pose proof (randomBelow_advance (length available) rt) as Hrt.
      destruct (randomBelow (length available) rt) as [randomIndex rt1].
      cbn [snd] in Hrt. subst rt1. unfold splice1.
      rewrite IH, filter_cons_True by done. cbn [length].
      rewrite advance_advance. f_equal. lia.
Qed.

Lemma fillColumn_drawn col :
  length (filter (λ row, ¬ (col = 2 ∧ row = 2)%nat) (seq 0 5)) = drawn_cells col.
Proof.
  unfold drawn_cells. case_bool_decide as Hcol.
  - subst col. reflexivity.
  - change (seq 0 5) with [0; 1; 2; 3; 4]%nat.
    rewrite !filter_cons_True, filter_nil by (by intros [? _]). done.
Qed.

Lemma fillCard_runtime cols :
  ∀ card rt,
    (fillCard cols card rt).2 = advance (sum_list (drawn_cells <$> cols)) rt.
Proof.
  induction cols as [|col cols IH]; intros card rt.
  - cbn. by rewrite advance_0.
  - cbn [fillCard].
    destruct (default (0, 0) (ranges !! col)) as [min max].
    pose proof (fillColumn_runtime col (seq 0 5) [] (seqZ min (max - min + 1)) rt) as Hrt.
    rewrite fillColumn_drawn in Hrt.
    destruct (fillColumn col (seq 0 5) [] (seqZ min (max - min + 1)) rt)
      as [numbers rt1].
    cbn [snd] in Hrt. subst rt1. rewrite IH, advance_advance.
    rewrite fmap_cons. cbn [sum_list sum_list_with]. unfold Datatypes.id.
    f_equal. lia.
Qed.

Lemma generateBingoCard_runtime rt : (generateBingoCard rt).2 = advance 24 rt.
Proof. unfold generateBingoCard. by rewrite fillCard_runtime. Qed.

Lemma regenerate_runtime ps :
  ∀ rt, (regenerate ps rt).2 = advance (24 * length ps) rt.
Proof.
  induction ps as [|[socketId player] ps IH]; intros rt; cbn [regenerate].
  - cbn. by rewrite advance_0.
  - pose proof (generateBingoCard_runtime rt) as Hrt.
    destruct (generateBingoCard rt) as [card0 rt1]. cbn [snd] in Hrt. subst rt1.
    pose proof (IH (advance 24 rt)) as Hrt.
    destruct (regenerate ps (advance 24 rt)) as [ps' rt2]. cbn [snd] in *.
    subst rt2. rewrite advance_advance. f_equal. cbn [length]. lia.
Qed.

(** [regenerate] keeps ids and names, in order. *)
Lemma regenerate_players ps :
  ∀ rt, Forall2
          (λ old new, new.1 = old.1 ∧ id new.2 = id old.2 ∧
                      name new.2 = name old.2 ∧ markedCells new.2 = [] ∧
                      valid_card (card new.2))
          ps (regenerate ps rt).1.
Proof.
  induction ps as [|[socketId player] ps IH]; intros rt; cbn [regenerate].
  - constructor.
  - pose proof (card_generated_valid rt) as Hcard.
    destruct (generateBingoCard rt) as [card0 rt1]. cbn [fst] in Hcard.
    specialize (IH rt1). destruct (regenerate ps rt1) as [ps' rt2].
    cbn [fst] in *. by constructor.
Qed.

(** A draw when something is left to draw. *)
Lemma callNumber_draw g rt :
  filter (λ num, num ∉ calledNumbers g) (seqZ 1 75) ≠ [] →
  ∃ number,
    (number ∉ calledNumbers g) ∧ (1 ≤ number ≤ 75) ∧
    callNumber g rt =
      (Some number,
       {| roomId := roomId g; players := players g;
          calledNumbers := calledNumbers g ++ [number];
          currentNumber := Some number; gameState := gameState g;
          winner := winner g; callInterval := callInterval g |},
       advance 1 rt).
Proof.
  intros Havail. unfold callNumber.
  set (availableNumbers := filter (λ num, num ∉ calledNumbers g) (seqZ 1 75)) in *.
  rewrite bool_decide_eq_false_2
    by (intros Hlen; by apply nil_length_inv in Hlen).
  assert (Hpos : (0 < length availableNumbers)%nat).
  { destruct availableNumbers; [done|]. cbn. lia. }
  pose proof (randomBelow_lt (length availableNumbers) rt Hpos) as Hidx.
  pose proof (randomBelow_advance (length availableNumbers) rt) as Hrt.
  destruct (randomBelow (length availableNumbers) rt) as [randomIndex rt'].
  cbn [fst snd] in Hidx, Hrt. subst rt'.
  destruct (lookup_lt_is_Some_2 availableNumbers randomIndex Hidx) as [number Hn].
  exists number. rewrite Hn. cbn [default from_option].
  apply list_elem_of_lookup_2 in Hn.
  apply list_elem_of_filter in Hn as [Hnot Hseq]. apply elem_of_seqZ in Hseq.
  split_and!; [done|lia|lia|done].
Qed.

(** [startGame] on a waiting room: one number is called at once and a new
    timer is running. *)
Lemma startGame_waiting_eq g rt :
  gameState g = waiting →
  ∃ number,
    1 ≤ number ≤ 75 ∧
    startGame g rt =
      ({| roomId := roomId g; players := players g;
          calledNumbers := [number]; currentNumber := Some number;
          gameState := playing; winner := None;
          callInterval := Some (nextTimer rt) |},
       advance 1 (setInterval rt).2).
Proof.
  intros Hstate. unfold startGame. rewrite Hstate.
  rewrite bool_decide_eq_false_2 by (intros H; by apply H).
  cbn [setInterval].
  match goal with
  | |- context [callNumber ?g1 ?rt1] =>
      destruct (callNumber_draw g1 rt1) as (number & _ & Hrange & Heq)
  end.
  { cbn [calledNumbers]. intros Hnil.
    pose proof (available_length [] (conj (NoDup_nil_2) (λ n H, False_ind _ (not_elem_of_nil n H))))
      as Hlen.
    rewrite Hnil in Hlen. cbn in Hlen. lia. }
  exists number. split; [done|]. by rewrite Heq.
Qed.

Lemma resetGame_eq g rt :
  resetGame g rt =
    ({| roomId := roomId g;
        players := (regenerate (players g) (stopGame g rt).2).1;
        calledNumbers := []; currentNumber := None; gameState := waiting;
        winner := None; callInterval := None |},
     advance (24 * length (players g)) (stopGame g rt).2).
Proof.
  unfold resetGame.
  destruct (stopGame_spec g rt) as (Hnone & _ & Hrid & Hps & _).
  destruct (stopGame g rt) as [g1 rt1]. cbn [fst snd] in *.
  pose proof (regenerate_runtime (players g1) rt1) as Hrt.
  destruct (regenerate (players g1) rt1) as [ps rt2] eqn:Hregen.
  cbn [snd] in Hrt. subst rt2. rewrite Hnone, Hrid, <-Hps, Hregen. done.
Qed.

(** ** The registry stays well formed *)

Lemma startGame_frame g rt :
  roomId (startGame g rt).1 = roomId g ∧ players (startGame g rt).1 = players g.
Proof.
  destruct (decide (gameState g = waiting)) as [Hstate|Hstate].
  - destruct (startGame_waiting_eq g rt Hstate) as (n & _ & ->). done.
  - by rewrite startGame_not_waiting.
Qed.

Lemma callNumber_frame g rt :
  roomId (callNumber g rt).1.2 = roomId g ∧
  players (callNumber g rt).1.2 = players g ∧
  gameState (callNumber g rt).1.2 = gameState g ∧
  winner (callNumber g rt).1.2 = winner g.
Proof.
  destruct (callNumber_cases g rt)
    as [[_ ->]|(n & _ & _ & _ & _ & Hrid & Hps & Hstate & Hwin & _)];
    [|done].
  cbn [fst snd]. destruct (stopGame_spec g rt) as (_ & _ & ? & ? & _ & _ & ? & ?).
  done.
Qed.

Lemma room_ok_set room g socketId player player' :
  room_ok room g →
  JsMap.get socketId (players g) = Some player →
  id player' = id player →
  room_ok room (with_players g (JsMap.set socketId player' (players g))).
Proof.
  intros (Hrid & Hne & Hnd & Hids) Hp Hid. split_and!.
  - done.
  - apply set_nonempty.
  - by apply NoDup_keys_set.
  - intros sid p [Heq|Hin]%elem_of_set; [|by apply Hids].
    apply pair_equal_spec in Heq as [-> ->]. rewrite Hid.
    apply Hids. by apply get_Some_elem.
Qed.

Lemma room_ok_fields room g g' :
  room_ok room g → roomId g' = roomId g → players g' = players g →
  room_ok room g'.
Proof. intros Hok Hrid Hps. unfold room_ok. by rewrite Hrid, Hps. Qed.

Lemma game_step_registry room rt old g' rt' :
  (∀ g, old = Some g → room_ok room g) →
  game_step room rt old g' rt' → room_ok room g'.
Proof.
  intros Hold Hstep.
  destruct Hstep as [sid nm|g Hg|g sid p row col column Hg Hp _ _
    |g sid p Hg _ Hp _|g sid p Hg _ Hp _|g Hg|g sid Hg Hne|g h Hg _ _].
  - rewrite addPlayer_game.
    assert (Hpre : roomId (default (newBingoGame room) old) = room ∧
                   NoDup (JsMap.keys (players (default (newBingoGame room) old))) ∧
                   ∀ socketId player,
                     (socketId, player) ∈ players (default (newBingoGame room) old) →
                     id player = socketId).
    { destruct old as [g|]; cbn [default from_option].
      - destruct (Hold g eq_refl) as (? & _ & ? & ?). done.
      - split_and!; [done|apply NoDup_nil_2|]. by intros ? ? ?%elem_of_nil. }
    destruct Hpre as (Hrid & Hnd & Hids). split_and!.
    + done.
    + apply set_nonempty.
    + by apply NoDup_keys_set.
    + intros socketId player [Heq|Hin]%elem_of_set; [|by apply Hids].
      by apply pair_equal_spec in Heq as [-> ->].
  - destruct (startGame_frame g rt). by eapply room_ok_fields; [apply Hold|..].
  - by apply (room_ok_set room g sid p); [apply Hold|..].
  - rewrite (checkWin_game _ _ _ Hp).
    by apply (room_ok_set room g sid p); [apply Hold|..].
  - rewrite (checkWin_game _ _ _ Hp).
    destruct (stopGame_spec
                (finishGame
                   (with_players g
                      (JsMap.set sid
                         (with_markedCells p (JsSet.add freeIndex (markedCells p)))
                         (players g))) (name p)) rt)
      as (_ & _ & Hrid & Hps & _).
    eapply room_ok_fields; [|exact Hrid|exact Hps].
    by apply (room_ok_set room g sid p); [apply Hold|..].
  - rewrite resetGame_eq. cbn [fst].
    destruct (Hold g Hg) as (Hrid & Hne & Hnd & Hids).
    pose proof (regenerate_players (players g) (stopGame g rt).2) as Hregen.
    assert (Hkeys : JsMap.keys (regenerate (players g) (stopGame g rt).2).1 =
                    JsMap.keys (players g)).
    { apply regenerate_spec. }
    split_and!; cbn [roomId players].
    + done.
    + intros Hnil. apply Hne. clear Hregen. rewrite Hnil in Hkeys.
      unfold JsMap.keys in Hkeys. symmetry in Hkeys.
      by apply fmap_nil_inv in Hkeys.
    + by rewrite Hkeys.
    + intros sid p' Hin. apply list_elem_of_lookup in Hin as [i Hi].
      destruct (Forall2_lookup_r _ _ _ _ _ Hregen Hi)
        as ([sid0 p0] & Hi0 & Hk & Hid & _).
      cbn [fst snd] in *. subst sid0. rewrite Hid.
      apply Hids. by eapply list_elem_of_lookup_2.
  - destruct (Hold g Hg) as (Hrid & _ & Hnd & Hids). split_and!.
    + done.
    + done.
    + by apply NoDup_keys_delete.
    + intros socketId player Hin%elem_of_delete. by apply Hids.
  - destruct (callNumber_frame g rt) as (? & ? & _).
    by eapply room_ok_fields; [apply Hold|..].
Qed.

Lemma world_step_registry w w' :
  registry_inv w → world_step w w' → registry_inv w'.
Proof.
  intros [Hnd Hrooms] Hstep.
  destruct Hstep as [|room g' rt' sr' Hgame|room game sid Hg Hnil]; [done|..].
  - split; cbn [games].
    + by apply NoDup_keys_set.
    + intros r g. rewrite get_set. case_decide as Hr.
      * intros [= <-]. subst r. eapply game_step_registry; [|exact Hgame].
        intros g0 Hg0. by apply Hrooms.
      * apply Hrooms.
  - split; cbn [games with_games].
    + by apply NoDup_keys_delete.
    + intros r g Hget. destruct (decide (room = r)) as [->|Hne].
      * by rewrite get_delete_eq in Hget.
      * rewrite get_delete_ne in Hget by done. by apply Hrooms.
Qed.

(** ** History and marks *)

Lemma eligible_mono v called called' :
  eligible v called → (∀ n, n ∈ called → n ∈ called') → eligible v called'.
Proof.
  intros [->|(n & -> & Hn)] Hsub; [by left|]. right. exists n. split; [done|].
  by apply Hsub.
Qed.

Lemma mark_ok_mono card called called' i :
  mark_ok card called i → (∀ n, n ∈ called → n ∈ called') →
  mark_ok card called' i.
Proof.
  intros (Hi & v & Hcell & Hv) Hsub. split; [done|]. exists v.
  split; [done|]. by eapply eligible_mono.
Qed.

Lemma mark_ok_free card called : valid_card card → mark_ok card called freeIndex.
Proof.
  intros (_ & Hfree & _). split; [by compute|]. exists FREE.
  split; [exact Hfree|by left].
Qed.

(** The index that [markCell] adds is the index of the cell it looked at. *)
Lemma mark_ok_cell (card : Card) called row col column :
  valid_card card →
  at_index card col = Some column →
  eligible (default Undefined (at_index column row)) called →
  0 ≤ row < 5 ∧ 0 ≤ col < 5 ∧ mark_ok card called (row * 5 + col).
Proof.
  intros ([Hlen Hcols] & _) Hcol Hel.
  destruct (at_index column row) as [v|] eqn:Hrow;
    [|by destruct Hel as [?|(n & ? & _)]].
  cbn [default from_option] in Hel.
  pose proof Hcol as Hcol'. pose proof Hrow as Hrow'.
  apply at_index_Some in Hcol' as [Hc0 Hc]. apply at_index_Some in Hrow' as [Hr0 Hr].
  assert (Hlen' : length column = 5%nat).
  { rewrite Forall_forall in Hcols. apply Hcols. by eapply list_elem_of_lookup_2. }
  apply lookup_lt_Some in Hc, Hr.
  assert (Hmod : (row * 5 + col) `mod` 5 = col).
  { symmetry. apply (Z.mod_unique_pos _ _ row); lia. }
  assert (Hdiv : (row * 5 + col) `div` 5 = row).
  { symmetry. apply (Z.div_unique_pos _ _ _ col); lia. }
  split; [lia|]. split; [lia|]. split; [lia|].
  exists v. split; [|done]. unfold cell_at. by rewrite Hmod, Hdiv, Hcol.
Qed.

Lemma play_inv_new room : play_inv (newBingoGame room).
Proof. split_and!; [done|done|by intros []|by intros ? ? ?%elem_of_nil]. Qed.

Lemma play_inv_set g socketId player' :
  play_inv g →
  (∀ i, i ∈ markedCells player' → mark_ok (card player') (calledNumbers g) i) →
  play_inv (with_players g (JsMap.set socketId player' (players g))).
Proof.
  intros (Hw & Hcur & Hne & Hmarks) Hnew. split_and!; [done..|].
  intros sid p [Heq|Hin]%elem_of_set; [|by eapply Hmarks].
  by apply pair_equal_spec in Heq as [-> ->].
Qed.

Lemma play_inv_fields g g' :
  play_inv g →
  calledNumbers g' = calledNumbers g → currentNumber g' = currentNumber g →
  players g' = players g →
  (gameState g' = waiting → gameState g = waiting) →
  (gameState g = waiting → gameState g' = waiting) →
  play_inv g'.
Proof.
  intros (Hw & Hcur & Hne & Hmarks) Hcalled Hcurrent Hps Hs1 Hs2.
  unfold play_inv. rewrite Hcalled, Hcurrent, Hps. split_and!; try done.
  - intros H. by apply Hw, Hs1.
  - intros H. apply Hne. intros H'. by apply H, Hs2.
Qed.

Lemma play_inv_marked g socketId player i :
  game_inv g → play_inv g →
  JsMap.get socketId (players g) = Some player →
  mark_ok (card player) (calledNumbers g) i →
  play_inv
    (with_players g
       (JsMap.set socketId
          (with_markedCells player (JsSet.add i (markedCells player)))
          (players g))).
Proof.
  intros Hinv Hplay Hp Hi. apply play_inv_set; [done|].
  cbn [card markedCells with_markedCells].
  intros j [->|Hj]%JsSet_elem_of_add; [done|].
  destruct Hplay as (_ & _ & _ & Hmarks). eapply Hmarks; [|done].
  by apply get_Some_elem.
Qed.

Lemma game_step_play room rt old g' rt' :
  (∀ g, old = Some g → game_inv g ∧ play_inv g) →
  game_step room rt old g' rt' → play_inv g'.
Proof.
  intros Hold Hstep.
  destruct Hstep as [sid nm|g Hg|g sid p row col column Hg Hp Hcol Hel
    |g sid p Hg Hst Hp _|g sid p Hg Hst Hp _|g Hg|g sid Hg Hne|g h Hg Hh _].
  - rewrite addPlayer_game. apply play_inv_set.
    + destruct old as [g|]; [apply (Hold g eq_refl)|apply play_inv_new].
    + by intros i ?%elem_of_nil.
  - destruct (Hold g Hg) as [_ (Hw & Hcur & Hne & Hmarks)].
    destruct (decide (gameState g = waiting)) as [Hstate|Hstate].
    + destruct (startGame_waiting_eq g rt Hstate) as (n & _ & ->). cbn [fst].
      split_and!; [done|done|done|]. cbn [players calledNumbers].
      intros s p Hin i Hi. eapply mark_ok_mono; [by eapply Hmarks|].
      rewrite (Hw Hstate). by intros ? ?%elem_of_nil.
    + rewrite startGame_not_waiting by done. by split_and!.
  - destruct (Hold g Hg) as [Hinv Hplay].
    apply play_inv_marked; [done..|].
    eapply mark_ok_cell; [|exact Hcol|exact Hel].
    destruct Hinv as (_ & _ & Hps). apply (Hps sid). by apply get_Some_elem.
  - destruct (Hold g Hg) as [Hinv Hplay]. rewrite (checkWin_game _ _ _ Hp).
    apply play_inv_marked; [done..|]. apply mark_ok_free.
    destruct Hinv as (_ & _ & Hps). apply (Hps sid). by apply get_Some_elem.
  - destruct (Hold g Hg) as [Hinv Hplay]. rewrite (checkWin_game _ _ _ Hp).
    match goal with
    | |- play_inv (stopGame ?g2 rt).1 =>
        destruct (stopGame_spec g2 rt)
          as (_ & _ & _ & Hps & Hcalled & Hcur & Hstate & _)
    end.
    assert (Hchecked : play_inv
      (with_players g
         (JsMap.set sid
            (with_markedCells p (JsSet.add freeIndex (markedCells p)))
            (players g)))).
    { apply play_inv_marked; [done..|]. apply mark_ok_free.
      destruct Hinv as (_ & _ & Hvalid). apply (Hvalid sid). by apply get_Some_elem. }
    destruct Hchecked as (Hw & Hcurrent & Hne & Hmarks).
    unfold play_inv. rewrite Hps, Hcalled, Hcur, Hstate. cbn in *.
    split_and!; [done|done| |done].
    intros _. apply Hne. by rewrite Hst.
  - rewrite resetGame_eq. cbn [fst]. split_and!; [done|done|by intros []|].
    cbn [players calledNumbers]. intros s p Hin i Hi.
    pose proof (regenerate_players (players g) (stopGame g rt).2) as Hregen.
    apply list_elem_of_lookup in Hin as [k Hk].
    destruct (Forall2_lookup_r _ _ _ _ _ Hregen Hk) as (? & _ & _ & _ & _ & Hnil & _).
    cbn [snd] in Hnil. rewrite Hnil in Hi. by apply elem_of_nil in Hi.
  - destruct (Hold g Hg) as [_ (Hw & Hcur & Hnempty & Hmarks)]. split_and!; [done..|].
    intros s p Hin%elem_of_delete. by eapply Hmarks.
  - destruct (Hold g Hg) as [Hinv Hplay].
    assert (Hplaying : gameState g = playing).
    { destruct Hinv as ([Hsome _] & _). apply Hsome. by rewrite Hh. }
    destruct (decide (filter (λ num, num ∉ calledNumbers g) (seqZ 1 75) = []))
      as [Hnil|Hsome].
    + destruct (callNumber_cases g rt) as [[_ ->]|(n & Hin & _)];
        [|rewrite Hnil in Hin; by apply elem_of_nil in Hin].
      cbn [fst snd].
      destruct (stopGame_spec g rt) as (_ & _ & _ & Hps & Hcalled & Hcur & Hstate & _).
      eapply play_inv_fields; [exact Hplay|done..| |]; by rewrite Hstate.
    + destruct (callNumber_draw g rt Hsome) as (n & _ & _ & ->). cbn [fst snd].
      destruct Hplay as (Hw & Hcur & Hnempty & Hmarks).
      split_and!; cbn [gameState calledNumbers currentNumber players].
      * intros H. congruence.
      * by rewrite last_snoc.
      * intros _. by destruct (calledNumbers g).
      * intros s p Hin i Hi. eapply mark_ok_mono; [by eapply Hmarks|].
        intros m Hm. apply elem_of_app. by left.
Qed.

(** ** No timer is lost and none is left behind *)

Lemma timers_inv_alt w :
  timers_inv w ↔
  (∀ room handle, handle_of w room = Some handle →
     handle ∈ activeTimers (runtime w)) ∧
  (∀ handle, handle ∈ activeTimers (runtime w) →
     ∃ room, handle_of w room = Some handle) ∧
  (∀ room1 room2 handle,
     handle_of w room1 = Some handle → handle_of w room2 = Some handle →
     room1 = room2) ∧
  (∀ handle, handle ∈ activeTimers (runtime w) → (handle < nextTimer (runtime w))%nat).
Proof.
  unfold timers_inv, handle_of. split.
  - intros (H1 & H2 & H3 & H4). split_and!; [| | |done].
    + intros room h Hh. destruct (JsMap.get room (games w)) as [g|] eqn:Hg; [|done].
      by eapply H1.
    + intros h Hh. destruct (H2 h Hh) as (room & g & Hg & Hc).
      exists room. by rewrite Hg.
    + intros r1 r2 h Hh1 Hh2.
      destruct (JsMap.get r1 (games w)) as [g1|] eqn:Hg1; [|done].
      destruct (JsMap.get r2 (games w)) as [g2|] eqn:Hg2; [|done].
      by eapply H3.
  - intros (H1 & H2 & H3 & H4). split_and!; [| | |done].
    + intros room g h Hg Hc. apply (H1 room). by rewrite Hg.
    + intros h Hh. destruct (H2 h Hh) as (room & Hr).
      destruct (JsMap.get room (games w)) as [g|] eqn:Hg; [|done].
      by exists room, g.
    + intros r1 r2 g1 g2 h Hg1 Hg2 Hc1 Hc2. apply (H3 r1 r2 h).
      * by rewrite Hg1.
      * by rewrite Hg2.
Qed.

Lemma timer_change_advance rt old new rt' k :
  timer_change rt old new rt' → timer_change rt old new (advance k rt').
Proof.
  intros [rt1 ? ?|rt1 ? ? ?|h rt1 ? ? ?].
  - by apply timers_kept.
  - by apply timer_set.
  - by apply (timer_cleared rt old h).
Qed.

Lemma stopGame_timers g rt :
  timer_change rt (callInterval g) (callInterval (stopGame g rt).1) (stopGame g rt).2.
Proof.
  unfold stopGame. destruct (callInterval g) as [h|] eqn:Hh; cbn [fst snd].
  - by apply (timer_cleared rt (Some h) h).
  - rewrite Hh. by apply timers_kept.
Qed.

Lemma timer_change_old rt old old' new rt' :
  old = old' → timer_change rt old' new rt' → timer_change rt old new rt'.
Proof. by intros ->. Qed.

Lemma timer_change_new rt old new new' rt' :
  new = new' → timer_change rt old new' rt' → timer_change rt old new rt'.
Proof. by intros ->. Qed.

Lemma game_step_timers room rt old g' rt' :
  (∀ g, old = Some g → timer_inv g) →
  game_step room rt old g' rt' →
  timer_change rt (old ≫= callInterval) (callInterval g') rt'.
Proof.
  intros Hold Hstep.
  destruct Hstep as [sid nm|g Hg|g sid p row col column Hg Hp Hcol Hel
    |g sid p Hg Hst Hp _|g sid p Hg Hst Hp _|g Hg|g sid Hg Hne|g h Hg Hh _].
  - rewrite addPlayer_game, addPlayer_runtime, generateBingoCard_runtime.
    apply timer_change_advance. cbn [callInterval with_players].
    apply (timer_change_new _ _ _ (old ≫= callInterval)); [by destruct old|].
    by apply timers_kept.
  - subst old. cbn [mbind option_bind].
    destruct (decide (gameState g = waiting)) as [Hstate|Hstate].
    + destruct (startGame_waiting_eq g rt Hstate) as (n & _ & ->). cbn [fst snd callInterval].
      apply timer_change_advance.
      assert (Hnone : callInterval g = None).
      { destruct (Hold g eq_refl) as [Hsome _].
        destruct (callInterval g) eqn:Hh; [|done].
        specialize (Hsome ltac:(done)). congruence. }
      rewrite Hnone. by apply timer_set.
    + rewrite startGame_not_waiting by done. by apply timers_kept.
  - subst old. by apply timers_kept.
  - subst old. rewrite (checkWin_game _ _ _ Hp). by apply timers_kept.
  - subst old. rewrite (checkWin_game _ _ _ Hp).
    refine (timer_change_old _ _ _ _ _ _ (stopGame_timers _ _)). reflexivity.
  - subst old. rewrite resetGame_eq. cbn [fst snd callInterval mbind option_bind].
    apply timer_change_advance.
    destruct (stopGame_spec g rt) as (Hnone & _).
    refine (timer_change_new _ _ _ _ _ _ (stopGame_timers g rt)). by rewrite Hnone.
  - subst old. by apply timers_kept.
  - subst old. cbn [mbind option_bind].
    destruct (decide (filter (λ num, num ∉ calledNumbers g) (seqZ 1 75) = []))
      as [Hnil|Hsome].
    + destruct (callNumber_cases g rt) as [[_ ->]|(n & Hin & _)];
        [|rewrite Hnil in Hin; by apply elem_of_nil in Hin].
      cbn [fst snd]. exact (stopGame_timers g rt).
    + destruct (callNumber_draw g rt Hsome) as (n & _ & _ & ->).
      cbn [fst snd callInterval]. apply timer_change_advance. by apply timers_kept.
Qed.

(** One room's entry changes, its timer changes accordingly, and the
    relation between rooms and timers is kept. *)
Lemma timers_inv_update w w' room :
  timers_inv w →
  (∀ r, r ≠ room → handle_of w' r = handle_of w r) →
  timer_change (runtime w) (handle_of w room) (handle_of w' room) (runtime w') →
  timers_inv w'.
Proof.
  rewrite !timers_inv_alt. intros (H1 & H2 & H3 & H4) Hother Hchange.
  assert (Hcases : ∀ r, r = room ∨ (r ≠ room ∧ handle_of w' r = handle_of w r)).
  { intros r. destruct (decide (r = room)); [by left|right]. split; [done|].
    by apply Hother. }
  inversion Hchange as [rt1 Hact Hnext Hsame|rt1 Hnone Hact Hnext Hnew
                        |h0 rt1 Hold Hact Hnext Hnew]; subst rt1.
  - split_and!.
    + intros r h Hh. rewrite Hact. apply (H1 r).
      destruct (Hcases r) as [->|[_ <-]]; [by rewrite Hsame|done].
    + intros h Hh. rewrite Hact in Hh. destruct (H2 h Hh) as (r & Hr).
      exists r. destruct (Hcases r) as [->|[_ ->]]; [by rewrite <-Hsame|done].
    + intros r1 r2 h Hh1 Hh2. apply (H3 r1 r2 h).
      * destruct (Hcases r1) as [->|[_ <-]]; [by rewrite Hsame|done].
      * destruct (Hcases r2) as [->|[_ <-]]; [by rewrite Hsame|done].
    + intros h Hh. rewrite Hnext. apply H4. by rewrite <-Hact.
  - assert (Hfresh : ∀ r, handle_of w r ≠ Some (nextTimer (runtime w))).
    { intros r Hr. apply H1, H4 in Hr. lia. }
    split_and!.
    + intros r h Hh. rewrite Hact.
      destruct (Hcases r) as [->|[_ Heq]].
      * rewrite <-Hnew in Hh. injection Hh as <-. set_solver.
      * rewrite Heq in Hh. apply H1 in Hh. set_solver.
    + intros h Hh. rewrite Hact in Hh.
      apply elem_of_union in Hh as [->%elem_of_singleton|Hh].
      * by exists room.
      * destruct (H2 h Hh) as (r & Hr). exists r.
        destruct (Hcases r) as [->|[_ ->]]; [congruence|done].
    + intros r1 r2 h Hh1 Hh2.
      destruct (Hcases r1) as [->|[Hne1 Heq1]], (Hcases r2) as [->|[Hne2 Heq2]].
      * done.
      * rewrite <-Hnew in Hh1. injection Hh1 as <-. rewrite Heq2 in Hh2.
        by destruct (Hfresh r2).
      * rewrite <-Hnew in Hh2. injection Hh2 as <-. rewrite Heq1 in Hh1.
        by destruct (Hfresh r1).
      * rewrite Heq1 in Hh1. rewrite Heq2 in Hh2. by apply (H3 r1 r2 h).
    + intros h Hh. rewrite Hnext. rewrite Hact in Hh.
      apply elem_of_union in Hh as [->%elem_of_singleton|Hh]; [lia|].
      apply H4 in Hh. lia.
  - split_and!.
    + intros r h Hh. rewrite Hact.
      destruct (Hcases r) as [->|[Hne Heq]]; [congruence|].
      rewrite Heq in Hh. apply elem_of_difference. split; [by apply (H1 r)|].
      intros ->%elem_of_singleton. apply Hne. apply (H3 r room h0); [done|].
      by rewrite <-Hold.
    + intros h Hh. rewrite Hact in Hh.
      apply elem_of_difference in Hh as [Hh Hne].
      destruct (H2 h Hh) as (r & Hr). exists r.
      destruct (Hcases r) as [->|[_ ->]]; [|done].
      destruct Hne. apply elem_of_singleton. congruence.
    + intros r1 r2 h Hh1 Hh2.
      destruct (Hcases r1) as [->|[Hne1 Heq1]]; [congruence|].
      destruct (Hcases r2) as [->|[Hne2 Heq2]]; [congruence|].
      rewrite Heq1 in Hh1. rewrite Heq2 in Hh2. by apply (H3 r1 r2 h).
    + intros h Hh. rewrite Hnext. apply H4. rewrite Hact in Hh. set_solver.
Qed.

Lemma world_step_timers w w' :
  world_inv w → registry_inv w → timers_inv w →
  world_step w w' → timers_inv w'.
Proof.
  intros Hw [Hnd _] Htimers Hstep.
  destruct Hstep as [|room g' rt' sr' Hgame|room game sid Hg Hnil]; [done|..].
  - apply (timers_inv_update w _ room Htimers).
    + intros r Hne. unfold handle_of. cbn [games]. by rewrite get_set_ne.
    + unfold handle_of. cbn [games runtime]. rewrite get_set_eq.
      pose proof (game_step_timers _ _ _ _ _
        (λ g Hg, proj1 (Hw room g (get_Some_elem _ _ _ Hg))) Hgame) as Hchange.
      by destruct (JsMap.get room (games w)).
  - apply (timers_inv_update w _ room Htimers).
    + intros r Hne. unfold handle_of. cbn [games with_games].
      by rewrite get_delete_ne.
    + unfold handle_of. cbn [games runtime with_games].
      rewrite get_delete_eq, Hg by done.
      destruct (stopGame_spec game (runtime w)) as (Hnone & _).
      refine (timer_change_new _ _ _ _ _ _ (stopGame_timers game (runtime w))).
      by rewrite Hnone.
Qed.

(** ** Everything the server keeps true, in one invariant *)

Lemma world_step_server w w' :
  world_inv w' → server_inv w → world_step w w' → server_inv w'.
Proof.
  intros Hw' (Hw & Hreg & Hplay & Htimers) Hstep. split_and!.
  - done.
  - by eapply world_step_registry.
  - destruct Hstep as [|room g' rt' sr' Hgame|room game sid Hg Hnil]; [done|..].
    + intros r g. cbn [games]. rewrite get_set. case_decide as Hr.
      * intros [= <-]. eapply game_step_play; [|exact Hgame].
        intros g0 Hg0. split; [|by apply (Hplay room)].
        apply (Hw room). by apply get_Some_elem.
      * apply Hplay.
    + intros r g Hget. cbn [games with_games] in Hget.
      destruct (decide (room = r)) as [->|Hne].
      * rewrite get_delete_eq in Hget; [done|apply Hreg].
      * rewrite get_delete_ne in Hget by done. by apply (Hplay r).
  - by eapply world_step_timers.
Qed.

Lemma reachable_server random w : reachable random w → server_inv w.
Proof.
  induction 1 as [|w ev w' out Hreach IH Hstep].
  - split_and!.
    + by intros room g ?%elem_of_nil.
    + split; [apply NoDup_nil_2|done].
    + done.
    + apply timers_inv_alt. unfold handle_of. cbn. by split_and!.
  - apply (world_step_server w).
    + eapply handle_inv; [|exact Hstep]. apply IH.
    + done.
    + by eapply handle_shape.
Qed.

(** ** What holds in every state the server can reach *)

Lemma worldAfter_reachable random evs : reachable random (worldAfter evs random).
Proof.
  unfold worldAfter.
  destruct (outcome_world (run evs (initialWorld random))) as [w|] eqn:Hrun.
  - eapply run_reachable; [apply reachable_init|exact Hrun].
  - apply reachable_init.
Qed.

(** X1: the registry is well formed.  No room id is stored twice; a room
    is stored under the id it carries, has at least one player, and holds
    each player once, under the player's own socket id. *)
Theorem registry_well_formed random w room g :
  reachable random w →
  JsMap.get room (games w) = Some g →
  NoDup (JsMap.keys (games w)) ∧
  roomId g = room ∧
  (0 < JsMap.size (players g))%nat ∧
  NoDup (JsMap.keys (players g)) ∧
  ∀ socketId player,
    JsMap.get socketId (players g) = Some player → id player = socketId.
Proof.
  intros Hreach Hg.
  destruct (reachable_server _ _ Hreach) as (_ & [Hnd Hrooms] & _).
  destruct (Hrooms room g Hg) as (Hrid & Hne & Hndp & Hids).
  split_and!; [done|done| |done|].
  - unfold JsMap.size. destruct (players g); [done|]. cbn. lia.
  - intros sid p Hp. apply Hids. by apply get_Some_elem.
Qed.

Lemma registry_well_formed_witness :
  reachable (λ _, 0%N) (worldAfter pairRun (λ _, 0%N)) ∧
  JsMap.get "r" (games (worldAfter pairRun (λ _, 0%N))) =
    Some (roomOf (worldAfter pairRun (λ _, 0%N)) "r") ∧
  roomId (roomOf (worldAfter pairRun (λ _, 0%N)) "r") = "r".
Proof.
  assert (Hg : JsMap.get "r" (games (worldAfter pairRun (λ _, 0%N))) =
               Some (roomOf (worldAfter pairRun (λ _, 0%N)) "r")).
  { vm_compute. reflexivity. }
  split; [apply worldAfter_reachable|]. split; [exact Hg|].
  exact (proj1 (proj2 (registry_well_formed _ _ _ _
                         (worldAfter_reachable _ _) Hg))).
Defined.

(** X2: history and current number.  While a room waits nothing has been
    called; the current number is always the last number called; once a
    game has started a number of 1..75 is current. *)
Theorem history_current random w room g :
  reachable random w →
  JsMap.get room (games w) = Some g →
  (gameState g = waiting → calledNumbers g = [] ∧ currentNumber g = None) ∧
  currentNumber g = last (calledNumbers g) ∧
  (gameState g ≠ waiting →
     ∃ n, currentNumber g = Some n ∧ n ∈ calledNumbers g ∧ 1 ≤ n ≤ 75).
Proof.
  intros Hreach Hg.
  destruct (reachable_server _ _ Hreach) as (Hw & _ & Hplay & _).
  destruct (Hplay room g Hg) as (Hwait & Hcur & Hne & _).
  destruct (Hw room g (get_Some_elem _ _ _ Hg)) as (_ & [_ Hrange] & _).
  split_and!; [|done|].
  - intros Hstate. split; [by apply Hwait|]. by rewrite Hcur, (Hwait Hstate).
  - intros Hstate. specialize (Hne Hstate).
    destruct (last (calledNumbers g)) as [n|] eqn:Hlast.
    + exists n. pose proof (last_Some_elem_of _ _ Hlast) as Hin.
      split; [done|]. split; [done|]. by apply Hrange.
    + by apply last_None in Hlast.
Qed.

Lemma history_current_witness :
  reachable (λ _, 0%N) (worldAfter columnRun (λ _, 0%N)) ∧
  JsMap.get "r" (games (worldAfter columnRun (λ _, 0%N))) =
    Some (roomOf (worldAfter columnRun (λ _, 0%N)) "r") ∧
  currentNumber (roomOf (worldAfter columnRun (λ _, 0%N)) "r") =
    last (calledNumbers (roomOf (worldAfter columnRun (λ _, 0%N)) "r")).
Proof.
  assert (Hg : JsMap.get "r" (games (worldAfter columnRun (λ _, 0%N))) =
               Some (roomOf (worldAfter columnRun (λ _, 0%N)) "r")).
  { vm_compute. reflexivity. }
  split; [apply worldAfter_reachable|]. split; [exact Hg|].
  exact (proj1 (proj2 (history_current _ _ _ _ (worldAfter_reachable _ _) Hg))).
Defined.



(** X4: a win is earned.  When [claimBingo] announces a winner, the card
    in the announcement has a line every cell of which is the free one or
    holds a called number, and the announced marks cover that line. *)
Theorem win_is_earned random w socketId w' out room winnerName winningCard marked :
  reachable random w →
  on_claimBingo socketId w = Done w' out →
  RoomEmit room (gameWon winnerName winningCard marked) ∈ out →
  ∃ g player L,
    JsMap.get room (games w) = Some g ∧
    JsMap.get socketId (players g) = Some player ∧
    winnerName = name player ∧ winningCard = card player ∧
    L ∈ all_lines ∧
    (∀ c, c ∈ L → c ∈ marked) ∧
    ∀ c, c ∈ L →
      ∃ v, cell_at winningCard (c `mod` 5) (c `div` 5) = Some v ∧
           eligible v (calledNumbers g).
Proof.
  intros Hreach Hrun Hout.
  destruct (socketGame socketId w) as [[room0 game]|] eqn:Hsock;
    [|unfold on_claimBingo in Hrun; rewrite Hsock in Hrun;
      apply Done_inj in Hrun as [_ <-]; by apply elem_of_nil in Hout].
  destruct (decide (gameState game = playing)) as [Hstate|Hstate];
    [|unfold on_claimBingo in Hrun;
      rewrite Hsock, bool_decide_eq_true_2 in Hrun by done;
      apply Done_inj in Hrun as [_ <-]; by apply elem_of_nil in Hout].
  destruct (JsMap.get socketId (players game)) as [player|] eqn:Hp;
    [|unfold on_claimBingo in Hrun;
      rewrite Hsock, bool_decide_eq_false_2, Hp in Hrun by (intros H; by apply H);
      apply Done_inj in Hrun as [_ <-]; by apply elem_of_nil in Hout].
  rewrite (on_claimBingo_done _ _ _ _ _ Hsock Hstate Hp) in Hrun. cbv zeta in Hrun.
  pose proof (proj1 (socketGame_Some _ _ _ _) Hsock) as (_ & _ & Hg).
  destruct (hasLine (JsSet.add freeIndex (markedCells player))) eqn:Hline;
    apply Done_inj in Hrun as [_ <-];
    apply list_elem_of_singleton in Hout; [|done].
  assert (room = room0 ∧ winnerName = name player ∧ winningCard = card player ∧
          marked = JsSet.add freeIndex (markedCells player))
    as (-> & -> & -> & ->) by (by inversion Hout).
  apply hasLine_true in Hline as (L & HL & Hcov).
  exists game, player, L. split_and!; try done.
  intros c Hc.
  destruct (reachable_server _ _ Hreach) as (Hw & _ & Hplay & _).
  assert (Hok : mark_ok (card player) (calledNumbers game) c); [|apply Hok].
  apply Hcov, JsSet_elem_of_add in Hc as [->|Hc].
  - apply mark_ok_free.
    destruct (Hw room0 game (get_Some_elem _ _ _ Hg)) as (_ & _ & Hps).
    apply (Hps socketId). by apply get_Some_elem.
  - destruct (Hplay room0 game Hg) as (_ & _ & _ & Hmarks).
    apply (Hmarks socketId player); [by apply get_Some_elem|done].
Qed.

Lemma win_is_earned_witness :
  reachable (λ _, 0%N) (worldAfter columnRun (λ _, 0%N)) ∧
  on_claimBingo "s1" (worldAfter columnRun (λ _, 0%N)) =
    Done (worldAfter (columnRun ++ [ClaimBingo "s1"]) (λ _, 0%N))
         [RoomEmit "r" (gameWon "Ann" sampleCard [0; 5; 10; 15; 20; 12])] ∧
  ∃ L, L ∈ all_lines ∧ ∀ c, c ∈ L → c ∈ [0; 5; 10; 15; 20; 12].
Proof.
  assert (Hrun : on_claimBingo "s1" (worldAfter columnRun (λ _, 0%N)) =
    Done (worldAfter (columnRun ++ [ClaimBingo "s1"]) (λ _, 0%N))
         [RoomEmit "r" (gameWon "Ann" sampleCard [0; 5; 10; 15; 20; 12])]).
  { vm_compute. reflexivity. }
  split; [apply worldAfter_reachable|]. split; [exact Hrun|].
  destruct (win_is_earned _ _ _ _ _ _ _ _ _ (worldAfter_reachable _ _) Hrun
              ltac:(apply list_elem_of_singleton; reflexivity))
    as (g & player & L & _ & _ & _ & _ & HL & Hcov & _).
  exists L. split; [exact HL | exact Hcov].
Defined.

(** X5: timers are accounted for.  A handle kept by a room is a running
    timer and the room is playing; every running timer is the handle of a
    playing room of the registry; no two rooms share a timer. *)
Theorem timers_accounted random w :
  reachable random w →
  (∀ room g handle,
     JsMap.get room (games w) = Some g → callInterval g = Some handle →
     handle ∈ activeTimers (runtime w) ∧ gameState g = playing) ∧
  (∀ handle,
     handle ∈ activeTimers (runtime w) →
     ∃ room g,
       JsMap.get room (games w) = Some g ∧ callInterval g = Some handle ∧
       gameState g = playing) ∧
  (∀ room1 room2 g1 g2 handle,
     JsMap.get room1 (games w) = Some g1 → JsMap.get room2 (games w) = Some g2 →
     callInterval g1 = Some handle → callInterval g2 = Some handle →
     room1 = room2).
Proof.
  intros Hreach.
  destruct (reachable_server _ _ Hreach) as (Hw & _ & _ & (H1 & H2 & H3 & _)).
  assert (Hplaying : ∀ room g handle,
            JsMap.get room (games w) = Some g → callInterval g = Some handle →
            gameState g = playing).
  { intros room g handle Hg Hh.
    destruct (Hw room g (get_Some_elem _ _ _ Hg)) as ([Hsome _] & _).
    apply Hsome. by rewrite Hh. }
  split_and!.
  - intros room g handle Hg Hh. split; [by eapply H1|by eapply Hplaying].
  - intros handle Hh. destruct (H2 handle Hh) as (room & g & Hg & Hc).
    exists room, g. split_and!; [done..|]. by eapply Hplaying.
  - done.
Qed.

Lemma timers_accounted_witness :
  reachable (λ _, 0%N) (worldAfter pairRun (λ _, 0%N)) ∧
  ∀ handle,
    handle ∈ activeTimers (runtime (worldAfter pairRun (λ _, 0%N))) →
    ∃ room g,
      JsMap.get room (games (worldAfter pairRun (λ _, 0%N))) = Some g ∧
      callInterval g = Some handle ∧ gameState g = playing.
Proof.
  split; [apply worldAfter_reachable|].
  exact (proj1 (proj2 (timers_accounted _ _ (worldAfter_reachable _ _)))).
Defined.

(** X6: the timer makes progress.  In a playing room that has not called
    all 75 numbers, the timer's tick is enabled and calls exactly one
    number, one that was not called before; it becomes the current number;
    players, state, timer and the other rooms stay as they are and nothing
    is sent. *)
Theorem drawTick_progress random w room g :
  reachable random w →
  JsMap.get room (games w) = Some g →
  gameState g = playing →
  ¬ exhausted (calledNumbers g) →
  ∃ number w' g',
    (number ∉ calledNumbers g) ∧ (1 ≤ number ≤ 75) ∧
    on_drawTick room w = Done w' [] ∧
    JsMap.get room (games w') = Some g' ∧
    calledNumbers g' = calledNumbers g ++ [number] ∧
    currentNumber g' = Some number ∧
    gameState g' = playing ∧
    callInterval g' = callInterval g ∧
    players g' = players g ∧
    winner g' = winner g ∧
    activeTimers (runtime w') = activeTimers (runtime w) ∧
    ∀ other, other ≠ room →
      JsMap.get other (games w') = JsMap.get other (games w).
Proof.
  intros Hreach Hg Hstate Hleft.
  destruct (reachable_server _ _ Hreach) as (Hw & _ & _ & (H1 & _)).
  destruct (Hw room g (get_Some_elem _ _ _ Hg)) as ([_ Hnone] & _).
  destruct (callInterval g) as [handle|] eqn:Hh; [|by destruct Hleft; apply Hnone].
  assert (Havail : filter (λ num, num ∉ calledNumbers g) (seqZ 1 75) ≠ []).
  { intros Hnil. by apply Hleft, available_nil. }
  destruct (callNumber_draw g (runtime w) Havail) as (number & Hfresh & Hrange & Heq).
  unfold on_drawTick. rewrite Hg, Hh.
  rewrite bool_decide_eq_true_2 by (by eapply H1).
  rewrite Heq.
  eexists number, _, _. split; [done|]. split; [done|]. split; [reflexivity|].
  cbn [games with_games runtime]. rewrite get_set_eq.
  split; [reflexivity|]. cbn. split_and!; try done.
  intros other Hne. by apply get_set_ne.
Qed.

Lemma drawTick_progress_witness :
  reachable (λ _, 0%N) (worldAfter pairRun (λ _, 0%N)) ∧
  gameState (roomOf (worldAfter pairRun (λ _, 0%N)) "r") = playing ∧
  ∃ number w' g',
    on_drawTick "r" (worldAfter pairRun (λ _, 0%N)) = Done w' [] ∧
    JsMap.get "r" (games w') = Some g' ∧
    calledNumbers g' =
      calledNumbers (roomOf (worldAfter pairRun (λ _, 0%N)) "r") ++ [number].
Proof.
  assert (Hg : JsMap.get "r" (games (worldAfter pairRun (λ _, 0%N))) =
               Some (roomOf (worldAfter pairRun (λ _, 0%N)) "r")).
  { vm_compute. reflexivity. }
  assert (Hstate : gameState (roomOf (worldAfter pairRun (λ _, 0%N)) "r") = playing).
  { vm_compute. reflexivity. }
  assert (Hleft : ¬ exhausted (calledNumbers (roomOf (worldAfter pairRun (λ _, 0%N)) "r"))).
  { intros Hall. specialize (Hall 2 ltac:(lia)). revert Hall.
    apply (bool_decide_unpack _). vm_compute. exact I. }
  split; [apply worldAfter_reachable|]. split; [exact Hstate|].
  destruct (drawTick_progress _ _ _ _ (worldAfter_reachable _ _) Hg Hstate Hleft)
    as (number & w' & g' & _ & _ & Hrun & Hg' & Hcalled & _).
  exists number, w', g'. split; [exact Hrun|]. split; [exact Hg' | exact Hcalled].
Defined.

(** [disconnect], in two equations. *)
Lemma on_disconnect_last socketId room g w :
  socketGame socketId w = Some (room, g) →
  JsMap.delete socketId (players g) = [] →
  on_disconnect socketId w =
    Done (with_games w (JsMap.delete room (games w)) (stopGame g (runtime w)).2) [].
Proof.
  intros Hsock Hnil. unfold on_disconnect, removePlayer. rewrite Hsock.
  cbn [players with_players]. rewrite Hnil. cbn [JsMap.size length].
  rewrite bool_decide_eq_true_2 by done.
  rewrite stopGame_with_players. cbn [players with_players JsMap.size length].
  by rewrite bool_decide_eq_true_2.
Qed.

Lemma on_disconnect_other socketId room g w :
  socketGame socketId w = Some (room, g) →
  JsMap.delete socketId (players g) ≠ [] →
  on_disconnect socketId w =
    Done (with_games w
            (JsMap.set room (with_players g (JsMap.delete socketId (players g)))
               (games w))
            (runtime w))
         [ RoomEmit room
             (playerLeft
                (match JsMap.get socketId (players g) with
                 | Some player => name player
                 | None => "Unknown"
                 end)
                (JsMap.size (JsMap.delete socketId (players g)))) ].
Proof.
  intros Hsock Hne. unfold on_disconnect, removePlayer. rewrite Hsock.
  assert (Hsize : JsMap.size (JsMap.delete socketId (players g)) ≠ 0%nat).
  { unfold JsMap.size. by destruct (JsMap.delete socketId (players g)). }
  cbn [players with_players]. rewrite bool_decide_eq_false_2 by done.
  cbn [players with_players]. by rewrite bool_decide_eq_false_2.
Qed.





(** ** The handlers one by one *)

(** A socket without a room (its [roomId] is unset or empty, or the room is
    gone) can do nothing but join. *)
Lemma inert_socket socketId ev w :
  socketGame socketId w = None → sent_by socketId ev → handle ev w = Done w [].
Proof.
  intros Hsock Hev.
  destruct ev as [sid r nm|sid|sid row col|sid|sid|sid|r|]; cbn in Hev;
    try done; subst sid; cbn [handle].
  - unfold on_startGame. by rewrite Hsock.
  - unfold on_markCell. by rewrite Hsock.
  - unfold on_claimBingo. by rewrite Hsock.
  - unfold on_newGame. by rewrite Hsock.
  - unfold on_disconnect. by rewrite Hsock.
Qed.


(** X10: starting a waiting room.  The room becomes playing with a new
    running timer, one number of 1..75 is called at once and is current,
    the winner is cleared, the players are kept, and the room is sent the
    snapshot that already shows that number. *)
Theorem startGame_starts socketId room g w :
  socketGame socketId w = Some (room, g) →
  gameState g = waiting →
  ∃ number w' g',
    1 ≤ number ≤ 75 ∧
    on_startGame socketId w =
      Done w' [RoomEmit room (gameStarted (getState g'))] ∧
    JsMap.get room (games w') = Some g' ∧
    gameState g' = playing ∧
    calledNumbers g' = [number] ∧
    currentNumber g' = Some number ∧
    winner g' = None ∧
    callInterval g' = Some (nextTimer (runtime w)) ∧
    activeTimers (runtime w') = {[nextTimer (runtime w)]} ∪ activeTimers (runtime w) ∧
    nextTimer (runtime w') = S (nextTimer (runtime w)) ∧
    players g' = players g ∧ roomId g' = roomId g ∧
    ∀ other, other ≠ room →
      JsMap.get other (games w') = JsMap.get other (games w).
Proof.
  intros Hsock Hstate.
  destruct (startGame_waiting_eq g (runtime w) Hstate) as (number & Hrange & Heq).
  unfold on_startGame. rewrite Hsock, Heq.
  eexists number, _, _. split; [done|]. split; [reflexivity|].
  cbn [games runtime with_games]. rewrite get_set_eq.
  split; [reflexivity|]. cbn. split_and!; try done.
  intros other Hne. by apply get_set_ne.
Qed.

Lemma startGame_starts_witness :
  socketGame "s1" (worldAfter [JoinGame "s1" "r" "Ann"] (λ _, 0%N)) =
    Some ("r", roomOf (worldAfter [JoinGame "s1" "r" "Ann"] (λ _, 0%N)) "r") ∧
  ∃ number w' g',
    on_startGame "s1" (worldAfter [JoinGame "s1" "r" "Ann"] (λ _, 0%N)) =
      Done w' [RoomEmit "r" (gameStarted (getState g'))] ∧
    calledNumbers g' = [number].
Proof.
  assert (Hsock : socketGame "s1" (worldAfter [JoinGame "s1" "r" "Ann"] (λ _, 0%N)) =
    Some ("r", roomOf (worldAfter [JoinGame "s1" "r" "Ann"] (λ _, 0%N)) "r")).
  { vm_compute. reflexivity. }
  assert (Hstate : gameState (roomOf (worldAfter [JoinGame "s1" "r" "Ann"] (λ _, 0%N)) "r") =
                   waiting).
  { vm_compute. reflexivity. }
  split; [exact Hsock|].
  destruct (startGame_starts _ _ _ _ Hsock Hstate)
    as (number & w' & g' & _ & Hrun & _ & _ & Hcalled & _).
  exists number, w', g'. split; [exact Hrun | exact Hcalled].
Defined.

Lemma on_newGame_eq socketId room g w :
  socketGame socketId w = Some (room, g) →
  on_newGame socketId w =
    Done (with_games w
            (JsMap.set room (resetGame g (runtime w)).1 (games w))
            (resetGame g (runtime w)).2)
         (map (λ '(socketId, player),
                 RoomEmit socketId
                   (gameReset (card player) (getState (resetGame g (runtime w)).1)))
              (players (resetGame g (runtime w)).1)).
Proof.
  intros Hsock. unfold on_newGame, resetGame. rewrite Hsock.
  destruct (stopGame g (runtime w)) as [g1 rt1].
  by destruct (regenerate (players g1) rt1) as [ps rt2].
Qed.

(** X11: a reset.  [newGame] puts the room back to waiting with an empty
    history, no current number, no winner and no timer (the old one no
    longer runs); every player keeps id and name, in the same order, and
    gets a valid new card and an empty marked set; each player is sent that
    player's own card. *)
Theorem newGame_resets socketId room g w :
  socketGame socketId w = Some (room, g) →
  ∃ w' g',
    on_newGame socketId w =
      Done w' (map (λ '(socketId, player),
                      RoomEmit socketId (gameReset (card player) (getState g')))
                 (players g')) ∧
    JsMap.get room (games w') = Some g' ∧
    gameState g' = waiting ∧ calledNumbers g' = [] ∧
    currentNumber g' = None ∧ winner g' = None ∧ callInterval g' = None ∧
    (∀ handle, callInterval g = Some handle →
       handle ∉ activeTimers (runtime w')) ∧
    Forall2 (λ old new,
               new.1 = old.1 ∧ id new.2 = id old.2 ∧ name new.2 = name old.2 ∧
               markedCells new.2 = [] ∧ valid_card (card new.2))
            (players g) (players g') ∧
    randomCalls (runtime w') =
      (24 * JsMap.size (players g) + randomCalls (runtime w))%nat.
Proof.
  intros Hsock.
  eexists _, _. split; [by apply on_newGame_eq|].
  cbn [games runtime with_games]. rewrite get_set_eq.
  split; [reflexivity|]. rewrite resetGame_eq. cbn [fst snd].
  split_and!; try done.
  - intros handle Hh. cbn [activeTimers advance]. by apply stopGame_spec.
  - apply regenerate_players.
  - cbn [randomCalls advance]. unfold JsMap.size, stopGame.
    by destruct (callInterval g).
Qed.

Lemma newGame_resets_witness :
  socketGame "s1" (worldAfter columnRun (λ _, 0%N)) =
    Some ("r", roomOf (worldAfter columnRun (λ _, 0%N)) "r") ∧
  ∃ w' g',
    JsMap.get "r" (games w') = Some g' ∧
    gameState g' = waiting ∧ calledNumbers g' = [] ∧ callInterval g' = None.
Proof.
  assert (Hsock : socketGame "s1" (worldAfter columnRun (λ _, 0%N)) =
                  Some ("r", roomOf (worldAfter columnRun (λ _, 0%N)) "r")).
  { vm_compute. reflexivity. }
  split; [exact Hsock|].
  destruct (newGame_resets _ _ _ _ Hsock)
    as (w' & g' & _ & Hg' & Hstate & Hcalled & _ & _ & Htimer & _).
  exists w', g'. split; [exact Hg'|]. split; [exact Hstate|].
  split; [exact Hcalled | exact Htimer].
Defined.

(** X12: the rebroadcast.  The 100 ms loop changes nothing; it sends a
    [numberCalled] to every playing room, carrying the last number called
    and the full history, and nothing else. *)
Theorem broadcast_playing_rooms random w :
  reachable random w →
  ∃ out,
    on_broadcast w = Done w out ∧
    (∀ room g,
       JsMap.get room (games w) = Some g → gameState g = playing →
       ∃ n, last (calledNumbers g) = Some n ∧
            RoomEmit room (numberCalled n (calledNumbers g)) ∈ out) ∧
    (∀ e, e ∈ out →
       ∃ room g n,
         JsMap.get room (games w) = Some g ∧ gameState g = playing ∧
         last (calledNumbers g) = Some n ∧
         e = RoomEmit room (numberCalled n (calledNumbers g))).
Proof.
  intros Hreach.
  destruct (reachable_server _ _ Hreach) as (Hw & [Hnd Hrooms] & Hplay & _).
  eexists. split; [reflexivity|]. split.
  - intros room g Hg Hstate.
    destruct (Hplay room g Hg) as (_ & Hcur & Hne & _).
    destruct (Hw room g (get_Some_elem _ _ _ Hg)) as (_ & [_ Hrange] & _).
    destruct (Hrooms room g Hg) as (Hrid & _).
    destruct (last (calledNumbers g)) as [n|] eqn:Hlast;
      [|apply last_None in Hlast; destruct Hne; [congruence|done]].
    exists n. split; [done|]. apply list_elem_of_omap.
    exists (room, g). split; [by apply get_Some_elem|].
    rewrite Hcur, Hstate, Hrid.
    pose proof (Hrange n (last_Some_elem_of _ _ Hlast)) as Hn.
    rewrite bool_decide_eq_true_2 by done.
    by rewrite bool_decide_eq_true_2 by lia.
  - intros e He. apply list_elem_of_omap in He as ([room g] & Hin & He).
    pose proof (elem_get _ _ _ Hnd Hin) as Hg.
    destruct (Hplay room g Hg) as (_ & Hcur & _).
    destruct (Hrooms room g Hg) as (Hrid & _).
    destruct (currentNumber g) as [n|] eqn:Hn; [|done].
    destruct (bool_decide (gameState g = playing)) eqn:Hstate; [|done].
    apply bool_decide_eq_true in Hstate.
    destruct (bool_decide (n ≠ 0)); [|done]. cbn in He.
    exists room, g, n. split_and!; [done..|]. rewrite <-Hrid. congruence.
Qed.

Lemma broadcast_playing_rooms_witness :
  reachable (λ _, 0%N) (worldAfter columnRun (λ _, 0%N)) ∧
  ∃ out,
    on_broadcast (worldAfter columnRun (λ _, 0%N)) =
      Done (worldAfter columnRun (λ _, 0%N)) out ∧
    ∀ e, e ∈ out →
      ∃ room g n,
        JsMap.get room (games (worldAfter columnRun (λ _, 0%N))) = Some g ∧
        gameState g = playing ∧ last (calledNumbers g) = Some n ∧
        e = RoomEmit room (numberCalled n (calledNumbers g)).
Proof.
  split; [apply worldAfter_reachable|].
  destruct (broadcast_playing_rooms _ _
              (worldAfter_reachable (λ _, 0%N) columnRun))
    as (out & Hrun & _ & Honly).
  exists out. split; [exact Hrun | exact Honly].
Defined.

Lemma set_absent {K V} `{EqDecision K} (k : K) (v : V) (m : list (K * V)) :
  JsMap.get k m = None → JsMap.set k v m = m ++ [(k, v)].
Proof.
  induction m as [|[k' v'] m IH]; cbn [JsMap.get JsMap.set]; [done|].
  destruct (decide (k = k')) as [->|Hne]; [done|].
  intros Hget. cbn [app]. by rewrite IH.
Qed.

(** X13: a new player joins.  When the socket id is not yet in the room
    (or the room does not exist, in which case it is created, waiting and
    empty, at the end of the registry), the player is appended after the
    players already there, with the name asked for or ["Player N"], a valid
    card and no marks; the state of the game and the other rooms are
    untouched, and the socket now belongs to the room. *)
Theorem joinGame_new_player socketId room playerName w :
  (∀ g, JsMap.get room (games w) = Some g →
        JsMap.get socketId (players g) = None) →
  ∃ w' out g' player',
    on_joinGame socketId room playerName w = Done w' out ∧
    JsMap.get room (games w') = Some g' ∧
    players g' = players (roomOf w room) ++ [(socketId, player')] ∧
    id player' = socketId ∧
    name player' = joinedName playerName (roomOf w room) ∧
    valid_card (card player') ∧ markedCells player' = [] ∧
    gameState g' = gameState (roomOf w room) ∧
    calledNumbers g' = calledNumbers (roomOf w room) ∧
    winner g' = winner (roomOf w room) ∧
    callInterval g' = callInterval (roomOf w room) ∧
    (JsMap.get room (games w) = None → games w' = games w ++ [(room, g')]) ∧
    (∀ other, other ≠ room →
       JsMap.get other (games w') = JsMap.get other (games w)) ∧
    socketRoom w' !! socketId = Some room ∧
    out = [ SocketJoin socketId room;
            SocketEmit socketId
              (gameJoined (card player') (name player') (getState g'));
            RoomEmit room
              (playerJoined (name player') (S (JsMap.size (players (roomOf w room))))) ].
Proof.
  intros Hnew.
  pose proof (on_joinGame_done socketId room playerName w) as Hjoin.
  cbv zeta in Hjoin. fold (roomOf w room) in Hjoin.
  assert (Hfresh : JsMap.get socketId (players (roomOf w room)) = None).
  { unfold roomOf. destruct (JsMap.get room (games w)) as [g|] eqn:Hg; [|done].
    by apply Hnew. }
  rewrite (set_absent socketId _ (players (roomOf w room)) Hfresh) in Hjoin.
  eexists _, _, _, _. split; [exact Hjoin|].
  cbn [games socketRoom]. rewrite get_set_eq.
  split; [reflexivity|]. cbn [players with_players].
  split; [reflexivity|]. cbn [id name card markedCells].
  split_and!; try done.
  - apply card_generated_valid.
  - intros Hnone. by rewrite (set_absent _ _ _ Hnone).
  - intros other Hne. by apply get_set_ne.
  - apply lookup_insert_eq.
  - unfold JsMap.size. rewrite length_app. cbn [length].
    by rewrite Nat.add_1_r.
Qed.

Lemma joinGame_new_player_witness :
  (∀ g, JsMap.get "r" (games (initialWorld (λ _, 0%N))) = Some g →
        JsMap.get "s1" (players g) = None) ∧
  ∃ w' out g' player',
    on_joinGame "s1" "r" "" (initialWorld (λ _, 0%N)) = Done w' out ∧
    JsMap.get "r" (games w') = Some g' ∧
    players g' = [("s1", player')] ∧
    name player' = "Player 1".
Proof.
  assert (Hnew : ∀ g, JsMap.get "r" (games (initialWorld (λ _, 0%N))) = Some g →
                      JsMap.get "s1" (players g) = None).
  { intros g Hg. discriminate Hg. }
  split; [exact Hnew|].
  destruct (joinGame_new_player "s1" "r" "" (initialWorld (λ _, 0%N)) Hnew)
    as (w' & out & g' & player' & Hrun & Hg' & Hps & _ & Hname & _).
  exists w', out, g', player'.
  split; [exact Hrun|]. split; [exact Hg'|]. split; [exact Hps | exact Hname].
Defined.

(** X14: joining a second room.  [joinGame] never removes the socket from
    a room it joined before: after a socket joins room [B], and even after
    it disconnects, every other room is stored exactly as it was, the
    socket's old entry included. *)
Theorem joinGame_keeps_old_room socketId roomA roomB playerName gA w :
  JsMap.get roomA (games w) = Some gA →
  roomA ≠ roomB →
  ∃ w1 out1 w2 out2,
    on_joinGame socketId roomB playerName w = Done w1 out1 ∧
    JsMap.get roomA (games w1) = Some gA ∧
    on_disconnect socketId w1 = Done w2 out2 ∧
    JsMap.get roomA (games w2) = Some gA.
Proof.
  intros HA Hne.
  pose proof (on_joinGame_done socketId roomB playerName w) as Hjoin.
  cbv zeta in Hjoin.
  match type of Hjoin with _ = Done ?w1 ?out1 => set (world1 := w1) in *;
    set (effects1 := out1) in * end.
  assert (HA1 : JsMap.get roomA (games world1) = Some gA).
  { cbn [games world1]. rewrite get_set_ne; [done|by apply not_eq_sym]. }
  destruct (socketGame socketId world1) as [[room g]|] eqn:Hsock.
  - assert (room = roomB) as ->.
    { apply socketGame_Some in Hsock as (Hroom & _).
      cbn [socketRoom world1] in Hroom. rewrite lookup_insert_eq in Hroom.
      congruence. }
    destruct (decide (JsMap.delete socketId (players g) = [])) as [Hnil|Hkept].
    + eexists world1, effects1, _, _. split; [exact Hjoin|]. split; [exact HA1|].
      split; [by apply on_disconnect_last|].
      cbn [games with_games]. rewrite get_delete_ne; [done|by apply not_eq_sym].
    + eexists world1, effects1, _, _. split; [exact Hjoin|]. split; [exact HA1|].
      split; [by apply on_disconnect_other|].
      cbn [games with_games]. rewrite get_set_ne; [done|by apply not_eq_sym].
  - exists world1, effects1, world1, []. split; [exact Hjoin|]. split; [exact HA1|].
    split; [|exact HA1]. unfold on_disconnect. by rewrite Hsock.
Qed.

Lemma joinGame_keeps_old_room_witness :
  JsMap.get "r" (games (worldAfter pairRun (λ _, 0%N))) =
    Some (roomOf (worldAfter pairRun (λ _, 0%N)) "r") ∧
  ∃ w1 out1 w2 out2,
    on_joinGame "s2" "q" "" (worldAfter pairRun (λ _, 0%N)) = Done w1 out1 ∧
    on_disconnect "s2" w1 = Done w2 out2 ∧
    JsMap.get "r" (games w2) = Some (roomOf (worldAfter pairRun (λ _, 0%N)) "r").
Proof.
  assert (Hg : JsMap.get "r" (games (worldAfter pairRun (λ _, 0%N))) =
               Some (roomOf (worldAfter pairRun (λ _, 0%N)) "r")).
  { vm_compute. reflexivity. }
  split; [exact Hg|].
  destruct (joinGame_keeps_old_room "s2" "r" "q" "" _ _ Hg ltac:(discriminate))
    as (w1 & out1 & w2 & out2 & Hjoin & _ & Hleave & Hkept).
  exists w1, out1, w2, out2.
  split; [exact Hjoin|]. split; [exact Hleave | exact Hkept].
Defined.

(** ** Faults, bounds and repeated requests *)

Lemma on_claimBingo_returns socketId w :
  ∃ w' out, on_claimBingo socketId w = Done w' out.
Proof.
  destruct (socketGame socketId w) as [[room game]|] eqn:Hsock;
    [|unfold on_claimBingo; rewrite Hsock; by eexists _, _].
  destruct (decide (gameState game = playing)) as [Hstate|Hstate];
    [|unfold on_claimBingo; rewrite Hsock, bool_decide_eq_true_2 by done;
      by eexists _, _].
  destruct (JsMap.get socketId (players game)) as [player|] eqn:Hp;
    [|unfold on_claimBingo; rewrite Hsock, bool_decide_eq_false_2, Hp
        by (intros H; by apply H); by eexists _, _].
  rewrite (on_claimBingo_done _ _ _ _ _ Hsock Hstate Hp). cbv zeta.
  destruct (hasLine _); by eexists _, _.
Qed.

(** Every handler but [markCell] returns, in any state. *)
Lemma handle_returns ev w :
  (∀ socketId row col, ev ≠ MarkCell socketId row col) →
  ∃ w' out, handle ev w = Done w' out.
Proof.
  intros Hev. destruct ev as [sid r nm|sid|sid row col|sid|sid|sid|r|];
    cbn [handle].
  - rewrite on_joinGame_done. by eexists _, _.
  - unfold on_startGame. destruct (socketGame sid w) as [[room game]|];
      [|by eexists _, _].
    destruct (startGame game (runtime w)). by eexists _, _.
  - by destruct (Hev sid row col).
  - apply on_claimBingo_returns.
  - destruct (socketGame sid w) as [[room game]|] eqn:Hsock.
    + rewrite (on_newGame_eq _ _ _ _ Hsock). by eexists _, _.
    + unfold on_newGame. rewrite Hsock. by eexists _, _.
  - destruct (socketGame sid w) as [[room game]|] eqn:Hsock.
    + destruct (decide (JsMap.delete sid (players game) = [])) as [Hnil|Hkept].
      * rewrite (on_disconnect_last _ _ _ _ Hsock Hnil). by eexists _, _.
      * rewrite (on_disconnect_other _ _ _ _ Hsock Hkept). by eexists _, _.
    + unfold on_disconnect. rewrite Hsock. by eexists _, _.
  - unfold on_drawTick. destruct (JsMap.get r (games w)) as [game|];
      [|by eexists _, _].
    destruct (callInterval game); [|by eexists _, _].
    destruct (bool_decide _); [|by eexists _, _].
    destruct (callNumber game (runtime w)) as [[? ?] ?]. by eexists _, _.
  - unfold on_broadcast. by eexists _, _.
Qed.

(** X15: the one fault among well-formed events.  The events of the model
    carry a payload object with string ids and integer [row] and [col].
    In a state reached through such events, the handler of such an event
    dies on an uncaught exception exactly when the event is [markCell]
    from a player of the socket's room with [col] outside 0..4; every other
    such event, and [markCell] with any integer [row], returns. *)
Theorem crash_only_by_column random w ev :
  reachable random w →
  (∃ e, handle ev w = Uncaught e) ↔
  ∃ socketId row col room g,
    ev = MarkCell socketId row col ∧
    socketGame socketId w = Some (room, g) ∧
    is_Some (JsMap.get socketId (players g)) ∧
    ¬ (0 ≤ col < 5).
Proof.
  intros Hreach. split.
  - intros [e Hthrow].
    destruct ev as [sid r nm|sid|sid row col|sid|sid|sid|r|];
      try (edestruct handle_returns as (w' & out & Hrun);
           [|rewrite Hrun in Hthrow; discriminate Hthrow]; by intros).
    cbn [handle] in Hthrow. unfold on_markCell in Hthrow.
    destruct (socketGame sid w) as [[room g]|] eqn:Hsock; [|done].
    destruct (JsMap.get sid (players g)) as [player|] eqn:Hp; [|done].
    exists sid, row, col, room, g. split_and!; [done..|by rewrite Hp|].
    destruct (at_index (card player) col) as [column|] eqn:Hcol.
    { by destruct (_ || _). }
    destruct (reachable_card_valid _ _ _ _ _ _ Hreach Hsock Hp) as ([Hlen _] & _).
    apply at_index_None in Hcol. lia.
  - intros (sid & row & col & room & g & -> & Hsock & [player Hp] & Hcol).
    exists TypeError. cbn [handle].
    eapply markCell_col_out_of_range; [done..| |done].
    eapply reachable_card_valid; [done..].
Qed.

Lemma crash_only_by_column_witness :
  reachable (λ _, 0%N) (worldAfter pairRun (λ _, 0%N)) ∧
  ∃ e, handle (MarkCell "s2" 0 5) (worldAfter pairRun (λ _, 0%N)) = Uncaught e.
Proof.
  assert (Hsock : socketGame "s2" (worldAfter pairRun (λ _, 0%N)) =
                  Some ("r", roomOf (worldAfter pairRun (λ _, 0%N)) "r")).
  { vm_compute. reflexivity. }
  assert (Hp : is_Some (JsMap.get "s2"
                 (players (roomOf (worldAfter pairRun (λ _, 0%N)) "r")))).
  { eexists. vm_compute. reflexivity. }
  split; [apply worldAfter_reachable|].
  apply (proj2 (crash_only_by_column _ _ (MarkCell "s2" 0 5)
                  (worldAfter_reachable (λ _, 0%N) pairRun))).
  exists "s2", 0, 5, "r", (roomOf (worldAfter pairRun (λ _, 0%N)) "r").
  split; [reflexivity|]. split; [exact Hsock|]. split; [exact Hp|]. lia.
Defined.

(** X16: a row outside the card.  In a reachable state [markCell] with
    [col] in 0..4 and [row] outside 0..4 reads [undefined] and does
    nothing: no mark, no acknowledgement, no fault. *)
Theorem markCell_bad_row_ignored random w socketId room g player row col :
  reachable random w →
  socketGame socketId w = Some (room, g) →
  JsMap.get socketId (players g) = Some player →
  0 ≤ col < 5 → ¬ (0 ≤ row < 5) →
  on_markCell socketId row col w = Done w [].
Proof.
  intros Hreach Hsock Hp Hcol Hrow.
  eapply markCell_row_out_of_range; [done..| |done|done].
  eapply reachable_card_valid; [done..].
Qed.

Lemma markCell_bad_row_ignored_witness :
  reachable (λ _, 0%N) (worldAfter pairRun (λ _, 0%N)) ∧
  on_markCell "s2" 7 0 (worldAfter pairRun (λ _, 0%N)) =
    Done (worldAfter pairRun (λ _, 0%N)) [].
Proof.
  assert (Hsock : socketGame "s2" (worldAfter pairRun (λ _, 0%N)) =
                  Some ("r", roomOf (worldAfter pairRun (λ _, 0%N)) "r")).
  { vm_compute. reflexivity. }
  assert (Hp : JsMap.get "s2" (players (roomOf (worldAfter pairRun (λ _, 0%N)) "r")) =
               Some (playerOf (roomOf (worldAfter pairRun (λ _, 0%N)) "r") "s2")).
  { vm_compute. reflexivity. }
  split; [apply worldAfter_reachable|].
  apply (markCell_bad_row_ignored _ _ _ _ _ _ 7 0
           (worldAfter_reachable (λ _, 0%N) pairRun) Hsock Hp); lia.
Defined.

(** X17: the randomness a card costs.  Generating a card calls
    [Math.random] exactly 24 times, once per cell but the free one, and
    touches no timer. *)
Theorem card_draws_24_samples rt :
  randomCalls (generateBingoCard rt).2 = (24 + randomCalls rt)%nat ∧
  mathRandom (generateBingoCard rt).2 = mathRandom rt ∧
  nextTimer (generateBingoCard rt).2 = nextTimer rt ∧
  activeTimers (generateBingoCard rt).2 = activeTimers rt.
Proof. by rewrite generateBingoCard_runtime. Qed.

Lemma on_markCell_eligible socketId room g player row col column w :
  socketGame socketId w = Some (room, g) →
  JsMap.get socketId (players g) = Some player →
  at_index (card player) col = Some column →
  eligible (default Undefined (at_index column row)) (calledNumbers g) →
  on_markCell socketId row col w =
    Done (with_games w
            (JsMap.set room
               (with_players g
                  (JsMap.set socketId
                     (with_markedCells player
                        (JsSet.add (row * 5 + col) (markedCells player)))
                     (players g)))
               (games w))
            (runtime w))
         [SocketEmit socketId (cellMarked row col)].
Proof.
  intros Hsock Hp Hcol Hel. unfold on_markCell. rewrite Hsock, Hp, Hcol.
  by rewrite (proj2 (eligible_includes _ _) Hel).
Qed.

(** X18: marking a cell twice.  The second request for a markable cell is
    acknowledged like the first and leaves the server exactly as the first
    left it. *)
Theorem markCell_twice socketId room g player row col v w :
  socketGame socketId w = Some (room, g) →
  JsMap.get socketId (players g) = Some player →
  cell_at (card player) col row = Some v →
  eligible v (calledNumbers g) →
  ∃ w1,
    on_markCell socketId row col w =
      Done w1 [SocketEmit socketId (cellMarked row col)] ∧
    on_markCell socketId row col w1 =
      Done w1 [SocketEmit socketId (cellMarked row col)].
Proof.
  intros Hsock Hp Hcell Hel.
  unfold cell_at in Hcell.
  destruct (at_index (card player) col) as [column|] eqn:Hcol; [|done].
  assert (Hel' : eligible (default Undefined (at_index column row)) (calledNumbers g)).
  { by rewrite Hcell. }
  pose proof (proj1 (socketGame_Some _ _ _ _) Hsock) as (Hroom & Hne & Hg).
  set (player1 := with_markedCells player
                    (JsSet.add (row * 5 + col) (markedCells player))).
  set (g1 := with_players g (JsMap.set socketId player1 (players g))).
  set (w1 := with_games w (JsMap.set room g1 (games w)) (runtime w)).
  exists w1. split; [by apply (on_markCell_eligible _ _ _ _ _ _ column)|].
  assert (Hsock1 : socketGame socketId w1 = Some (room, g1)).
  { apply socketGame_Some. split_and!; [done..|]. apply get_set_eq. }
  assert (Hp1 : JsMap.get socketId (players g1) = Some player1) by apply get_set_eq.
  rewrite (on_markCell_eligible _ _ _ _ _ _ column _ Hsock1 Hp1 Hcol Hel').
  f_equal. cbn [markedCells player1 with_markedCells].
  rewrite JsSet_add_idem.
  change (with_markedCells player1 (JsSet.add (row * 5 + col) (markedCells player)))
    with player1.
  cbn [players g1 with_players]. rewrite set_set.
  change (with_players g1 (JsMap.set socketId player1 (players g))) with g1.
  cbn [games w1 with_games]. by rewrite set_set.
Qed.

Lemma markCell_twice_witness :
  socketGame "s1" (sampleWorld [] [16]) = Some ("r", sampleGame [] [16]) ∧
  cell_at (card (samplePlayer [])) 1 0 = Some (Num 16) ∧
  ∃ w1,
    on_markCell "s1" 0 1 (sampleWorld [] [16]) =
      Done w1 [SocketEmit "s1" (cellMarked 0 1)] ∧
    on_markCell "s1" 0 1 w1 = Done w1 [SocketEmit "s1" (cellMarked 0 1)].
Proof.
  split; [reflexivity|]. split; [reflexivity|].
  apply (markCell_twice "s1" "r" (sampleGame [] [16]) (samplePlayer []) 0 1 (Num 16));
    [reflexivity|reflexivity|reflexivity|].
  right. exists 16. split; [reflexivity|]. apply list_elem_of_singleton. reflexivity.
Defined.

(** X19: the win check looks at the marks only.  Its answer does not
    depend on the card or on the numbers called, and marking more cells
    never turns a win into a loss. *)
Theorem more_marks_still_win socketId g g' player player' :
  JsMap.get socketId (players g) = Some player →
  JsMap.get socketId (players g') = Some player' →
  markedCells player ⊆ markedCells player' →
  (checkWin socketId g).1 = true →
  (checkWin socketId g').1 = true.
Proof.
  intros Hp Hp' Hsub.
  rewrite (checkWin_result _ _ _ Hp), (checkWin_result _ _ _ Hp').
  rewrite !hasLine_true. intros (L & HL & Hcov). exists L. split; [done|].
  intros c Hc. apply Hcov, JsSet_elem_of_add in Hc as [->|Hc];
    apply JsSet_elem_of_add; [by left|right]. by apply Hsub.
Qed.

Lemma more_marks_still_win_witness :
  markedCells (samplePlayer [0; 1; 2; 3; 4]) ⊆
    markedCells (samplePlayer [7; 4; 3; 2; 1; 0]) ∧
  (checkWin "s1" (sampleGame [7; 4; 3; 2; 1; 0] [])).1 = true.
Proof.
  assert (Hsub : markedCells (samplePlayer [0; 1; 2; 3; 4]) ⊆
                 markedCells (samplePlayer [7; 4; 3; 2; 1; 0])).
  { apply (bool_decide_unpack _). vm_compute. exact I. }
  split; [exact Hsub|].
  apply (more_marks_still_win "s1" (sampleGame [0; 1; 2; 3; 4] []) _
           (samplePlayer [0; 1; 2; 3; 4]) (samplePlayer [7; 4; 3; 2; 1; 0]));
    [reflexivity|reflexivity|exact Hsub|reflexivity].
Defined.

(** ** Rooms over time: what an event leaves alone *)

(** An event changes no room but the one it is addressed to. *)
Lemma handle_other_room ev w w1 out room :
  handle ev w = Done w1 out →
  JsMap.get room (games w1) = JsMap.get room (games w) ∨ addressed room w ev.
Proof.
  destruct ev as [sid r nm|sid|sid row col|sid|sid|sid|r|];
    cbn [handle addressed].
  - rewrite on_joinGame_done. cbv zeta. intros [<- _]%Done_inj.
    destruct (decide (r = room)) as [->|Hne]; [by right|left].
    cbn [games]. by rewrite get_set_ne.
  - unfold on_startGame.
    destruct (socketGame sid w) as [[r game]|] eqn:Hsock;
      [|intros [<- _]%Done_inj; by left].
    apply socketGame_Some in Hsock as (Hroom & Hne & _).
    destruct (decide (r = room)) as [->|Hother]; [by right|].
    destruct (startGame game (runtime w)) as [game' rt'].
    intros [<- _]%Done_inj. left. cbn [games with_games]. by rewrite get_set_ne.
  - unfold on_markCell.
    destruct (socketGame sid w) as [[r game]|] eqn:Hsock;
      [|intros [<- _]%Done_inj; by left].
    apply socketGame_Some in Hsock as (Hroom & Hne & _).
    destruct (decide (r = room)) as [->|Hother]; [by right|].
    destruct (JsMap.get sid (players game)) as [player|];
      [|intros [<- _]%Done_inj; by left].
    destruct (at_index (card player) col) as [column|]; [|done].
    destruct (_ || _); intros [<- _]%Done_inj; left; [|done].
    cbn [games with_games]. by rewrite get_set_ne.
  - unfold on_claimBingo.
    destruct (socketGame sid w) as [[r game]|] eqn:Hsock;
      [|intros [<- _]%Done_inj; by left].
    apply socketGame_Some in Hsock as (Hroom & Hne & _).
    destruct (decide (r = room)) as [->|Hother]; [by right|].
    case_bool_decide; [intros [<- _]%Done_inj; by left|].
    destruct (JsMap.get sid (players game)) as [player|];
      [|intros [<- _]%Done_inj; by left].
    destruct (checkWin sid game) as [isWinner game1].
    destruct (JsMap.get sid (players game1)) as [player1|]; [|done].
    destruct isWinner.
    + destruct (stopGame _ _) as [game2 rt2].
      intros [<- _]%Done_inj. left. cbn [games with_games]. by rewrite get_set_ne.
    + intros [<- _]%Done_inj. left. cbn [games with_games]. by rewrite get_set_ne.
  - destruct (socketGame sid w) as [[r game]|] eqn:Hsock;
      [|unfold on_newGame; rewrite Hsock; intros [<- _]%Done_inj; by left].
    rewrite (on_newGame_eq _ _ _ _ Hsock).
    apply socketGame_Some in Hsock as (Hroom & Hne & _).
    destruct (decide (r = room)) as [->|Hother]; [by right|].
    intros [<- _]%Done_inj. left. cbn [games with_games]. by rewrite get_set_ne.
  - destruct (socketGame sid w) as [[r game]|] eqn:Hsock;
      [|unfold on_disconnect; rewrite Hsock; intros [<- _]%Done_inj; by left].
    pose proof (proj1 (socketGame_Some _ _ _ _) Hsock) as (Hroom & Hne & _).
    destruct (decide (r = room)) as [->|Hother]; [by right|].
    destruct (decide (JsMap.delete sid (players game) = [])) as [Hnil|Hkept].
    + rewrite (on_disconnect_last _ _ _ _ Hsock Hnil).
      intros [<- _]%Done_inj. left. cbn [games with_games]. by rewrite get_delete_ne.
    + rewrite (on_disconnect_other _ _ _ _ Hsock Hkept).
      intros [<- _]%Done_inj. left. cbn [games with_games]. by rewrite get_set_ne.
  - unfold on_drawTick.
    destruct (decide (r = room)) as [->|Hother]; [by right|].
    destruct (JsMap.get r (games w)) as [game|];
      [|intros [<- _]%Done_inj; by left].
    destruct (callInterval game) as [handle|]; [|intros [<- _]%Done_inj; by left].
    destruct (bool_decide _); [|intros [<- _]%Done_inj; by left].
    destruct (callNumber game (runtime w)) as [[number game'] rt'].
    intros [<- _]%Done_inj. left. cbn [games with_games]. by rewrite get_set_ne.
  - unfold on_broadcast. intros [<- _]%Done_inj. by left.
Qed.

Lemma callNumber_winner g rt : winner (callNumber g rt).1.2 = winner g.
Proof.
  destruct (callNumber_cases g rt) as [[_ ->]|(n & _ & _ & _ & _ & _ & _ & _ & Hw & _)];
    [|done].
  apply stopGame_spec.
Qed.

Lemma callNumber_players g rt : players (callNumber g rt).1.2 = players g.
Proof.
  destruct (callNumber_cases g rt) as [[_ ->]|(n & _ & _ & _ & _ & _ & Hps & _)];
    [|done].
  apply stopGame_spec.
Qed.

Lemma room_over_set room winnerName w game' rt sockets :
  gameState game' = finished → winner game' = Some winnerName →
  room_over room winnerName
    {| games := JsMap.set room game' (games w); socketRoom := sockets;
       runtime := rt |}.
Proof. intros Hs Hw. exists game'. cbn [games]. by rewrite get_set_eq. Qed.

(** A finished game stays finished, with its winner, through every event
    that is not a reset of its room, until the last player leaves. *)
Lemma room_over_step room winnerName ev w w1 out :
  room_over room winnerName w →
  resets room w ev = false →
  handle ev w = Done w1 out →
  room_over room winnerName w1 ∨
  ∃ socketId, ev = Disconnect socketId ∧ last_leaves room socketId w.
Proof.
  intros (game & Hg & Hstate & Hwin) Hev Hstep.
  destruct (handle_other_room _ _ _ _ room Hstep) as [Hsame|Haddr].
  { left. exists game. by rewrite Hsame. }
  destruct ev as [sid r nm|sid|sid row col|sid|sid|sid|r|];
    cbn [handle addressed] in Hstep, Haddr.
  - subst r. rewrite on_joinGame_done in Hstep. cbv zeta in Hstep.
    apply Done_inj in Hstep as [<- _]. left. rewrite Hg.
    change (default (newBingoGame room) (Some game)) with game.
    by apply room_over_set.
  - destruct Haddr as [Hroom Hne].
    rewrite (on_startGame_noop sid room game w) in Hstep.
    + apply Done_inj in Hstep as [<- _]. left. by exists game.
    + by apply socketGame_Some.
    + by rewrite Hstate.
  - destruct Haddr as [Hroom Hne].
    assert (Hsock : socketGame sid w = Some (room, game)) by (by apply socketGame_Some).
    left. unfold on_markCell in Hstep. rewrite Hsock in Hstep.
    destruct (JsMap.get sid (players game)) as [player|];
      [|apply Done_inj in Hstep as [<- _]; by exists game].
    destruct (at_index (card player) col) as [column|]; [|done].
    destruct (_ || _); apply Done_inj in Hstep as [<- _]; [|by exists game].
    by apply room_over_set.
  - destruct Haddr as [Hroom Hne].
    assert (Hsock : socketGame sid w = Some (room, game)) by (by apply socketGame_Some).
    left. unfold on_claimBingo in Hstep. rewrite Hsock in Hstep.
    rewrite bool_decide_eq_true_2 in Hstep by (by rewrite Hstate).
    apply Done_inj in Hstep as [<- _]. by exists game.
  - destruct Haddr as [Hroom Hne]. cbn [resets] in Hev.
    by rewrite bool_decide_eq_true_2 in Hev.
  - destruct Haddr as [Hroom Hne].
    assert (Hsock : socketGame sid w = Some (room, game)) by (by apply socketGame_Some).
    destruct (decide (JsMap.delete sid (players game) = [])) as [Hnil|Hkept].
    + right. exists sid. split; [done|]. by exists game.
    + left. rewrite (on_disconnect_other _ _ _ _ Hsock Hkept) in Hstep.
      apply Done_inj in Hstep as [<- _]. by apply room_over_set.
  - subst r. left. unfold on_drawTick in Hstep. rewrite Hg in Hstep.
    destruct (callInterval game) as [handle|];
      [|apply Done_inj in Hstep as [<- _]; by exists game].
    destruct (bool_decide _); [|apply Done_inj in Hstep as [<- _]; by exists game].
    pose proof (callNumber_gameState game (runtime w)) as Hs.
    pose proof (callNumber_winner game (runtime w)) as Hw.
    destruct (callNumber game (runtime w)) as [[number game'] rt'].
    cbn [fst snd] in Hs, Hw.
    apply Done_inj in Hstep as [<- _].
    apply room_over_set; congruence.
  - done.
Qed.

Lemma run_cons_Done ev evs w w1 out1 w2 out2 :
  handle ev w = Done w1 out1 → run evs w1 = Done w2 out2 →
  run (ev :: evs) w = Done w2 (out1 ++ out2).
Proof. intros H1 H2. cbn [run]. by rewrite H1, H2. Qed.

Lemma run_cons_inv ev evs w w2 out :
  run (ev :: evs) w = Done w2 out →
  ∃ w1 out1 out2,
    handle ev w = Done w1 out1 ∧ run evs w1 = Done w2 out2.
Proof.
  cbn [run]. destruct (handle ev w) as [w1 out1|]; [|done].
  destruct (run evs w1) as [w2' out2|] eqn:Hrun; [|done].
  intros [<- _]%Done_inj. by exists w1, out1, out2.
Qed.

Lemma room_over_run room winnerName evs :
  ∀ w w2 out,
    room_over room winnerName w →
    no_reset room evs w = true →
    run evs w = Done w2 out →
    room_over room winnerName w2 ∨ torn_down room evs w.
Proof.
  induction evs as [|ev evs IH]; intros w w2 out Hover Hquiet Hrun.
  - cbn [run] in Hrun. apply Done_inj in Hrun as [<- _]. by left.
  - apply run_cons_inv in Hrun as (w1 & out1 & out2 & Hstep & Hrun).
    cbn [no_reset] in Hquiet. rewrite Hstep in Hquiet.
    apply andb_true_iff in Hquiet as [Hev Hquiet].
    apply negb_true_iff in Hev.
    destruct (room_over_step _ _ _ _ _ _ Hover Hev Hstep) as [Hover1|(sid & -> & Hlast)].
    + destruct (IH w1 w2 out2 Hover1 Hquiet Hrun)
        as [?|(evs1 & sid & evs2 & w3 & out3 & -> & Hrun1 & Hlast)]; [by left|].
      right. exists (ev :: evs1), sid, evs2, w3, (out1 ++ out3).
      split_and!; [done| |done]. by apply (run_cons_Done _ _ _ w1).
    + right. by exists [], sid, evs, w, [].
Qed.

(** ** Winning, false claims and the timer, over time *)

(** C2: in a room that is playing, a claim by a player with a complete line
    (the free cell counting as marked) finishes the game: the room is
    [finished], its winner is the player's name, the interval is cleared and
    its handle forgotten, and the room is sent the win with the name, the
    card and the marked indices.  From then on [startGame] by any socket of
    the room leaves the server as it is, however often it is asked and
    whatever events come in between, from this room or another, the
    winner's disconnect included, as long as no socket of the room sends
    [newGame] and the room is not deleted because its last player left;
    after [newGame] the room is waiting and [startGame] starts it again. *)
Theorem claimBingo_wins socketId room game player L w :
  socketGame socketId w = Some (room, game) →
  gameState game = playing →
  JsMap.get socketId (players game) = Some player →
  L ∈ all_lines →
  (∀ c, c ∈ L → c = freeIndex ∨ c ∈ markedCells player) →
  ∃ w' game',
    on_claimBingo socketId w =
      Done w' [ RoomEmit room
                  (gameWon (name player) (card player)
                     (JsSet.add freeIndex (markedCells player))) ] ∧
    JsMap.get room (games w') = Some game' ∧
    gameState game' = finished ∧
    winner game' = Some (name player) ∧
    callInterval game' = None ∧
    (∀ handle, callInterval game = Some handle →
       handle ∉ activeTimers (runtime w')) ∧
    calledNumbers game' = calledNumbers game ∧
    currentNumber game' = currentNumber game ∧
    (∀ starters,
       Forall (λ starter, socketRoom w' !! starter = Some room) starters →
       run (StartGame <$> starters) w' =
         Done w' ((λ _, RoomEmit room (gameStarted (getState game'))) <$> starters)) ∧
    (∀ evs w2,
       Forall (keeps_result socketId) evs →
       outcome_world (run evs w') = Some w2 →
       ∃ game2,
         JsMap.get room (games w2) = Some game2 ∧
         gameState game2 = finished ∧
         winner game2 = Some (name player) ∧
         ∀ starter,
           socketRoom w2 !! starter = Some room →
           on_startGame starter w2 =
             Done w2 [RoomEmit room (gameStarted (getState game2))]) ∧
    (∀ evs w2 out2,
       no_reset room evs w' = true →
       run evs w' = Done w2 out2 →
       (∃ game2,
          JsMap.get room (games w2) = Some game2 ∧
          gameState game2 = finished ∧
          winner game2 = Some (name player) ∧
          ∀ starter,
            socketRoom w2 !! starter = Some room →
            on_startGame starter w2 =
              Done w2 [RoomEmit room (gameStarted (getState game2))]) ∨
       torn_down room evs w') ∧
    (∀ starter,
       socketRoom w' !! starter = Some room →
       ∃ w1 out1 game1 w2 out2 game2,
         on_newGame starter w' = Done w1 out1 ∧
         JsMap.get room (games w1) = Some game1 ∧
         gameState game1 = waiting ∧ winner game1 = None ∧
         on_startGame starter w1 = Done w2 out2 ∧
         JsMap.get room (games w2) = Some game2 ∧
         gameState game2 = playing).
Proof.
  intros Hsock Hstate Hp HL Hline.
  pose proof (proj1 (socketGame_Some _ _ _ _) Hsock) as (Hroom & Hne & Hg).
  rewrite (on_claimBingo_done _ _ _ _ _ Hsock Hstate Hp). cbn zeta.
  assert (Hwin : hasLine (JsSet.add freeIndex (markedCells player)) = true).
  { rewrite <-(checkWin_result socketId game player Hp).
    by apply (checkWin_complete socketId game player L). }
  rewrite Hwin.
  match goal with
  | |- context [stopGame ?g2 ?rt] =>
      set (game2 := g2);
      destruct (stopGame_spec game2 rt)
        as (Hnone & Hcleared & Hrid & Hps & Hcalled & Hcur & Hst & Hwinner);
      set (game' := (stopGame game2 rt).1) in *;
      set (rt' := (stopGame game2 rt).2) in *
  end.
  set (w' := with_games w (JsMap.set room game' (games w)) rt').
  assert (Hg' : JsMap.get room (games w') = Some game') by apply get_set_eq.
  exists w', game'. split_and!; try done.
  - intros starters Hstarters.
    induction starters as [|starter starters IH]; [done|].
    apply Forall_cons in Hstarters as [Hstarter Hstarters].
    cbn [fmap list_fmap run handle].
    rewrite (on_startGame_noop starter room game' w').
    + change (run (list_fmap _ _ StartGame starters) w')
        with (run (StartGame <$> starters) w').
      by rewrite (IH Hstarters).
    + by apply socketGame_Some.
    + by rewrite Hst.
  - intros evs w2 Hevs Hrun.
    assert (Hwon : room_won room socketId (name player) w').
    { exists game'. split_and!; [done|by rewrite Hst|by rewrite Hwinner|].
      rewrite Hps. cbn [players with_players game2]. by rewrite get_set_eq. }
    destruct (room_won_run _ _ _ _ _ _ Hwon Hevs Hrun)
      as (g2 & Hg2 & Hstate2 & Hwin2 & _).
    exists g2. split_and!; [done..|].
    intros starter Hstarter. apply on_startGame_noop.
    + by apply socketGame_Some.
    + by rewrite Hstate2.
  - intros evs w2 out2 Hquiet Hrun.
    assert (Hover : room_over room (name player) w').
    { exists game'. split_and!; [done|by rewrite Hst|by rewrite Hwinner]. }
    destruct (room_over_run _ _ _ _ _ _ Hover Hquiet Hrun)
      as [(g2 & Hg2 & Hstate2 & Hwin2)|Hgone]; [left|by right].
    exists g2. split_and!; [done..|].
    intros starter Hstarter. apply on_startGame_noop.
    + by apply socketGame_Some.
    + by rewrite Hstate2.
  - intros starter Hstarter.
    assert (Hsock' : socketGame starter w' = Some (room, game')).
    { by apply socketGame_Some. }
    unfold on_newGame. rewrite Hsock'.
    rewrite (stopGame_idle game' (runtime w') Hnone).
    destruct (regenerate (players game') (runtime w')) as [ps rt1].
    set (game1 :=
      {| roomId := roomId game'; players := ps; calledNumbers := [];
         currentNumber := None; gameState := waiting; winner := None;
         callInterval := callInterval game' |}).
    set (world1 := with_games w' (JsMap.set room game1 (games w')) rt1).
    assert (Hsock1 : socketGame starter world1 = Some (room, game1)).
    { apply socketGame_Some. split_and!; [done..|]. apply get_set_eq. }
    pose proof (startGame_waiting game1 (runtime world1) eq_refl) as Hplaying.
    assert (Hstart : on_startGame starter world1 =
              Done (with_games world1
                      (JsMap.set room (startGame game1 (runtime world1)).1 (games world1))
                      (startGame game1 (runtime world1)).2)
                   [RoomEmit room
                      (gameStarted (getState (startGame game1 (runtime world1)).1))]).
    { unfold on_startGame. rewrite Hsock1.
      by destruct (startGame game1 (runtime world1)). }
    eexists world1, _, game1, _, _, _.
    split_and!; [done|apply get_set_eq|done|done|exact Hstart|apply get_set_eq|exact Hplaying].
Qed.

Lemma claimBingo_wins_witness :
  socketGame "s1" (worldAfter winRun (λ _, 0%N)) =
    Some ("r", roomOf (worldAfter winRun (λ _, 0%N)) "r") ∧
  gameState (roomOf (worldAfter winRun (λ _, 0%N)) "r") = playing ∧
  ∃ w' game',
    on_claimBingo "s1" (worldAfter winRun (λ _, 0%N)) =
      Done w' [ RoomEmit "r"
                  (gameWon "Ann"
                     (card (playerOf (roomOf (worldAfter winRun (λ _, 0%N)) "r") "s1"))
                     [0; 5; 10; 15; 20; 12]) ] ∧
    JsMap.get "r" (games w') = Some game' ∧
    gameState game' = finished ∧
    winner game' = Some "Ann" ∧
    callInterval game' = None ∧
    ∃ w2 out2 game2,
      run [Disconnect "s1"; StartGame "s2"] w' = Done w2 out2 ∧
      JsMap.get "r" (games w2) = Some game2 ∧
      gameState game2 = finished ∧
      winner game2 = Some "Ann" ∧
      on_startGame "s2" w2 =
        Done w2 [RoomEmit "r" (gameStarted (getState game2))].
Proof.
  assert (Hsock : socketGame "s1" (worldAfter winRun (λ _, 0%N)) =
                  Some ("r", roomOf (worldAfter winRun (λ _, 0%N)) "r")).
  { vm_compute. reflexivity. }
  assert (Hstate : gameState (roomOf (worldAfter winRun (λ _, 0%N)) "r") = playing).
  { vm_compute. reflexivity. }
  assert (Hp : JsMap.get "s1" (players (roomOf (worldAfter winRun (λ _, 0%N)) "r")) =
               Some (playerOf (roomOf (worldAfter winRun (λ _, 0%N)) "r") "s1")).
  { vm_compute. reflexivity. }
  assert (HL : col_cells 0 ∈ all_lines).
  { apply (bool_decide_unpack _). vm_compute. exact I. }
  assert (Hline : ∀ c, c ∈ col_cells 0 →
            c = freeIndex ∨
            c ∈ markedCells (playerOf (roomOf (worldAfter winRun (λ _, 0%N)) "r") "s1")).
  { intros c Hc. right. exact Hc. }
  assert (Hname : name (playerOf (roomOf (worldAfter winRun (λ _, 0%N)) "r") "s1") = "Ann").
  { vm_compute. reflexivity. }
  assert (Hmarks :
    JsSet.add freeIndex
      (markedCells (playerOf (roomOf (worldAfter winRun (λ _, 0%N)) "r") "s1")) =
    [0; 5; 10; 15; 20; 12]).
  { vm_compute. reflexivity. }
  split; [exact Hsock|]. split; [exact Hstate|].
  destruct (claimBingo_wins "s1" "r" _ _ (col_cells 0) _ Hsock Hstate Hp HL Hline)
    as (w' & game' & Hrun & Hg & Hst & Hwin & Hnone & _ & _ & _ & _ & _ & Hlater & _).
  rewrite Hname in Hwin. rewrite Hname, Hmarks in Hrun.
  exists w', game'.
  split; [exact Hrun|]. split; [exact Hg|]. split; [exact Hst|].
  split; [exact Hwin|]. split; [exact Hnone|].
  assert (Hc : outcome_world (on_claimBingo "s1" (worldAfter winRun (λ _, 0%N))) =
               Some (worldAfter (winRun ++ [ClaimBingo "s1"]) (λ _, 0%N))).
  { vm_compute. reflexivity. }
  rewrite Hrun in Hc. cbn [outcome_world] in Hc. apply (inj Some) in Hc.
  clear Hrun Hg. subst w'.
  assert (Hquiet : no_reset "r" [Disconnect "s1"; StartGame "s2"]
                     (worldAfter (winRun ++ [ClaimBingo "s1"]) (λ _, 0%N)) = true).
  { vm_compute. reflexivity. }
  assert (Hsome : is_Some (outcome_world
            (run [Disconnect "s1"; StartGame "s2"]
               (worldAfter (winRun ++ [ClaimBingo "s1"]) (λ _, 0%N))))).
  { eexists. vm_compute. reflexivity. }
  destruct (run [Disconnect "s1"; StartGame "s2"]
              (worldAfter (winRun ++ [ClaimBingo "s1"]) (λ _, 0%N)))
    as [w2 out2|] eqn:Hrun2; [clear Hsome|by destruct Hsome].
  destruct (Hlater _ w2 out2 Hquiet Hrun2)
    as [(game2 & Hg2 & Hst2 & Hwin2 & Hnoop)|Hgone].
  - exists w2, out2, game2.
    split; [reflexivity|]. split; [exact Hg2|]. split; [exact Hst2|].
    split; [by rewrite <-Hname|].
    apply Hnoop.
    assert (Hw2 : outcome_world
              (run [Disconnect "s1"; StartGame "s2"]
                 (worldAfter (winRun ++ [ClaimBingo "s1"]) (λ _, 0%N))) =
              Some (worldAfter (winRun ++ [ClaimBingo "s1"; Disconnect "s1"; StartGame "s2"])
                      (λ _, 0%N))).
    { vm_compute. reflexivity. }
    rewrite Hrun2 in Hw2. cbn [outcome_world] in Hw2. apply (inj Some) in Hw2.
    rewrite Hw2. vm_compute. reflexivity.
  - exfalso.
    destruct Hgone as (evs1 & sid & evs2 & w1 & out1 & Heq & Hr1 & game & Hsk & Hnil).
    destruct evs1 as [|e1 evs1].
    + cbn [app] in Heq. injection Heq as <- _.
      cbn [run] in Hr1. apply Done_inj in Hr1 as [<- _].
      assert (Hk : socketGame "s1" (worldAfter (winRun ++ [ClaimBingo "s1"]) (λ _, 0%N)) =
                   Some ("r", roomOf (worldAfter (winRun ++ [ClaimBingo "s1"]) (λ _, 0%N)) "r")).
      { vm_compute. reflexivity. }
      rewrite Hk in Hsk. apply (inj Some), pair_equal_spec in Hsk as [_ <-].
      vm_compute in Hnil. discriminate Hnil.
    + cbn [app] in Heq. injection Heq as _ Heq.
      destruct evs1 as [|e2 evs1]; [discriminate Heq|].
      cbn [app] in Heq. injection Heq as _ Heq.
      destruct evs1; discriminate Heq.
Defined.

Lemma with_markedCells_id player :
  with_markedCells player (markedCells player) = player.
Proof. by destruct player. Qed.

Lemma with_players_id game : with_players game (players game) = game.
Proof. by destruct game. Qed.

(** A claim that [checkWin] turns down, in one equation. *)
Lemma on_claimBingo_turned_down socketId room game player w :
  socketGame socketId w = Some (room, game) →
  gameState game = playing →
  JsMap.get socketId (players game) = Some player →
  (∀ L, L ∈ all_lines →
     ∃ c, c ∈ L ∧ c ≠ freeIndex ∧ c ∉ markedCells player) →
  on_claimBingo socketId w =
    Done (afterFalseClaim socketId room game player w)
         [SocketEmit socketId (invalidBingo "Not a valid Bingo!")].
Proof.
  intros Hsock Hstate Hp Hno.
  rewrite (on_claimBingo_done _ _ _ _ _ Hsock Hstate Hp). cbn zeta.
  assert (Hlose : hasLine (JsSet.add freeIndex (markedCells player)) = false).
  { rewrite <-(checkWin_result socketId game player Hp).
    by apply (checkWin_incomplete socketId game player). }
  by rewrite Hlose.
Qed.

(** Once the free index is in the set, a turned-down claim changes
    nothing. *)
Lemma afterFalseClaim_id socketId room game player w :
  socketGame socketId w = Some (room, game) →
  JsMap.get socketId (players game) = Some player →
  freeIndex ∈ markedCells player →
  afterFalseClaim socketId room game player w = w.
Proof.
  intros (_ & _ & Hg)%socketGame_Some Hp Hfree. unfold afterFalseClaim.
  rewrite (JsSet_add_present _ _ Hfree), with_markedCells_id.
  rewrite (set_get_id _ _ _ Hp), with_players_id.
  by rewrite (set_get_id _ _ _ Hg), with_games_id.
Qed.

Lemma false_claims_run socketId room game player w n :
  socketGame socketId w = Some (room, game) →
  gameState game = playing →
  JsMap.get socketId (players game) = Some player →
  (∀ L, L ∈ all_lines →
     ∃ c, c ∈ L ∧ c ≠ freeIndex ∧ c ∉ markedCells player) →
  freeIndex ∈ markedCells player →
  run (replicate n (ClaimBingo socketId)) w =
    Done w (replicate n (SocketEmit socketId (invalidBingo "Not a valid Bingo!"))).
Proof.
  intros Hsock Hstate Hp Hno Hfree. induction n as [|n IH]; [done|].
  cbn [replicate run handle].
  rewrite (on_claimBingo_turned_down _ _ _ _ _ Hsock Hstate Hp Hno).
  rewrite (afterFalseClaim_id _ _ _ _ _ Hsock Hp Hfree).
  by rewrite IH.
Qed.

(** C3 (as amended): in a room that is playing, a claim by a player without
    a complete line (the free cell counting as marked) is answered by a
    rejection sent to that player alone, and so for any number of such
    claims in a row.  The server is left as it was but for one thing: the
    first claim puts the free index 12 into the claimant's marked set, if
    it is not there already.  State, winner, history, current number and
    timer of the room, the claimant's id, name and card, the other players
    and their order, the other rooms, the sockets and the runtime stay as
    they are. *)
Theorem claimBingo_rejected n :
  ∀ socketId room game player w,
    socketGame socketId w = Some (room, game) →
    gameState game = playing →
    JsMap.get socketId (players game) = Some player →
    (∀ L, L ∈ all_lines →
       ∃ c, c ∈ L ∧ c ≠ freeIndex ∧ c ∉ markedCells player) →
    ∃ w' game' player',
      run (replicate n (ClaimBingo socketId)) w =
        Done w' (replicate n (SocketEmit socketId (invalidBingo "Not a valid Bingo!"))) ∧
      w' = match n with
           | O => w
           | S _ => afterFalseClaim socketId room game player w
           end ∧
      JsMap.get room (games w') = Some game' ∧
      gameState game' = playing ∧
      winner game' = winner game ∧
      calledNumbers game' = calledNumbers game ∧
      currentNumber game' = currentNumber game ∧
      callInterval game' = callInterval game ∧
      roomId game' = roomId game ∧
      JsMap.keys (players game') = JsMap.keys (players game) ∧
      JsMap.get socketId (players game') = Some player' ∧
      id player' = id player ∧
      name player' = name player ∧
      card player' = card player ∧
      markedCells player' =
        match n with
        | O => markedCells player
        | S _ => JsSet.add freeIndex (markedCells player)
        end ∧
      (∀ other, other ≠ socketId →
         JsMap.get other (players game') = JsMap.get other (players game)) ∧
      runtime w' = runtime w ∧
      socketRoom w' = socketRoom w ∧
      JsMap.keys (games w') = JsMap.keys (games w) ∧
      (∀ other, other ≠ room →
         JsMap.get other (games w') = JsMap.get other (games w)) ∧
      (freeIndex ∈ markedCells player → w' = w).
Proof.
  intros socketId room game player w Hsock Hstate Hp Hno.
  pose proof (proj1 (socketGame_Some _ _ _ _) Hsock) as (Hroom & Hne & Hg).
  destruct n as [|n].
  { exists w, game, player. by split_and!. }
  set (player1 := with_markedCells player (JsSet.add freeIndex (markedCells player))).
  set (game1 := with_players game (JsMap.set socketId player1 (players game))).
  assert (Hw1 : afterFalseClaim socketId room game player w =
                with_games w (JsMap.set room game1 (games w)) (runtime w)) by done.
  assert (Hsock1 : socketGame socketId (afterFalseClaim socketId room game player w) =
                   Some (room, game1)).
  { rewrite Hw1. apply socketGame_Some. split_and!; [done..|]. apply get_set_eq. }
  assert (Hp1 : JsMap.get socketId (players game1) = Some player1) by apply get_set_eq.
  assert (Hno1 : ∀ L, L ∈ all_lines →
            ∃ c, c ∈ L ∧ c ≠ freeIndex ∧ c ∉ markedCells player1).
  { intros L HL. destruct (Hno L HL) as (c & Hc & Hfree & Hnot).
    exists c. split_and!; [done..|].
    intros [?|?]%JsSet_elem_of_add; done. }
  assert (Hfree1 : freeIndex ∈ markedCells player1).
  { apply JsSet_elem_of_add. by left. }
  exists (afterFalseClaim socketId room game player w), game1, player1.
  split_and!; try done.
  - cbn [replicate run handle].
    rewrite (on_claimBingo_turned_down _ _ _ _ _ Hsock Hstate Hp Hno).
    by rewrite (false_claims_run socketId room game1 player1 _ n Hsock1).
  - rewrite Hw1. apply get_set_eq.
  - apply keys_set_present. by rewrite Hp.
  - intros other Hother. cbn [game1 players with_players]. by rewrite get_set_ne.
  - rewrite Hw1. apply keys_set_present. by rewrite Hg.
  - intros other Hother. rewrite Hw1. cbn [games with_games]. by rewrite get_set_ne.
  - intros Hfree. by apply afterFalseClaim_id.
Qed.

Lemma claimBingo_rejected_witness :
  socketGame "s1" (worldAfter pairRun (λ _, 0%N)) =
    Some ("r", roomOf (worldAfter pairRun (λ _, 0%N)) "r") ∧
  gameState (roomOf (worldAfter pairRun (λ _, 0%N)) "r") = playing ∧
  markedCells (playerOf (roomOf (worldAfter pairRun (λ _, 0%N)) "r") "s1") = [] ∧
  ∃ w' game' player',
    run (replicate 3 (ClaimBingo "s1")) (worldAfter pairRun (λ _, 0%N)) =
      Done w' (replicate 3 (SocketEmit "s1" (invalidBingo "Not a valid Bingo!"))) ∧
    JsMap.get "r" (games w') = Some game' ∧
    gameState game' = playing ∧
    winner game' = None ∧
    JsMap.get "s1" (players game') = Some player' ∧
    markedCells player' = [12].
Proof.
  assert (Hsock : socketGame "s1" (worldAfter pairRun (λ _, 0%N)) =
                  Some ("r", roomOf (worldAfter pairRun (λ _, 0%N)) "r")).
  { vm_compute. reflexivity. }
  assert (Hstate : gameState (roomOf (worldAfter pairRun (λ _, 0%N)) "r") = playing).
  { vm_compute. reflexivity. }
  assert (Hp : JsMap.get "s1" (players (roomOf (worldAfter pairRun (λ _, 0%N)) "r")) =
               Some (playerOf (roomOf (worldAfter pairRun (λ _, 0%N)) "r") "s1")).
  { vm_compute. reflexivity. }
  assert (Hmarks :
    markedCells (playerOf (roomOf (worldAfter pairRun (λ _, 0%N)) "r") "s1") = []).
  { vm_compute. reflexivity. }
  assert (Hwinner : winner (roomOf (worldAfter pairRun (λ _, 0%N)) "r") = None).
  { vm_compute. reflexivity. }
  assert (Hno : ∀ L, L ∈ all_lines →
            ∃ c, c ∈ L ∧ c ≠ freeIndex ∧
                 c ∉ markedCells (playerOf (roomOf (worldAfter pairRun (λ _, 0%N)) "r") "s1")).
  { rewrite Hmarks.
    assert (Hex : Forall (λ L, Exists (λ c, c ≠ freeIndex ∧ c ∉ @nil Z) L) all_lines).
    { apply (bool_decide_unpack _). vm_compute. exact I. }
    intros L HL. rewrite Forall_forall in Hex.
    destruct (proj1 (Exists_exists _ _) (Hex L HL)) as (c & Hc & Hfree & Hnot).
    exists c. split; [exact Hc|]. split; [exact Hfree | exact Hnot]. }
  split; [exact Hsock|]. split; [exact Hstate|]. split; [exact Hmarks|].
  destruct (claimBingo_rejected 3 "s1" "r" _ _ _ Hsock Hstate Hp Hno)
    as (w' & game' & player' & Hrun & _ & Hg & Hst & Hwin & _ & _ & _ & _ & _
        & Hp' & _ & _ & _ & Hm & _).
  exists w', game', player'.
  split; [exact Hrun|]. split; [exact Hg|]. split; [exact Hst|].
  split; [by rewrite Hwin|]. split; [exact Hp'|].
  rewrite Hm, Hmarks. reflexivity.
Defined.

(** C3 as stated fails: the room is not left unchanged.  After a join and
    a start, a claim by the player, who has marked nothing, is turned down
    and leaves index 12 in the player's marked set. *)
Lemma claimBingo_rejected_counterexample :
  ¬ (∀ random w socketId room game player w' out,
       reachable random w →
       socketGame socketId w = Some (room, game) →
       gameState game = playing →
       JsMap.get socketId (players game) = Some player →
       (∀ L, L ∈ all_lines →
          ∃ c, c ∈ L ∧ c ≠ freeIndex ∧ c ∉ markedCells player) →
       on_claimBingo socketId w = Done w' out →
       JsMap.get room (games w') = Some game).
Proof.
  intros H.
  assert (Hmarks :
    markedCells (playerOf (roomOf (worldAfter pairRun (λ _, 0%N)) "r") "s1") = []).
  { vm_compute. reflexivity. }
  assert (Hno : ∀ L, L ∈ all_lines →
            ∃ c, c ∈ L ∧ c ≠ freeIndex ∧
                 c ∉ markedCells (playerOf (roomOf (worldAfter pairRun (λ _, 0%N)) "r") "s1")).
  { rewrite Hmarks.
    assert (Hex : Forall (λ L, Exists (λ c, c ≠ freeIndex ∧ c ∉ @nil Z) L) all_lines).
    { apply (bool_decide_unpack _). vm_compute. exact I. }
    intros L HL. rewrite Forall_forall in Hex.
    destruct (proj1 (Exists_exists _ _) (Hex L HL)) as (c & Hc & Hfree & Hnot).
    exists c. split; [exact Hc|]. split; [exact Hfree | exact Hnot]. }
  specialize (H (λ _, 0%N) (worldAfter pairRun (λ _, 0%N)) "s1" "r"
                (roomOf (worldAfter pairRun (λ _, 0%N)) "r")
                (playerOf (roomOf (worldAfter pairRun (λ _, 0%N)) "r") "s1")
                (worldAfter (pairRun ++ [ClaimBingo "s1"]) (λ _, 0%N))
                [SocketEmit "s1" (invalidBingo "Not a valid Bingo!")]
                (worldAfter_reachable _ _)).
  assert (Hafter :
    (g ← JsMap.get "r" (games (worldAfter (pairRun ++ [ClaimBingo "s1"]) (λ _, 0%N)));
     p ← JsMap.get "s1" (players g); Some (markedCells p)) = Some [12]).
  { vm_compute. reflexivity. }
  rewrite H in Hafter.
  - vm_compute in Hafter. discriminate Hafter.
  - vm_compute. reflexivity.
  - vm_compute. reflexivity.
  - vm_compute. reflexivity.
  - exact Hno.
  - vm_compute. reflexivity.
Qed.

(** The tick that finds nothing left to draw, in one equation. *)
Lemma on_drawTick_exhausted room game handle w :
  JsMap.get room (games w) = Some game →
  callInterval game = Some handle →
  handle ∈ activeTimers (runtime w) →
  exhausted (calledNumbers game) →
  on_drawTick room w =
    Done (with_games w
            (JsMap.set room (stopGame game (runtime w)).1 (games w))
            (stopGame game (runtime w)).2)
         [].
Proof.
  intros Hg Hh Hactive Hall. unfold on_drawTick.
  rewrite Hg, Hh, bool_decide_eq_true_2 by done.
  destruct (callNumber_cases game (runtime w)) as [[_ ->]|(n & Hn & _)]; [done|].
  apply available_nil in Hall. cbv zeta in Hn. rewrite Hall in Hn.
  by apply elem_of_nil in Hn.
Qed.

(** C5 (as amended): in every room of every reachable server state, a
    timer handle is held only while the room is playing, and a playing room
    that holds no handle has called all of 1..75.  Every event whose
    handler returns keeps this so, in every room.  The tick that finds all
    of 1..75 called clears the timer and forgets the handle; the room stays
    playing, and history, current number, players and winner stay as they
    are.  Every card in the room is valid and the history has no
    repetition. *)
Theorem timer_handle_invariant random w room game :
  reachable random w →
  JsMap.get room (games w) = Some game →
  (is_Some (callInterval game) → gameState game = playing) ∧
  (gameState game = playing → ¬ exhausted (calledNumbers game) →
     is_Some (callInterval game)) ∧
  (gameState game = playing → callInterval game = None →
     exhausted (calledNumbers game)) ∧
  history_ok (calledNumbers game) ∧
  players_inv (players game) ∧
  (∀ ev w1 out room1 game1,
     handle ev w = Done w1 out →
     JsMap.get room1 (games w1) = Some game1 →
     (is_Some (callInterval game1) → gameState game1 = playing) ∧
     (gameState game1 = playing → ¬ exhausted (calledNumbers game1) →
        is_Some (callInterval game1))) ∧
  (∀ handle,
     callInterval game = Some handle →
     exhausted (calledNumbers game) →
     ∃ w' game',
       on_drawTick room w = Done w' [] ∧
       JsMap.get room (games w') = Some game' ∧
       gameState game' = playing ∧
       callInterval game' = None ∧
       handle ∈ activeTimers (runtime w) ∧
       activeTimers (runtime w') = activeTimers (runtime w) ∖ {[handle]} ∧
       calledNumbers game' = calledNumbers game ∧
       currentNumber game' = currentNumber game ∧
       players game' = players game ∧
       winner game' = winner game ∧
       (∀ other, other ≠ room →
          JsMap.get other (games w') = JsMap.get other (games w))).
Proof.
  intros Hreach Hg.
  destruct (reachable_inv _ _ Hreach room game (get_Some_elem _ _ _ Hg))
    as ([Hsome Hnone] & Hhist & Hps).
  split_and!; try done.
  - intros Hstate Hnot. destruct (callInterval game) eqn:Hh; [done|].
    destruct Hnot. by apply Hnone.
  - intros ev w1 out room1 game1 Hstep Hg1.
    assert (Hreach1 : reachable random w1) by (by eapply reachable_step).
    destruct (reachable_inv _ _ Hreach1 room1 game1 (get_Some_elem _ _ _ Hg1))
      as ([Hsome1 Hnone1] & _ & _).
    split; [done|].
    intros Hstate Hnot. destruct (callInterval game1) eqn:Hh; [done|].
    destruct Hnot. by apply Hnone1.
  - intros handle Hh Hall.
    destruct (reachable_server _ _ Hreach) as (_ & _ & _ & Hlive & _).
    pose proof (Hlive room game handle Hg Hh) as Hactive.
    rewrite (on_drawTick_exhausted _ _ _ _ Hg Hh Hactive Hall).
    destruct (stopGame_spec game (runtime w))
      as (Hcleared & _ & _ & Hplayers & Hcalled & Hcur & Hstate & Hwinner).
    assert (Hrt : activeTimers (stopGame game (runtime w)).2 =
                  activeTimers (runtime w) ∖ {[handle]}).
    { unfold stopGame. by rewrite Hh. }
    eexists _, _. split; [reflexivity|].
    cbn [games runtime with_games]. rewrite get_set_eq.
    split_and!; try done.
    + rewrite Hstate. apply Hsome. by rewrite Hh.
    + intros other Hother. by rewrite get_set_ne.
Qed.

Lemma timer_handle_invariant_witness :
  reachable (λ _, 0%N) (worldAfter lastDrawRun (λ _, 0%N)) ∧
  callInterval (roomOf (worldAfter lastDrawRun (λ _, 0%N)) "r") = Some 0%nat ∧
  length (calledNumbers (roomOf (worldAfter lastDrawRun (λ _, 0%N)) "r")) = 75%nat ∧
  gameState (roomOf (worldAfter lastDrawRun (λ _, 0%N)) "r") = playing ∧
  ∃ w' game',
    on_drawTick "r" (worldAfter lastDrawRun (λ _, 0%N)) = Done w' [] ∧
    JsMap.get "r" (games w') = Some game' ∧
    gameState game' = playing ∧
    callInterval game' = None ∧
    0%nat ∉ activeTimers (runtime w').
Proof.
  assert (Hg : JsMap.get "r" (games (worldAfter lastDrawRun (λ _, 0%N))) =
               Some (roomOf (worldAfter lastDrawRun (λ _, 0%N)) "r")).
  { vm_compute. reflexivity. }
  assert (Hh : callInterval (roomOf (worldAfter lastDrawRun (λ _, 0%N)) "r") =
               Some 0%nat).
  { vm_compute. reflexivity. }
  assert (Hall : exhausted (calledNumbers (roomOf (worldAfter lastDrawRun (λ _, 0%N)) "r"))).
  { assert (Hin : Forall (λ n, n ∈ calledNumbers
                            (roomOf (worldAfter lastDrawRun (λ _, 0%N)) "r"))
                    (seqZ 1 75)).
    { apply (bool_decide_unpack _). vm_compute. exact I. }
    intros n Hn. rewrite Forall_forall in Hin. apply Hin, elem_of_seqZ. lia. }
  destruct (timer_handle_invariant _ _ "r" _ (worldAfter_reachable (λ _, 0%N) lastDrawRun) Hg)
    as (Hplaying & _ & _ & _ & _ & _ & Htick).
  split; [apply worldAfter_reachable|]. split; [exact Hh|].
  split; [vm_compute; reflexivity|].
  split; [apply Hplaying; rewrite Hh; eexists; reflexivity|].
  destruct (Htick 0%nat Hh Hall)
    as (w' & game' & Hrun & Hg' & Hst & Hnone & _ & Hrt & _).
  exists w', game'.
  split; [exact Hrun|]. split; [exact Hg'|]. split; [exact Hst|].
  split; [exact Hnone|].
  rewrite Hrt. intros Hin. apply elem_of_difference in Hin as [_ Hnot].
  apply Hnot, elem_of_singleton. reflexivity.
Defined.

(** ** The room under the empty id *)

(** No event takes a player out of the room stored under the empty id, or
    removes that room: the handlers that remove resolve the socket's room
    first, and take the empty id for a missing one. *)
Lemma empty_room_step ev w w1 out socketId :
  handle ev w = Done w1 out →
  (∃ g, JsMap.get "" (games w) = Some g ∧
        is_Some (JsMap.get socketId (players g))) →
  ∃ g1, JsMap.get "" (games w1) = Some g1 ∧
        is_Some (JsMap.get socketId (players g1)).
Proof.
  intros Hstep (g & Hg & Hp).
  destruct (handle_other_room _ _ _ _ "" Hstep) as [Hsame|Haddr].
  { exists g. by rewrite Hsame. }
  destruct ev as [sid r nm|sid|sid row col|sid|sid|sid|r|];
    cbn [handle addressed] in Hstep, Haddr;
    try (match type of Haddr with _ ∧ _ => by destruct Haddr as [_ Hne] end);
    [| |done].
  - subst r. rewrite on_joinGame_done in Hstep. cbv zeta in Hstep.
    apply Done_inj in Hstep as [<- _]. rewrite Hg.
    change (default (newBingoGame "") (Some g)) with g.
    eexists. cbn [games]. rewrite get_set_eq. split; [reflexivity|].
    cbn [players with_players]. by apply claimant_kept.
  - subst r. unfold on_drawTick in Hstep. rewrite Hg in Hstep.
    destruct (callInterval g) as [handle|];
      [|apply Done_inj in Hstep as [<- _]; by exists g].
    destruct (bool_decide _); [|apply Done_inj in Hstep as [<- _]; by exists g].
    pose proof (callNumber_players g (runtime w)) as Hps.
    destruct (callNumber g (runtime w)) as [[number g'] rt'].
    cbn [fst snd] in Hps.
    apply Done_inj in Hstep as [<- _].
    exists g'. cbn [games with_games]. rewrite get_set_eq. by rewrite Hps.
Qed.

Lemma empty_room_run socketId later :
  ∀ w w2 out,
    run later w = Done w2 out →
    (∃ g, JsMap.get "" (games w) = Some g ∧
          is_Some (JsMap.get socketId (players g))) →
    ∃ g2, JsMap.get "" (games w2) = Some g2 ∧
          is_Some (JsMap.get socketId (players g2)).
Proof.
  induction later as [|ev later IH]; intros w w2 out Hrun Hin.
  - cbn [run] in Hrun. by apply Done_inj in Hrun as [<- _].
  - apply run_cons_inv in Hrun as (w1 & out1 & out2 & Hstep & Hrun).
    apply (IH w1 w2 out2 Hrun). by eapply empty_room_step.
Qed.

(** X9: the empty room id.  [joinGame] with an empty [roomId] registers the
    player in a room stored under the empty id.  Until the socket joins
    again, its [startGame], [markCell], [claimBingo], [newGame] and
    [disconnect] events do nothing and send nothing: the handlers take the
    empty id for a missing one.  And whatever events follow, from any
    socket, joins included, the room under the empty id stays in the
    registry with that player in it. *)
Theorem empty_room_id_inert socketId playerName evs w :
  Forall (sent_by socketId) evs →
  ∃ w1 out1 g1,
    on_joinGame socketId "" playerName w = Done w1 out1 ∧
    JsMap.get "" (games w1) = Some g1 ∧
    is_Some (JsMap.get socketId (players g1)) ∧
    run evs w1 = Done w1 [] ∧
    (∀ later w2 out2,
       run later w1 = Done w2 out2 →
       ∃ g2, JsMap.get "" (games w2) = Some g2 ∧
             is_Some (JsMap.get socketId (players g2))).
Proof.
  intros Hevs.
  pose proof (on_joinGame_done socketId "" playerName w) as Hjoin.
  cbv zeta in Hjoin. eexists _, _, _. split; [exact Hjoin|].
  cbn [games]. rewrite get_set_eq. split; [reflexivity|].
  cbn [players with_players]. rewrite get_set_eq. split; [by eexists|].
  match goal with |- run evs ?w1 = _ ∧ _ => set (world1 := w1) end.
  assert (Hsock : socketGame socketId world1 = None).
  { unfold socketGame. cbn [socketRoom world1]. by rewrite lookup_insert_eq. }
  assert (Hin : ∃ g, JsMap.get "" (games world1) = Some g ∧
                     is_Some (JsMap.get socketId (players g))).
  { eexists. cbn [games world1]. rewrite get_set_eq. split; [reflexivity|].
    cbn [players with_players]. rewrite get_set_eq. by eexists. }
  clearbody world1. clear Hjoin. split.
  - induction Hevs as [|ev evs Hev _ IH]; [done|].
    cbn [run]. by rewrite (inert_socket _ _ _ Hsock Hev), IH.
  - intros later w2 out2 Hrun. by apply (empty_room_run socketId later world1 w2 out2).
Qed.

Lemma empty_room_id_inert_witness :
  Forall (sent_by "s1") [StartGame "s1"; Disconnect "s1"] ∧
  ∃ w1 out1,
    on_joinGame "s1" "" "Ann" (initialWorld (λ _, 0%N)) = Done w1 out1 ∧
    run [StartGame "s1"; Disconnect "s1"] w1 = Done w1 [] ∧
    ∃ w2 out2 g2,
      run [Disconnect "s1"; JoinGame "s1" "r" "Ann"; Disconnect "s1"] w1 =
        Done w2 out2 ∧
      JsMap.get "r" (games w2) = None ∧
      JsMap.get "" (games w2) = Some g2 ∧
      is_Some (JsMap.get "s1" (players g2)).
Proof.
  assert (Hevs : Forall (sent_by "s1") [StartGame "s1"; Disconnect "s1"]).
  { repeat constructor. }
  split; [exact Hevs|].
  destruct (empty_room_id_inert "s1" "Ann" _ (initialWorld (λ _, 0%N)) Hevs)
    as (w1 & out1 & g1 & Hjoin & _ & _ & Hrun & Hlater).
  exists w1, out1. split; [exact Hjoin|]. split; [exact Hrun|].
  assert (Hc : outcome_world (on_joinGame "s1" "" "Ann" (initialWorld (λ _, 0%N))) =
               Some (worldAfter [JoinGame "s1" "" "Ann"] (λ _, 0%N))).
  { vm_compute. reflexivity. }
  rewrite Hjoin in Hc. cbn [outcome_world] in Hc. apply (inj Some) in Hc.
  clear Hjoin Hrun. subst w1.
  assert (Hsome : is_Some (outcome_world
            (run [Disconnect "s1"; JoinGame "s1" "r" "Ann"; Disconnect "s1"]
               (worldAfter [JoinGame "s1" "" "Ann"] (λ _, 0%N))))).
  { eexists. vm_compute. reflexivity. }
  assert (Hgone :
    (w2 ← outcome_world
            (run [Disconnect "s1"; JoinGame "s1" "r" "Ann"; Disconnect "s1"]
               (worldAfter [JoinGame "s1" "" "Ann"] (λ _, 0%N)));
     Some (JsMap.get "r" (games w2))) = Some None).
  { vm_compute. reflexivity. }
  destruct (run [Disconnect "s1"; JoinGame "s1" "r" "Ann"; Disconnect "s1"]
              (worldAfter [JoinGame "s1" "" "Ann"] (λ _, 0%N)))
    as [w2 out2|] eqn:Hrun2; [clear Hsome|by destruct Hsome].
  destruct (Hlater _ w2 out2 Hrun2) as (g2 & Hg2 & Hp2).
  exists w2, out2, g2. split; [reflexivity|].
  cbn [outcome_world mbind option_bind] in Hgone. apply (inj Some) in Hgone.
  split; [exact Hgone|]. split; [exact Hg2 | exact Hp2].
Defined.
